(** * Instant-runoff tabulation (irv.py): VoteTable and the runoff engine

    A shallow embedding of [irv.py]: [p3zip], [get_rank_order], the
    [VoteTable] class ([maintain], [reduce_ranks], [update_counts],
    [compute_winner], [check_tied], [with_candidate_eliminated], [copy],
    [print_table]), [instant_runoff], and around them [filterBallot],
    [read_votes] from the rows of the vote file on, [loop_tables] and
    [print_winner].

    Conventions.
    - The code is read as Python 3, whose port it carries ([p3zip],
      [list(map(...))], [input]): [/] is true division, and ordering [None]
      against an [int] raises [TypeError].
    - Python [int] is [Z]; [len] results and [enumerate] indices are [nat].
    - A ballot slot is [option Z]: [None] is Python's [None] (abstention).
    - A computation that may raise returns [res]: [Ok v], or [Raise e]
      for a Python exception.  [while True] is the only source of
      non-termination in the program: the loop is given a bound on its
      number of iterations, and a run that exhausts it has no result
      ([None]).
    - [VoteTable] instances live in a store ([heap]); a Python reference to
      an instance is an address in that store.  Lists held in fields are
      never mutated in place by the code below (every assignment binds a
      freshly built list), so they are modelled as values.  [filterBallot]
      does overwrite cells of its argument, which is a slice [read_votes]
      has just cut and nothing else holds.
    - The vote file is read by [csv.reader]: [read_votes] starts from the
      rows it returns, lists of [str].  The constants of [data_structure],
      a module the repository does not hold, are parameters.
    - The prompts are the boundary to the operator: [input] returns the
      line the operator types, a [str], and is an oracle from the prompt
      to that line.  The prompts that only wait for the enter key take no
      part in the tabulation and are not modelled; neither is what
      [print] writes. *)

From Stdlib Require Import ZArith QArith Lia DecimalString.
From stdpp Require Import base tactics option list strings sorting lexico.

Local Open Scope Z_scope.
#[local] Set Warnings "-clear-no-such-hyp".

(** ** Exceptions and results *)

Inductive exn : Set :=
  | TypeError | KeyError | IndexError | ValueError | ReferenceError
  | AttributeError.

Inductive res (A : Type) : Type :=
  | Ok (a : A)
  | Raise (e : exn).
Arguments Ok {A} a.
Arguments Raise {A} e.

Definition res_bind {A B} (m : res A) (k : A → res B) : res B :=
  match m with
  | Ok a => k a
  | Raise e => Raise e
  end.

Notation "x ←ᵣ m ; k" := (res_bind m (λ x, k))
  (at level 20, m at level 100, k at level 200, right associativity,
   format "x  ←ᵣ  m ;  '/' k").
Notation "' p ←ᵣ m ; k" := (res_bind m (λ x, match x with p => k end))
  (at level 20, p pattern, m at level 100, k at level 200,
   right associativity).

Fixpoint res_mapM {A B} (f : A → res B) (l : list A) : res (list B) :=
  match l with
  | [] => Ok []
  | x :: l' => y ←ᵣ f x; ys ←ᵣ res_mapM f l'; Ok (y :: ys)
  end.

Fixpoint res_foldM {A B} (f : B → A → res B) (acc : B) (l : list A) : res B :=
  match l with
  | [] => Ok acc
  | x :: l' => acc' ←ᵣ f acc x; res_foldM f acc' l'
  end.

(** ** Python built-ins used by the tabulation *)

Module Py.

(** [x < y] on [int]. *)
Definition int_lt (x y : Z) : res bool := Ok (x <? y).

(** [x < y] where each side is an [int] or [None]: ordering [None]
    against anything is a [TypeError]. *)
Definition vote_lt (x y : option Z) : res bool :=
  match x, y with
  | Some a, Some b => Ok (a <? b)
  | _, _ => Raise TypeError
  end.

(** [x < y] on [str]. *)
Definition str_lt (x y : string) : res bool := Ok (String.ltb x y).

(** [v < w] on lists (and tuples of one element type): the first
    position where the items differ under [==] decides, by [<] on those
    two items; without such a position the shorter list is smaller. *)
Fixpoint list_lt {A} `{EqDecision A} (elt_lt : A → A → res bool)
    (v w : list A) : res bool :=
  match v, w with
  | x :: v', y :: w' =>
      if decide (x = y) then list_lt elt_lt v' w' else elt_lt x y
  | [], _ :: _ => Ok true
  | _, [] => Ok false
  end.

(** [sorted(l)], driven by [<] only.  CPython's list sort is a stable
    comparison sort; for a list of two items it evaluates [l[1] < l[0]]
    once.  The model is the stable insertion sort below, which makes the
    same single comparison on two items and, whenever no comparison
    raises and [<] is a strict weak order, returns the one stable sorted
    arrangement any stable sort returns.  It raises when a comparison it
    performs raises. *)
Fixpoint insort {A} (lt : A → A → res bool) (a : A) (l : list A)
    : res (list A) :=
  match l with
  | [] => Ok [a]
  | b :: l' =>
      c ←ᵣ lt b a;
      if c : bool then r ←ᵣ insort lt a l'; Ok (b :: r) else Ok (a :: b :: l')
  end.

Fixpoint sorted {A} (lt : A → A → res bool) (l : list A) : res (list A) :=
  match l with
  | [] => Ok []
  | a :: l' => s ←ᵣ sorted lt l'; insort lt a s
  end.

(** [enumerate(l)]. *)
Definition enumerate {A} (l : list A) : list (nat * A) :=
  imap (λ i v, (i, v)) l.

(** [l[i] = x] for [i >= 0]: [IndexError] out of range. *)
Definition setitem {A} (l : list A) (i : nat) (x : A) : res (list A) :=
  if decide (i < length l)%nat then Ok (<[i := x]> l) else Raise IndexError.

(** [l[-k]] for [k >= 1], and [l[0]]. *)
Definition getitem_neg {A} (l : list A) (k : nat) : res A :=
  match reverse l !! (k - 1)%nat with
  | Some x => Ok x
  | None => Raise IndexError
  end.

Definition getitem0 {A} (l : list A) : res A :=
  match l with
  | x :: _ => Ok x
  | [] => Raise IndexError
  end.

(** [l[i]] for an [int] [i]: a negative index counts from the end;
    [IndexError] out of range. *)
Definition getitem {A} (l : list A) (i : Z) : res A :=
  let k := if i <? 0 then Z.of_nat (length l) + i else i in
  if k <? 0 then Raise IndexError
  else match l !! Z.to_nat k with
       | Some x => Ok x
       | None => Raise IndexError
       end.

(** Slice bounds: a negative bound counts from the end, and every bound
    is clamped to the list. *)
Definition slice_bound {A} (l : list A) (i : Z) : nat :=
  Z.to_nat (if i <? 0 then Z.max (Z.of_nat (length l) + i) 0 else i).

(** [l[:i]] and [l[i:]]. *)
Definition slice_to {A} (l : list A) (i : Z) : list A :=
  take (slice_bound l i) l.
Definition slice_from {A} (l : list A) (i : Z) : list A :=
  drop (slice_bound l i) l.

(** [l.index(x)]: first position holding [x], [ValueError] without one. *)
Fixpoint index {A} `{EqDecision A} (l : list A) (x : A) : res nat :=
  match l with
  | [] => Raise ValueError
  | y :: l' => if decide (y = x) then Ok 0%nat
               else i ←ᵣ index l' x; Ok (S i)
  end.

(** [sum(l)] on a list of [int]. *)
Definition sum (l : list Z) : Z := foldr Z.add 0 l.

(** [l[start:stop]], [stop] being an [int] or [None]. *)
Definition slice {A} (l : list A) (start : Z) (stop : option Z) : list A :=
  let lo := slice_bound l start in
  let hi := match stop with
            | Some e => slice_bound l e
            | None => length l
            end in
  take (hi - lo) (drop lo l).

End Py.

(** [p3zip(item)] zips the rows of [item] together and makes each
    resulting tuple a list: the transpose, cut to the shortest row; the
    zip of no rows is empty. *)
Fixpoint p3zip {A} (item : list (list A)) : list (list A) :=
  match item with
  | [] => []
  | [r] => (λ x, [x]) <$> r
  | r :: rest => zip_with cons r (p3zip rest)
  end.

(** ** get_rank_order *)

(** [a < b] on the tuples [(v, i)], both items [int]. *)
Definition rank_pair_lt (a b : Z * nat) : res bool :=
  if decide (a.1 = b.1)
  then if decide (a.2 = b.2) then Ok false else Ok (a.2 <? b.2)%nat
  else Py.int_lt a.1 b.1.

(** [(v, i) for (i, v) in enumerate(list) if v is not None]; the second
    [if v is not None] of the comprehension holds for every pair. *)
Definition slot_of (iv : nat * option Z) : option (Z * nat) :=
  match iv.2 with Some v => Some (v, iv.1) | None => None end.

Definition ranked_slots (l : list (option Z)) : list (Z * nat) :=
  omap slot_of (Py.enumerate l).

(** [out[index] = rank + 1], for the pair [(rank, index)]. *)
Definition assign_rank (out : list (option Z)) (ri : nat * nat)
    : res (list (option Z)) :=
  Py.setitem out ri.2 (Some (Z.of_nat ri.1 + 1)).

Definition get_rank_order (l : list (option Z)) : res (list (option Z)) :=
  s ←ᵣ Py.sorted rank_pair_lt (ranked_slots l);
  let indices := s.*2 in
  res_foldM assign_rank (replicate (length l) None) (Py.enumerate indices).

(** ** VoteTable *)

Record VoteTable : Type := mkVoteTable {
  votes : list (list (option Z));
  names : list string;
  counts : list (list Z);
  N_votes : nat;
  N_candidates : nat
}.

(** Sort key of one candidate in [update_counts]: the tuple
    [(count vector, ballot column, name)]. *)
Abbreviation key := (list Z * list (option Z) * string)%type (only parsing).

Definition key_lt (a b : key) : res bool :=
  let '(c1, v1, n1) := a in
  let '(c2, v2, n2) := b in
  if decide (c1 = c2) then
    if decide (v1 = v2) then
      if decide (n1 = n2) then Ok false else Py.str_lt n1 n2
    else Py.list_lt Py.vote_lt v1 v2
  else Py.list_lt Py.int_lt c1 c2.

(** The counter dict of one candidate has exactly the keys
    [1 .. N_candidates]; it is kept as the list of its values in key
    order (key [r] at position [r - 1]), which is what
    [[count for (rank, count) in sorted(counter.items())]] returns.
    [counter[vote] += 1] is a [KeyError] for a missing key. *)
Definition counter_incr (counter : list Z) (vote : Z) : res (list Z) :=
  if decide (1 ≤ vote ≤ Z.of_nat (length counter)) then
    Ok (alter (Z.add 1) (Z.to_nat (vote - 1)) counter)
  else Raise KeyError.

(** One turn of [for vote in votes]: abstentions are not counted. *)
Definition count_step (counter : list Z) (vote : option Z) : res (list Z) :=
  match vote with
  | Some v => counter_incr counter v
  | None => Ok counter
  end.

Definition count_votes (N : nat) (col : list (option Z)) : res (list Z) :=
  res_foldM count_step (replicate N 0) col.

Definition votes_by_candidate (self : VoteTable) : list (list (option Z)) :=
  p3zip (votes self).

Definition zip3 {A B C} (a : list A) (b : list B) (c : list C)
    : list (A * B * C) :=
  zip (zip a b) c.

Definition update_counts (self : VoteTable) : res VoteTable :=
  cnts ←ᵣ res_mapM (λ cv : string * list (option Z),
                      count_votes (N_candidates self) cv.2)
                   (zip (names self) (votes_by_candidate self));
  s ←ᵣ Py.sorted key_lt (zip3 cnts (votes_by_candidate self) (names self));
  match s with
  | [] => Raise ValueError
  | _ :: _ =>
      Ok {| votes := p3zip s.*1.*2;
            names := s.*2;
            counts := s.*1.*1;
            N_votes := N_votes self;
            N_candidates := N_candidates self |}
  end.

Definition reduce_ranks (self : VoteTable) : res VoteTable :=
  vs ←ᵣ res_mapM get_rank_order (votes self);
  Ok {| votes := vs; names := names self; counts := counts self;
        N_votes := N_votes self; N_candidates := N_candidates self |}.

Definition maintain (self : VoteTable) : res VoteTable :=
  let self1 :=
    {| votes := votes self; names := names self; counts := counts self;
       N_votes := length (votes self);
       N_candidates := length (names self) |} in
  self2 ←ᵣ reduce_ranks self1;
  update_counts self2.

(** [VoteTable.__init__]: the state of the new instance once the
    constructor returns.  [counts], [N_votes] and [N_candidates] do not
    exist before [maintain] assigns them; the placeholders are never
    read. *)
Definition VoteTable_init (votes0 : list (list (option Z)))
    (names0 : list string) : res VoteTable :=
  maintain {| votes := votes0; names := names0; counts := [];
              N_votes := 0; N_candidates := 0 |}.

Definition compute_winner (self : VoteTable) : res (option string) :=
  strongest ←ᵣ Py.getitem_neg (counts self) 1;
  first ←ᵣ Py.getitem0 strongest;
  (* first > N_votes / 2 under true division: the quotient is a float,
     exact below 2^53 ballots, and int-to-float comparison is exact *)
  if negb (Qle_bool (inject_Z first) (Z.of_nat (N_votes self) # 2)) then
    w ←ᵣ Py.getitem_neg (names self) 1; Ok (Some w)
  else Ok None.

Definition check_tied (self : VoteTable) : res bool :=
  c1 ←ᵣ Py.getitem_neg (counts self) 1;
  c2 ←ᵣ Py.getitem_neg (counts self) 2;
  let counts_equal := bool_decide (c1 = c2) in
  c1' ←ᵣ Py.getitem_neg (counts self) 1;
  let counts_nonzero := 0 <? Py.sum c1' in
  Ok (counts_equal && counts_nonzero).

(** The arguments [with_candidate_eliminated] passes to the constructor. *)
Definition eliminated_votes (self : VoteTable) (index : Z)
    : list (list (option Z)) :=
  let vs := votes_by_candidate self in
  p3zip (Py.slice_to vs index ++ Py.slice_from vs (index + 1)).

Definition eliminated_names (self : VoteTable) (index : Z) : list string :=
  Py.slice_to (names self) index ++ Py.slice_from (names self) (index + 1).

(** [print_table] takes the widest name, prints a rule, and then calls
    [string.ljust] to pad the first column.  The [string] module of
    Python 3 has no [ljust]: looking it up raises [AttributeError], on
    every table, before a row is printed. *)
Definition print_table (self : VoteTable) : res unit := Raise AttributeError.

(** ** get_rank_order on the cells of the vote file

    [get_rank_order] orders the entries of a ballot with [<] and never
    looks at what they are.  The ballots [read_votes] hands to the
    constructor hold the cells of the vote file, which are [str]: the
    definitions below are [get_rank_order] for entries of a type [V]
    ordered by [v_lt]. *)

Section Cells.
Context {V : Type} `{EqDecision V} (v_lt : V → V → res bool).

(** [a < b] on the tuples [(v, i)]. *)
Definition cell_pair_lt (a b : V * nat) : res bool :=
  if decide (a.1 = b.1)
  then if decide (a.2 = b.2) then Ok false else Ok (a.2 <? b.2)%nat
  else v_lt a.1 b.1.

Definition slot_of_cell (iv : nat * option V) : option (V * nat) :=
  match iv.2 with Some v => Some (v, iv.1) | None => None end.

Definition ranked_cells (l : list (option V)) : list (V * nat) :=
  omap slot_of_cell (Py.enumerate l).

Definition get_rank_order_cells (l : list (option V))
    : res (list (option Z)) :=
  s ←ᵣ Py.sorted cell_pair_lt (ranked_cells l);
  let indices := s.*2 in
  res_foldM assign_rank (replicate (length l) None) (Py.enumerate indices).

(** [VoteTable(votes, names)] on ballots of cells: [maintain] takes the
    two lengths, [reduce_ranks] replaces the ballots by their rank
    orders, [update_counts] counts and sorts. *)
Definition VoteTable_init_cells (votes0 : list (list (option V)))
    (names0 : list string) : res VoteTable :=
  vs ←ᵣ res_mapM get_rank_order_cells votes0;
  update_counts {| votes := vs; names := names0; counts := [];
                   N_votes := length votes0;
                   N_candidates := length names0 |}.

End Cells.

(** ** The object store *)

(** A reference to a [VoteTable] instance. *)
Abbreviation ref := nat (only parsing).

Abbreviation heap := (list VoteTable) (only parsing).

(** Computations over the store that may raise, or exhaust the bound of
    a loop ([None]). *)
Definition M (A : Type) : Type := heap → option (res (A * heap)).

Definition ret {A} (a : A) : M A := λ h, Some (Ok (a, h)).

Definition bind {A B} (m : M A) (k : A → M B) : M B :=
  λ h, match m h with
       | Some (Ok (a, h')) => k a h'
       | Some (Raise e) => Some (Raise e)
       | None => None
       end.

Definition out_of_fuel {A} : M A := λ _, None.

Notation "x ←ₛ m ; k" := (bind m (λ x, k))
  (at level 20, m at level 100, k at level 200, right associativity,
   format "x  ←ₛ  m ;  '/' k").

Definition raise {A} (e : exn) : M A := λ _, Some (Raise e).

Definition lift {A} (r : res A) : M A :=
  λ h, Some (a ←ᵣ r; Ok (a, h)).

(** Field access through a reference. *)
Definition deref (r : ref) : M VoteTable :=
  λ h, match h !! r with
       | Some self => Some (Ok (self, h))
       | None => Some (Raise ReferenceError)
       end.

(** A new instance gets the next free address. *)
Definition alloc (self : VoteTable) : M ref :=
  λ h, Some (Ok (length h, h ++ [self])).

Module Ref.

(** [VoteTable(votes, names)] *)
Definition new (votes0 : list (list (option Z))) (names0 : list string)
    : M ref :=
  self ←ₛ lift (VoteTable_init votes0 names0);
  alloc self.

Definition copy (table : ref) : M ref :=
  self ←ₛ deref table;
  new (votes self) (names self).

Definition compute_winner (table : ref) : M (option string) :=
  self ←ₛ deref table;
  lift (compute_winner self).

Definition check_tied (table : ref) : M bool :=
  self ←ₛ deref table;
  lift (check_tied self).

Definition with_candidate_eliminated (table : ref) (index : Z) : M ref :=
  self ←ₛ deref table;
  new (eliminated_votes self index) (eliminated_names self index).

Definition print_table (table : ref) : M unit :=
  self ←ₛ deref table;
  lift (print_table self).

End Ref.

(** ** instant_runoff *)

Record results : Type := mkResults {
  ranking : list string;
  ineligible_candidates : list string
}.

(** How the [while True] loop of one rank is left. *)
Inductive round_end : Type :=
  | Winner (winner : string)
  | Ineligible (unlucky_soul : string).

Definition recorded (e : round_end) : string :=
  match e with
  | Winner winner => winner
  | Ineligible unlucky_soul => unlucky_soul
  end.

(** What [loser_index] is bound to: the [int] 0, or the [str] that
    [input] returned. *)
Inductive loser : Type :=
  | Index (i : Z)
  | Typed (line : string).

(** [table.names[loser_index]], read for the message of manual mode: a
    [str] is not an index. *)
Definition loser_name (self : VoteTable) (loser_index : loser) : res string :=
  match loser_index with
  | Index i => Py.getitem (names self) i
  | Typed _ => Raise TypeError
  end.

(** [table.with_candidate_eliminated(loser_index)]: the slice
    [votes[:index]] raises [TypeError] for a [str]. *)
Definition eliminate_loser (table : ref) (loser_index : loser) : M ref :=
  match loser_index with
  | Index i => Ref.with_candidate_eliminated table i
  | Typed _ => self ←ₛ deref table; raise TypeError
  end.

Section Runoff.

(** The operator: the line typed in answer to a prompt. *)
Variable input : string → string.

Variable name : string.
Variable is_automated : bool.

(** How [loser_index] is set when no candidate has a majority and more
    than one candidate is left: the table is printed before the
    operator is asked. *)
Definition select_loser (table : ref) : M loser :=
  if negb is_automated then
    printed ←ₛ Ref.print_table table;
    ret (Typed (input "Which candidate to eliminate? Please enter a number: "))
  else
    tied ←ₛ Ref.check_tied table;
    if negb tied then ret (Index 0)
    else
      printed ←ₛ Ref.print_table table;
      ret (Typed (input (String.append "** I found an unbreakable tie for "
                           (String.append name
                              ". Which candidate do you want to eliminate? ")))).
(** The [while True] loop; [fuel] bounds its number of iterations. *)
Fixpoint while_true (fuel : nat) (table : ref) : M (ref * round_end) :=
  match fuel with
  | O => out_of_fuel
  | S fuel' =>
      winner ←ₛ Ref.compute_winner table;
      match winner with
      | None =>
          self ←ₛ deref table;
          if decide (N_candidates self = 1%nat) then
            match names self with
            | [unlucky_soul] => ret (table, Ineligible unlucky_soul)
            | _ => raise ValueError
            end
          else
            loser_index ←ₛ select_loser table;
            shown ←ₛ (if negb is_automated
                      then lift (loser_name self loser_index)
                      else ret EmptyString);
            table' ←ₛ eliminate_loser table loser_index;
            while_true fuel' table'
      | Some w => ret (table, Winner w)
      end
  end.

(** State carried by [for rank in range(N)]. *)
Record loop_state : Type := mkLoop {
  cur_table : ref;
  cur_ranking : list string;
  cur_ineligible : list string
}.

(** One iteration of the [for] loop. *)
Definition round_body (fuel N rank : nat) (st : loop_state) : M loop_state :=
  full_table ←ₛ Ref.copy (cur_table st);
  te ←ₛ while_true fuel (cur_table st);
  let ranking' :=
    match te.2 with
    | Winner winner => cur_ranking st ++ [winner]
    | Ineligible _ => cur_ranking st
    end in
  let ineligible' :=
    match te.2 with
    | Winner _ => cur_ineligible st
    | Ineligible unlucky_soul => cur_ineligible st ++ [unlucky_soul]
    end in
  if decide (rank ≠ (N - 1)%nat) then
    full ←ₛ deref full_table;
    i ←ₛ lift (Py.index (names full) (recorded te.2));
    table' ←ₛ Ref.with_candidate_eliminated full_table (Z.of_nat i);
    ret (mkLoop table' ranking' ineligible')
  else ret (mkLoop te.1 ranking' ineligible').

Fixpoint for_rank (fuel N : nat) (ranks : list nat) (st : loop_state)
    : M loop_state :=
  match ranks with
  | [] => ret st
  | rank :: ranks' =>
      st' ←ₛ round_body fuel N rank st;
      for_rank fuel N ranks' st'
  end.

Definition instant_runoff (fuel : nat) (table : ref) : M results :=
  self ←ₛ deref table;
  let N := N_candidates self in
  st ←ₛ for_rank fuel N (seq 0 N) (mkLoop table [] []);
  ret (mkResults (cur_ranking st) (cur_ineligible st)).

End Runoff.

(** [loop_tables] on one position with ballots: build the table, run the
    contest. *)
Definition tabulate (input : string → string) (fuel : nat)
    (name : string) (ballots : list (list (option Z)))
    (cand : list string) (is_automated : bool) : option (res results) :=
  match (table ←ₛ Ref.new ballots cand;
         instant_runoff input name is_automated fuel table) [] with
  | Some (Ok (r, _)) => Some (Ok r)
  | Some (Raise e) => Some (Raise e)
  | None => None
  end.

(** ** filterBallot *)

Section FilterBallot.

(** [int(s)] for a cell [s] of the vote file: the number it denotes, or
    an exception. *)
Variable int : string → res Z.

(** The [for] loop from [index] on, [cells] being [ballot[index:]].  It
    returns [valid] and what the loop leaves in [ballot[index:]]: a cell
    out of range is overwritten with [None], the others are kept as they
    are; [break] leaves the cells not yet visited. *)
Fixpoint filterBallot_for (cells : list string) (valid : bool)
    (votes : list Z) : res (bool * list (option string)) :=
  match cells with
  | [] => Ok (valid, [])
  | cell :: rest =>
      vote ←ᵣ int cell;
      if (0 <? vote) && (vote <? 11) then
        if bool_decide (vote ∈ votes) then Ok (false, Some <$> cells)
        else
          r ←ᵣ filterBallot_for rest true (votes ++ [vote]);
          Ok (r.1, Some cell :: r.2)
      else
        r ←ᵣ filterBallot_for rest valid votes;
        Ok (r.1, None :: r.2)
  end.

(** The ballot is returned when [valid], [None] otherwise. *)
Definition filterBallot (ballot : list string)
    : res (option (list (option string))) :=
  r ←ᵣ filterBallot_for ballot false [];
  Ok (if r.1 : bool then Some r.2 else None).

End FilterBallot.

(** ** Positions *)

(** A position as [read_votes] makes it, a dict with the keys [name],
    [start], [end], [names] and [ballots]; [loop_tables] adds the key
    [results]. *)
Record position : Type := mkPosition {
  p_name : string;
  p_start : Z;
  p_end : option Z;
  p_names : list string;
  p_ballots : list (list (option string));
  p_results : option results
}.

(** ** read_votes *)

Section ReadVotes.

Variable int : string → res Z.

(** The constants of [data_structure], a module the repository does not
    hold: three [int] and two lists. *)
Variables CANDIDATE_ROW FIRST_CANDIDATE_COL FIRST_BALLOT_ROW : Z.
Variable POSITIONS : list Z.
Variable POSITION_NAMES : list string.

(** [positionIndices]: the running sums of [POSITIONS], from
    [previous]. *)
Fixpoint position_indices (previous : Z) (positions : list Z) : list Z :=
  match positions with
  | [] => []
  | pos :: rest => previous :: position_indices (pos + previous) rest
  end.

(** The dict appended for [index]. *)
Definition new_position (candidates : list string)
    (positionIndices : list Z) (index : nat) : res position :=
  start ←ᵣ Py.getitem positionIndices (Z.of_nat index);
  stop ←ᵣ (if decide (index + 1 < length positionIndices)%nat
            then e ←ᵣ Py.getitem positionIndices (Z.of_nat (index + 1));
                 Ok (Some e)
            else Ok None);
  name ←ᵣ Py.getitem POSITION_NAMES (Z.of_nat index);
  Ok (mkPosition name start stop (Py.slice candidates start stop) [] None).

(** One turn of [for position in results]: the cells of the position
    are cut out of the row and filtered, and the ballot is appended when
    it is kept. *)
Definition add_ballot (ballot : list string) (p : position) : res position :=
  vote ←ᵣ filterBallot int
            (Py.slice (Py.slice_from ballot FIRST_CANDIDATE_COL)
                      (p_start p) (p_end p));
  Ok (match vote with
      | Some v => mkPosition (p_name p) (p_start p) (p_end p) (p_names p)
                             (p_ballots p ++ [v]) (p_results p)
      | None => p
      end).

(** [read_votes], from the rows [csv.reader] returns. *)
Definition read_votes (raw_data : list (list string))
    : res (list position) :=
  header ←ᵣ Py.getitem raw_data CANDIDATE_ROW;
  let candidates := Py.slice_from header FIRST_CANDIDATE_COL in
  let ballots := Py.slice_from raw_data FIRST_BALLOT_ROW in
  let positionIndices := position_indices 0 POSITIONS in
  results ←ᵣ res_mapM (new_position candidates positionIndices)
                      (seq 0 (length positionIndices));
  res_foldM (λ results ballot, res_mapM (add_ballot ballot) results)
            results ballots.

End ReadVotes.

(** ** loop_tables *)

(** [position["results"] = instant_runoff(position["name"], table,
    is_automated)] for [table = VoteTable(position["ballots"],
    position["names"])]; a position without ballots is passed over. *)
Definition loop_position (input : string → string) (fuel : nat)
    (is_automated : bool) (p : position) : option (res position) :=
  if decide (length (p_ballots p) = 0%nat) then Some (Ok p)
  else
    match (table ←ₛ (self ←ₛ lift (VoteTable_init_cells Py.str_lt
                                     (p_ballots p) (p_names p));
                     alloc self);
           instant_runoff input (p_name p) is_automated fuel table) [] with
    | Some (Ok (r, _)) =>
        Some (Ok (mkPosition (p_name p) (p_start p) (p_end p) (p_names p)
                             (p_ballots p) (Some r)))
    | Some (Raise e) => Some (Raise e)
    | None => None
    end.

Fixpoint loop_tables (input : string → string) (fuel : nat)
    (is_automated : bool) (positions : list position)
    : option (res (list position)) :=
  match positions with
  | [] => Some (Ok [])
  | p :: rest =>
      match loop_position input fuel is_automated p with
      | Some (Ok p') =>
          match loop_tables input fuel is_automated rest with
          | Some (Ok rest') => Some (Ok (p' :: rest'))
          | r => r
          end
      | Some (Raise e) => Some (Raise e)
      | None => None
      end
  end.

(** ** print_winner *)

Definition rule : string := "~~~~~~~~~~~~~~~~~~~~~~~~~~~~~~~~~~~~~~~~~~~".

(** The lines [print_winner] prints for one position. *)
Definition winner_lines (p : position) : res (list string) :=
  match p_results p with
  | None =>
      Ok [rule; p_name p; "Position has no Valid Ballots"%string; EmptyString]
  | Some r =>
      winner ←ᵣ Py.getitem0 (ranking r);
      Ok [rule; p_name p; String.append "Winner: " winner; EmptyString]
  end.

(** The lines [print_winner] prints, up to an exception. *)
Definition print_winner (positions : list position) : res (list string) :=
  lines ←ᵣ res_mapM winner_lines positions;
  Ok (EmptyString :: concat lines).

(** * Vocabulary of the properties *)

(** The non-abstaining ranks of a ballot, in slot order. *)
Definition ranks_of (l : list (option Z)) : list Z := omap id l.

(** Ascending order on the pairs [(rank, slot)] that [get_rank_order]
    sorts: by rank, then by slot. *)
Definition pair_le (a b : Z * nat) : Prop := a = b ∨ lexico a b.

(** [x] is ordered before [y] as a ballot entry: both are ranks and
    [x] is the smaller.  An abstention is ordered against nothing. *)
Definition vote_before (x y : option Z) : Prop :=
  match x, y with
  | Some a, Some b => a < b
  | _, _ => False
  end.

#[global] Instance vote_lexico : Lexico (option Z) := vote_before.

#[global] Instance string_lexico : Lexico string :=
  λ a b, String.ltb a b = true.

(** Ascending order of the sort keys of [update_counts]: by count vector,
    then by ballot column, then by name, each lexicographic. *)
Definition key_le (a b : key) : Prop := a = b ∨ lexico a b.

(** The candidates of a table in table order, each as its count vector,
    its ballot column and its name. *)
Definition candidates (t : VoteTable) : list key :=
  zip3 (counts t) (votes_by_candidate t) (names t).

(** The number of ballots of a column that give rank [r]. *)
Definition tally (col : list (option Z)) (r : Z) : Z :=
  Z.of_nat (length (filter (λ v, v = Some r) col)).

(** The count vector of a column over the ranks [1 .. N]. *)
Definition count_vector (N : nat) (col : list (option Z)) : list Z :=
  (λ k, tally col (Z.of_nat k + 1)) <$> seq 0 N.

(** The invariant of a constructed table: its candidates are
    ascending; each count vector is the count vector of the
    candidate's column over the ranks [1 .. N_candidates]; each column has
    one entry per ballot. *)
Record table_inv (t : VoteTable) : Prop := mkTableInv {
  inv_nonempty : candidates t ≠ [];
  inv_sorted : StronglySorted key_le (candidates t);
  inv_counts : counts t = (candidates t).*1.*1;
  inv_columns : votes_by_candidate t = (candidates t).*1.*2;
  inv_names : names t = (candidates t).*2;
  inv_count_vectors :
    Forall (λ k : key, k.1.1 = count_vector (N_candidates t) k.1.2
                       ∧ length k.1.2 = N_votes t) (candidates t);
  inv_ballots : (1 ≤ N_votes t)%nat;
  inv_votes_length : length (votes t) = N_votes t;
  inv_votes_width :
    Forall (λ b, length b = length (candidates t)) (votes t);
  inv_width : (length (candidates t) ≤ N_candidates t)%nat
}.

(** Ballots aligned with the candidate list. *)
Definition aligned (votes0 : list (list (option Z))) (names0 : list string)
    : Prop :=
  Forall (λ b, length b = length names0) votes0.

(** A table built from aligned ballots: constructed, and with as many
    names as [N_candidates] says. *)
Definition good (t : VoteTable) : Prop :=
  table_inv t ∧ length (names t) = N_candidates t.

(** Ballot [b] of table [t] holds [v] in the slot of the candidate named
    [x]. *)
Definition entry (t : VoteTable) (b : nat) (x : string) (v : option Z)
    : Prop :=
  ∃ j ballot, names t !! j = Some x ∧ votes t !! b = Some ballot
              ∧ ballot !! j = Some v.

(** What holds of the table the [while True] loop is left with. *)
Definition round_end_ok (t : VoteTable) (e : round_end) : Prop :=
  match e with
  | Winner w => compute_winner t = Ok (Some w)
  | Ineligible u =>
      compute_winner t = Ok None ∧ N_candidates t = 1%nat ∧ names t = [u]
  end.

(** A ballot whose ranks are [1 .. k], each once. *)
Definition normalized (l : list (option Z)) : Prop :=
  ranks_of l ≡ₚ Z.of_nat <$> seq 1 (length (ranks_of l)).

(** A column whose ranks are all among [1 .. N]. *)
Definition in_range (N : nat) (col : list (option Z)) : Prop :=
  Forall (λ v, ∀ r, v = Some r → 1 ≤ r ≤ Z.of_nat N) col.

(** The tie test as the specification words it for the engine: the two
    weakest candidates (the first two of the table) have the same count
    vector, not all zeros. *)
Definition spec_weakest_tied (t : VoteTable) : bool :=
  match counts t with
  | c0 :: c1 :: _ => bool_decide (c0 = c1) && (0 <? Py.sum c0)
  | _ => false
  end.

(** The order the specification words for the table: by count vector,
    candidates with the same count vector by name. *)
Definition spec_key_le (a b : key) : Prop :=
  lexico a.1.1 b.1.1 ∨ (a.1.1 = b.1.1 ∧ String.le a.2 b.2).

(** A table the constructor returned on aligned ballots. *)
Definition built (t : VoteTable) : Prop :=
  ∃ votes0 names0, aligned votes0 names0 ∧ VoteTable_init votes0 names0 = Ok t.

(** Some ballot leaves a candidate unranked. *)
Definition abstaining (vs : list (list (option Z))) : Prop :=
  ∃ b, b ∈ vs ∧ None ∈ b.

#[global] Instance abstaining_dec vs : Decision (abstaining vs).
Proof.
  refine (cast_if (decide (Exists (λ b, None ∈ b) vs)));
    unfold abstaining; by rewrite <-Exists_exists.
Defined.

(** Ascending order of the pairs [(cell, slot)]. *)
Definition cell_le {V} `{Lexico V} (a b : V * nat) : Prop :=
  a = b ∨ lexico a b.

(** A number that names one of the places [1 .. 10]. *)
Definition is_place (v : Z) : bool := (0 <? v) && (v <? 11).

(** The cells of a ballot that hold a place, the others blanked. *)
Definition places_only (ballot : list string) (vals : list Z)
    : list (option string) :=
  zip_with (λ cell v, if is_place v then Some cell else None) ballot vals.

(** The places among the numbers of a ballot, in cell order. *)
Definition places (vals : list Z) : list Z :=
  filter (λ v, is_place v = true) vals.

(** A ballot of cells of the width of the position, with a ranked
    cell. *)
Definition ballot_of (p : position) (b : list (option string)) : Prop :=
  length b = length (p_names p) ∧ ∃ cell, Some cell ∈ b.

(** What holds of every position while the rows are read: its
    candidates are its slice of the header, and its ballots are ballots
    of the position. *)
Definition reading (FIRST_CANDIDATE_COL : Z) (header : list string)
    (p : position) : Prop :=
  p_names p = Py.slice (Py.slice_from header FIRST_CANDIDATE_COL)
                       (p_start p) (p_end p)
  ∧ Forall (ballot_of p) (p_ballots p).

(** ** Concrete contests *)

Module Examples.
Local Open Scope string_scope.

Definition ABC : list string := ["A"; "B"; "C"].

(** Five full ballots; A has three first places. *)
Definition majority_ballots : list (list (option Z)) :=
  [[Some 1; Some 2; Some 3]; [Some 1; Some 3; Some 2];
   [Some 1; Some 2; Some 3]; [Some 2; Some 1; Some 3];
   [Some 3; Some 2; Some 1]].

(** Four full ballots; A and B have the same count vector, C is the
    strongest without a majority. *)
Definition weak_tie_ballots : list (list (option Z)) :=
  [[Some 1; Some 2; Some 3]; [Some 2; Some 1; Some 3];
   [Some 2; Some 3; Some 1]; [Some 3; Some 2; Some 1]].

(** Two ballots over A and B with the same count vector for both. *)
Definition mirror_ballots : list (list (option Z)) :=
  [[Some 2; Some 1]; [Some 1; Some 2]].

(** Two ballots, each ranking one candidate only. *)
Definition bullet_ballots : list (list (option Z)) :=
  [[Some 1; None]; [None; Some 1]].

(** Three full ballots: A is below B with C in the table, above B
    without. *)
Definition flip_ballots : list (list (option Z)) :=
  [[Some 2; Some 3; Some 1]; [Some 2; Some 3; Some 1];
   [Some 3; Some 1; Some 2]].

(** Two ballots whose table is built, but not the table without C. *)
Definition partial_ballots : list (list (option Z)) :=
  [[Some 1; None; Some 2]; [None; Some 2; Some 1]].

(** Seven ballots: no majority at first, B is eliminated, then A wins. *)
Definition runoff_ballots : list (list (option Z)) :=
  [[Some 1; Some 2; Some 3]; [Some 1; Some 2; Some 3];
   [Some 1; Some 3; Some 2]; [Some 2; Some 1; Some 3];
   [Some 3; Some 1; Some 2]; [Some 3; Some 2; Some 1];
   [Some 2; Some 3; Some 1]].

(** An operator who types the same line at every prompt. *)
Definition typing (line : string) : string → string := λ _, line.

Definition table_of (r : res VoteTable) : VoteTable :=
  match r with
  | Ok t => t
  | Raise _ => mkVoteTable [] [] [] 0 0
  end.

Definition majority_table : VoteTable :=
  Eval vm_compute in table_of (VoteTable_init majority_ballots ABC).
Definition weak_tie_table : VoteTable :=
  Eval vm_compute in table_of (VoteTable_init weak_tie_ballots ABC).
Definition mirror_table : VoteTable :=
  Eval vm_compute in table_of (VoteTable_init mirror_ballots ["A"; "B"]).
Definition flip_table : VoteTable :=
  Eval vm_compute in table_of (VoteTable_init flip_ballots ABC).
Definition partial_table : VoteTable :=
  Eval vm_compute in table_of (VoteTable_init partial_ballots ABC).
Definition runoff_table : VoteTable :=
  Eval vm_compute in table_of (VoteTable_init runoff_ballots ABC).

(** [flip_table] without its candidate at index 2 (C). *)
Definition flip_table_without_C : VoteTable :=
  Eval vm_compute in
    table_of (VoteTable_init (eliminated_votes flip_table 2)
                             (eliminated_names flip_table 2)).

(** Three ballots over A and B, none ranking B. *)
Definition unranked_ballots : list (list (option Z)) :=
  [[Some 1; None]; [Some 1; None]; [None; None]].
Definition unranked_table : VoteTable :=
  Eval vm_compute in
    table_of (VoteTable_init unranked_ballots ["A"; "B"]).

(** [int] on the strings of decimal digits. *)
Definition decimal (s : string) : res Z :=
  match NilZero.uint_of_string s with
  | Some u => Ok (Z.of_uint u)
  | None => Raise ValueError
  end.

(** A vote file for two positions, of three and of two candidates. *)
Definition vote_file : list (list string) :=
  [["Timestamp"; "A"; "B"; "C"; "D"; "E"];
   ["t1"; "1"; "2"; "3"; "1"; "2"];
   ["t2"; "2"; "1"; "0"; "0"; "0"];
   ["t3"; "1"; "1"; "2"; "2"; "1"]].

(** What [read_votes] makes of [vote_file]. *)
Definition president : position :=
  mkPosition "President" 0 (Some 3) ["A"; "B"; "C"]
    [[Some "1"; Some "2"; Some "3"]; [Some "2"; Some "1"; None]] None.
Definition treasurer : position :=
  mkPosition "Treasurer" 3 None ["D"; "E"]
    [[Some "1"; Some "2"]; [Some "2"; Some "1"]] None.

(** A position with six ballots that each rank one candidate. *)
Definition bullets : position :=
  mkPosition "President" 0 None ["A"; "B"; "C"]
    [[None; None; Some "1"]; [None; None; Some "1"];
     [None; None; Some "1"]; [Some "1"; None; None];
     [Some "1"; None; None]; [None; Some "1"; None]] None.
Definition bullets_tabulated : position :=
  mkPosition "President" 0 None ["A"; "B"; "C"] (p_ballots bullets)
    (Some (mkResults [] ["C"; "A"; "B"])).
End Examples.

(** * Properties *)

(** ** The result monad *)

Lemma res_bind_Ok {A B} (m : res A) (k : A → res B) (b : B) :
  res_bind m k = Ok b ↔ ∃ a, m = Ok a ∧ k a = Ok b.
Proof.
  destruct m; simpl; split; try (intros (? & ? & ?)); try discriminate; eauto.
  by simplify_eq.
Qed.

Ltac res_inv :=
  repeat match goal with
  | H : res_bind _ _ = Ok _ |- _ =>
      apply res_bind_Ok in H; destruct H as (? & ? & H)
  | H : Ok _ = Ok _ |- _ => injection H as H; try subst
  | H : Raise _ = Ok _ |- _ => discriminate H
  end.

Lemma res_mapM_Ok {A B} (f : A → res B) (l : list A) (k : list B) :
  res_mapM f l = Ok k ↔ Forall2 (λ x y, f x = Ok y) l k.
Proof.
  revert k. induction l as [|x l IH]; intros k; simpl.
  - split; [intros; res_inv; constructor | by inversion 1].
  - split.
    + intros H. res_inv. constructor; [done|]. by apply IH.
    + inversion 1 as [|? y ? k' Hx Hl]; subst. rewrite Hx; simpl.
      apply IH in Hl. by rewrite Hl.
Qed.

Lemma res_mapM_length {A B} (f : A → res B) (l : list A) (k : list B) :
  res_mapM f l = Ok k → length k = length l.
Proof. rewrite res_mapM_Ok. intros H. symmetry. by eapply Forall2_length. Qed.

Lemma res_foldM_app {A B} (f : B → A → res B) (acc : B) (l1 l2 : list A) :
  res_foldM f acc (l1 ++ l2) = acc' ←ᵣ res_foldM f acc l1; res_foldM f acc' l2.
Proof.
  revert acc. induction l1 as [|x l1 IH]; intros acc; simpl; [done|].
  destruct (f acc x); simpl; auto.
Qed.

(** ** Python's [sorted] *)

Section sorted.
Context {A : Type} (lt : A → A → res bool).

Lemma insort_Permutation a l r : Py.insort lt a l = Ok r → r ≡ₚ a :: l.
Proof.
  revert r. induction l as [|b l IH]; intros r H; simpl in H.
  - by res_inv.
  - apply res_bind_Ok in H as ([] & Hc & H).
    + apply res_bind_Ok in H as (r' & Hr' & H). res_inv.
      rewrite (IH _ Hr'). apply Permutation_swap.
    + by res_inv.
Qed.

Lemma sorted_Permutation l r : Py.sorted lt l = Ok r → r ≡ₚ l.
Proof.
  revert r. induction l as [|a l IH]; intros r H; simpl in H.
  - by res_inv.
  - apply res_bind_Ok in H as (s & Hs & H).
    rewrite (insort_Permutation _ _ _ H). by rewrite (IH _ Hs).
Qed.

Lemma sorted_length l r : Py.sorted lt l = Ok r → length r = length l.
Proof. intros H. by rewrite (sorted_Permutation _ _ H). Qed.

(** Whenever every pair of the list can be compared, sorting returns. *)
Lemma insort_total a l :
  Forall (λ b, ∃ c, lt b a = Ok c) l → ∃ r, Py.insort lt a l = Ok r.
Proof.
  induction 1 as [|b l [c Hc] _ [r IH]]; simpl; [eauto|].
  rewrite Hc; simpl. destruct c; [|eauto]. rewrite IH; simpl; eauto.
Qed.

Lemma sorted_total l :
  (∀ a b, a ∈ l → b ∈ l → ∃ c, lt a b = Ok c) →
  ∃ r, Py.sorted lt l = Ok r.
Proof.
  induction l as [|a l IH]; intros Hcmp; simpl; [eauto|].
  destruct IH as [s Hs].
  { intros ????. apply Hcmp; by right. }
  rewrite Hs; simpl. apply insort_total.
  apply Forall_forall. intros b Hb. apply Hcmp; [right|left].
  by rewrite <-(sorted_Permutation _ _ Hs).
Qed.

(** The result is ascending for any relation [le] the outcomes of [lt]
    agree with. *)
Context (le : relation A).
Hypothesis lt_true : ∀ a b, lt a b = Ok true → le a b.
Hypothesis lt_false : ∀ a b, lt a b = Ok false → le b a.

Lemma insort_HdRel x a l r :
  le x a → HdRel le x l → Py.insort lt a l = Ok r → HdRel le x r.
Proof.
  intros Hxa Hxl H. destruct l as [|b l]; simpl in H.
  - res_inv. by constructor.
  - apply res_bind_Ok in H as ([] & Hc & H).
    + apply res_bind_Ok in H as (r' & Hr' & H). res_inv.
      constructor. by inversion Hxl.
    + res_inv. by constructor.
Qed.

Lemma insort_Sorted a l r :
  Sorted le l → Py.insort lt a l = Ok r → Sorted le r.
Proof.
  revert r. induction l as [|b l IH]; intros r Hl H; simpl in H.
  - res_inv. by repeat constructor.
  - apply res_bind_Ok in H as ([] & Hc & H).
    + apply res_bind_Ok in H as (r' & Hr' & H). res_inv.
      inversion Hl; subst. constructor; [by eapply IH|].
      eapply insort_HdRel; eauto.
    + res_inv. constructor; [done|]. constructor. by apply lt_false.
Qed.

Lemma sorted_Sorted l r : Py.sorted lt l = Ok r → Sorted le r.
Proof.
  revert r. induction l as [|a l IH]; intros r H; simpl in H.
  - res_inv. constructor.
  - apply res_bind_Ok in H as (s & Hs & H).
    eapply insort_Sorted; [|apply H]. by apply IH.
Qed.

End sorted.

(** ** get_rank_order *)

Global Instance pair_le_trans : Transitive pair_le.
Proof.
  intros a b c [->|Hab] [->|Hbc]; unfold pair_le; auto.
  right. by trans b.
Qed.

Lemma rank_pair_lt_total a b : ∃ c, rank_pair_lt a b = Ok c.
Proof. unfold rank_pair_lt, Py.int_lt. repeat case_decide; eauto. Qed.

Lemma rank_pair_lt_true a b : rank_pair_lt a b = Ok true → pair_le a b.
Proof.
  destruct a as [v i], b as [w j]. unfold rank_pair_lt, Py.int_lt; simpl.
  intros H. right. unfold lexico, prod_lexico; simpl.
  repeat case_decide; simplify_eq.
  - right. split; [done|]. by apply Nat.ltb_lt.
  - left. by apply Z.ltb_lt.
Qed.

Lemma rank_pair_lt_false a b : rank_pair_lt a b = Ok false → pair_le b a.
Proof.
  destruct a as [v i], b as [w j]. unfold rank_pair_lt, Py.int_lt; simpl.
  intros H. unfold pair_le, lexico, prod_lexico; simpl.
  repeat case_decide; simplify_eq; auto.
  - right. right. split; [done|]. apply Nat.ltb_ge in H.
    unfold lexico, nat_lexico. lia.
  - right. left. apply Z.ltb_ge in H. unfold lexico, Z_lexico. lia.
Qed.

Lemma pair_le_fst a b : pair_le a b → a.1 ≤ b.1.
Proof.
  intros [->|[H|[H _]]]; [lia| |rewrite H; lia].
  unfold lexico, Z_lexico in H. lia.
Qed.

Lemma StronglySorted_lookup {A} (R : relation A) l i j x y :
  StronglySorted R l → l !! i = Some x → l !! j = Some y → (i < j)%nat → R x y.
Proof.
  intros Hl. revert i j. induction Hl as [|a l Hl IH Ha]; intros i j Hi Hj Hij.
  - by rewrite lookup_nil in Hi.
  - destruct j as [|j]; [lia|]. simpl in Hj. destruct i as [|i]; simpl in Hi.
    + simplify_eq. eapply Forall_forall; [done|]. by eapply list_elem_of_lookup_2.
    + eapply IH; eauto. lia.
Qed.

(** The pairs sorted by [get_rank_order], with [enumerate] started at
    [off]. *)
Lemma ranked_slots_from off (l : list (option Z)) :
  let r := omap slot_of (imap (λ i v, ((off + i)%nat, v)) l) in
  (∀ v i, (v, i) ∈ r ↔ ∃ j, i = (off + j)%nat ∧ l !! j = Some (Some v))
  ∧ NoDup r.*2 ∧ length r = length (ranks_of l).
Proof.
  revert off. induction l as [|o l IH]; intros off; simpl.
  - split_and!; [|constructor|done].
    intros v i. rewrite elem_of_nil. split; [done|]. by intros (j & _ & ?).
  - specialize (IH (S off)).
    assert (imap ((λ i v, ((off + i)%nat, v)) ∘ S) l
            = imap (λ i v, ((S off + i)%nat, v)) l) as ->.
    { apply imap_ext. intros; simpl. f_equal. lia. }
    destruct IH as (IH1 & IH2 & IH3). unfold slot_of at 1; simpl.
    assert (∀ v i, (∃ j, i = (off + j)%nat ∧ (o :: l) !! j = Some (Some v))
              ↔ (i = off ∧ o = Some v)
                ∨ ∃ j, i = (S off + j)%nat ∧ l !! j = Some (Some v)) as Hsplit.
    { intros v i. split.
      - intros ([|j] & -> & Hj); simpl in Hj.
        + left. split; [lia|congruence].
        + right. exists j. split; [lia|done].
      - intros [[-> ->]|(j & -> & Hj)].
        + exists 0%nat. split; [lia|done].
        + exists (S j). split; [lia|done]. }
    destruct o as [w|]; simpl.
    + split_and!.
      * intros v i. rewrite Hsplit, elem_of_cons, IH1.
        replace (off + 0)%nat with off by lia. naive_solver.
      * constructor; [|done]. rewrite list_elem_of_fmap.
        intros ([v i] & Hi & Hin). simpl in Hi. subst i.
        apply IH1 in Hin as (j & ? & _). lia.
      * unfold ranks_of in *. simpl. f_equal. exact IH3.
    + split_and!; [|done|done].
      intros v i. rewrite Hsplit, IH1. naive_solver.
Qed.

Lemma ranked_slots_spec (l : list (option Z)) :
  (∀ v i, (v, i) ∈ ranked_slots l ↔ l !! i = Some (Some v))
  ∧ NoDup (ranked_slots l).*2
  ∧ length (ranked_slots l) = length (ranks_of l).
Proof.
  destruct (ranked_slots_from 0 l) as (H1 & H2 & H3).
  split_and!; [|done|done].
  intros v i. etrans; [apply H1|]. naive_solver.
Qed.

(** The assignment loop of [get_rank_order]: slot [indices[rank]] gets
    [rank + 1]; no assignment is out of range. *)
Lemma ranks_of_insert out j x :
  out !! j = Some None → ranks_of (<[j := Some x]> out) ≡ₚ x :: ranks_of out.
Proof.
  intros Hj. unfold ranks_of.
  rewrite <-(take_drop_middle out j None) at 2 by done.
  rewrite insert_take_drop by (by eapply lookup_lt_Some).
  rewrite !omap_app. simpl. by rewrite Permutation_middle.
Qed.

Lemma assign_ranks n (indices : list nat) :
  NoDup indices → Forall (λ j, j < n)%nat indices →
  ∃ out, res_foldM assign_rank (replicate n None) (Py.enumerate indices) = Ok out
    ∧ length out = n
    ∧ (∀ r j, indices !! r = Some j → out !! j = Some (Some (Z.of_nat r + 1)))
    ∧ (∀ j, (j < n)%nat → j ∉ indices → out !! j = Some None)
    ∧ ranks_of out ≡ₚ (λ r, Z.of_nat r + 1) <$> seq 0 (length indices).
Proof.
  induction indices as [|j indices IH] using rev_ind; intros Hnd Hlt.
  - exists (replicate n None). simpl. split_and!; try done.
    + by rewrite length_replicate.
    + intros j ? _. by apply lookup_replicate_2.
    + unfold ranks_of. clear. induction n; simpl; auto.
  - apply NoDup_app in Hnd as (Hnd & Hj & _).
    rewrite Forall_app, Forall_singleton in Hlt. destruct Hlt as [Hlt Hjn].
    destruct (IH Hnd Hlt) as (out & Hout & Hlen & Hset & Hunset & Hperm).
    assert (j ∉ indices) as Hjni.
    { intros ?. eapply Hj; [done|]. by apply list_elem_of_singleton. }
    exists (<[j := Some (Z.of_nat (length indices) + 1)]> out).
    unfold Py.enumerate in *. rewrite imap_app, res_foldM_app, Hout. simpl.
    unfold assign_rank at 1, Py.setitem. simpl.
    rewrite decide_True by lia. replace (length indices + 0)%nat
      with (length indices) by lia.
    split_and!; [done| | | |].
    + by rewrite length_insert.
    + intros r i Hr. apply lookup_app_Some in Hr as [Hr|[Hlen' Hr]].
      * rewrite list_lookup_insert_ne; [by apply Hset|].
        intros ->. apply Hjni. by eapply list_elem_of_lookup_2.
      * apply list_lookup_singleton_Some in Hr as [Hr ->].
        rewrite list_lookup_insert_eq by lia. repeat f_equal. lia.
    + intros i Hi Hni. rewrite list_lookup_insert_ne.
      * apply Hunset; [done|]. intros ?. apply Hni, elem_of_app. by left.
      * intros ->. apply Hni, elem_of_app. right. by apply list_elem_of_singleton.
    + rewrite ranks_of_insert by (by apply Hunset).
      rewrite length_app, seq_app, fmap_app, Hperm. simpl.
      by rewrite Permutation_app_comm.
Qed.

(** What [get_rank_order] returns, through the sorted pairs [s]. *)
Lemma get_rank_order_sorted (l : list (option Z)) :
  ∃ s out,
    get_rank_order l = Ok out
    ∧ s ≡ₚ ranked_slots l ∧ StronglySorted pair_le s
    ∧ length out = length l
    ∧ (∀ r v j, s !! r = Some (v, j) → out !! j = Some (Some (Z.of_nat r + 1)))
    ∧ (∀ j, l !! j = Some None → out !! j = Some None)
    ∧ ranks_of out ≡ₚ (λ r, Z.of_nat r + 1) <$> seq 0 (length (ranks_of l)).
Proof.
  destruct (ranked_slots_spec l) as (Hin & Hnd & Hlen).
  destruct (sorted_total rank_pair_lt (ranked_slots l)) as [s Hs].
  { intros; apply rank_pair_lt_total. }
  pose proof (sorted_Permutation _ _ _ Hs) as Hperm.
  assert (StronglySorted pair_le s) as Hsorted.
  { apply Sorted_StronglySorted; [apply _|].
    eapply sorted_Sorted; [| |exact Hs];
      auto using rank_pair_lt_true, rank_pair_lt_false. }
  destruct (assign_ranks (length l) s.*2) as (out & Hout & Hl & Hset & Hunset & Hr).
  { by rewrite Hperm. }
  { apply Forall_forall. intros j Hj.
    apply list_elem_of_fmap in Hj as ([v j'] & -> & Hj). simpl.
    rewrite Hperm in Hj. apply Hin in Hj. by eapply lookup_lt_Some. }
  exists s, out. unfold get_rank_order. rewrite Hs. simpl.
  split_and!; try done.
  - intros r v j Hsr. apply Hset. by rewrite list_lookup_fmap, Hsr.
  - intros j Hj. apply Hunset; [by eapply lookup_lt_Some|].
    intros Hjs. apply list_elem_of_fmap in Hjs as ([v j'] & -> & Hjs).
    rewrite Hperm in Hjs. apply Hin in Hjs. simpl in *. congruence.
  - by rewrite Hr, length_fmap, Hperm, Hlen.
Qed.

(** The rank each ranked slot gets: its position among the sorted
    pairs. *)
Lemma get_rank_order_position (l : list (option Z)) :
  ∃ s out,
    get_rank_order l = Ok out ∧ StronglySorted pair_le s
    ∧ ∀ i a, l !! i = Some (Some a) →
        ∃ r, s !! r = Some (a, i) ∧ out !! i = Some (Some (Z.of_nat r + 1)).
Proof.
  destruct (get_rank_order_sorted l)
    as (s & out & Hout & Hperm & Hsorted & Hlen & Hset & Hunset & Hranks).
  destruct (ranked_slots_spec l) as (Hin & _ & _).
  exists s, out. split_and!; [done..|].
  intros i a Hi. apply Hin in Hi. rewrite <-Hperm in Hi.
  apply list_elem_of_lookup in Hi as [r Hr]. eauto.
Qed.

Lemma get_rank_order_total (l : list (option Z)) :
  ∃ out, get_rank_order l = Ok out.
Proof. destruct (get_rank_order_sorted l) as (_ & out & ? & _). eauto. Qed.

Lemma get_rank_order_length l out :
  get_rank_order l = Ok out → length out = length l.
Proof.
  intros H. destruct (get_rank_order_sorted l) as (_ & out' & H' & _ & _ & ? & _).
  congruence.
Qed.

Lemma get_rank_order_ranks l out :
  get_rank_order l = Ok out →
  ranks_of out ≡ₚ Z.of_nat <$> seq 1 (length (ranks_of l)).
Proof.
  intros H. destruct (get_rank_order_sorted l)
    as (_ & out' & H' & _ & _ & _ & _ & _ & Hranks).
  assert (out' = out) as -> by congruence.
  rewrite Hranks. rewrite <-fmap_S_seq, <-list_fmap_compose.
  assert (∀ l', (λ r, Z.of_nat r + 1) <$> l' = (Z.of_nat ∘ S) <$> l') as ->;
    [|done].
  intros l'. apply list_fmap_ext. intros; simpl; lia.
Qed.

Lemma get_rank_order_abstains l out i :
  get_rank_order l = Ok out → l !! i = Some None ↔ out !! i = Some None.
Proof.
  intros H. destruct (get_rank_order_sorted l)
    as (_ & out' & H' & _ & _ & Hlen & _ & Hunset & _).
  assert (out' = out) as -> by congruence.
  split; [apply Hunset|]. intros Hi.
  assert (i < length l)%nat as Hlt.
  { rewrite <-Hlen. by eapply lookup_lt_Some. }
  apply lookup_lt_is_Some in Hlt as [[a|] Ha]; [|done].
  destruct (get_rank_order_position l) as (s & out' & H'' & _ & Hpos).
  destruct (Hpos _ _ Ha) as (r & _ & Hr). congruence.
Qed.

Lemma get_rank_order_monotone l out i j a b :
  get_rank_order l = Ok out →
  l !! i = Some (Some a) → l !! j = Some (Some b) → a < b →
  ∃ a' b', out !! i = Some (Some a') ∧ out !! j = Some (Some b') ∧ a' < b'.
Proof.
  intros H Hi Hj Hab.
  destruct (get_rank_order_position l) as (s & out' & H' & Hsorted & Hpos).
  assert (out' = out) as -> by congruence.
  destruct (Hpos _ _ Hi) as (ri & Hri & Hoi).
  destruct (Hpos _ _ Hj) as (rj & Hrj & Hoj).
  eexists _, _. split_and!; [done..|].
  destruct (decide (ri < rj)%nat); [lia|].
  destruct (decide (ri = rj)) as [->|]; [simplify_eq; lia|].
  pose proof (StronglySorted_lookup _ _ rj ri _ _ Hsorted Hrj Hri) as Hle.
  apply pair_le_fst in Hle; [simpl in Hle; lia|lia].
Qed.

(** C6. For every ballot, [get_rank_order] returns a ballot of the same
    length in which the non-abstaining slots hold exactly the ranks
    [1 .. k], [k] being the number of non-abstaining entries of the input;
    a slot is an abstention after exactly when it was one before; and two
    slots whose original ranks were in strict order get ranks in the same
    strict order. *)
Theorem get_rank_order_normalizes (l : list (option Z)) :
  ∃ out,
    get_rank_order l = Ok out
    ∧ length out = length l
    ∧ ranks_of out ≡ₚ Z.of_nat <$> seq 1 (length (ranks_of l))
    ∧ (∀ i, l !! i = Some None ↔ out !! i = Some None)
    ∧ (∀ i j a b, l !! i = Some (Some a) → l !! j = Some (Some b) → a < b →
         ∃ a' b', out !! i = Some (Some a') ∧ out !! j = Some (Some b')
                  ∧ a' < b').
Proof.
  destruct (get_rank_order_total l) as [out Hout].
  exists out. split_and!.
  - done.
  - by apply get_rank_order_length.
  - by apply get_rank_order_ranks.
  - intros i. by apply get_rank_order_abstains.
  - intros i j a b. by apply get_rank_order_monotone.
Qed.

(** ** p3zip: transposition *)

Section p3zip.
Context {A : Type}.
Implicit Types (m : list (list A)) (row col : list A).

Lemma p3zip_cons2 row row' m :
  p3zip (row :: row' :: m) = zip_with cons row (p3zip (row' :: m)).
Proof. done. Qed.

(** Every column has one entry per row. *)
Lemma p3zip_col_length m : Forall (λ col, length col = length m) (p3zip m).
Proof.
  induction m as [|row [|row' m] IH].
  - constructor.
  - simpl. apply Forall_fmap, Forall_forall. by intros.
  - rewrite p3zip_cons2. apply Forall_forall. intros col Hcol.
    apply elem_of_zip_with in Hcol as (x & col' & -> & _ & Hcol').
    rewrite Forall_forall in IH. simpl in *. f_equal. by apply IH.
Qed.

(** The number of columns of an aligned table. *)
Lemma p3zip_length m c :
  m ≠ [] → Forall (λ row, length row = c) m → length (p3zip m) = c.
Proof.
  induction m as [|row [|row' m] IH]; intros Hne Hm; [done| |].
  - simpl. rewrite length_fmap. by inversion Hm.
  - rewrite p3zip_cons2, length_zip_with.
    inversion Hm; subst. rewrite IH by done. lia.
Qed.

(** Entry [i] of column [j] is entry [j] of row [i]. *)
Lemma p3zip_lookup m c i j :
  Forall (λ row, length row = c) m →
  p3zip m !! j ≫= (.!! i) = m !! i ≫= (.!! j).
Proof.
  revert i. induction m as [|row [|row' m] IH]; intros i Hm.
  - done.
  - simpl. rewrite list_lookup_fmap.
    destruct (row !! j) as [x|] eqn:Hx; simpl.
    + destruct i; simpl; [by rewrite Hx|done].
    + destruct i; simpl; [by rewrite Hx|done].
  - rewrite p3zip_cons2, lookup_zip_with.
    inversion Hm as [|?? Hrow Hm']; subst.
    specialize (IH (pred i) Hm').
    pose proof (p3zip_length (row' :: m) (length row)) as Hlen.
    set (T := p3zip (row' :: m)) in *. set (m' := row' :: m) in *.
    destruct (row !! j) as [x|] eqn:Hx; simpl.
    + assert (j < length T)%nat as Hj.
      { rewrite Hlen by done. by eapply lookup_lt_Some. }
      apply lookup_lt_is_Some in Hj as [col Hcol].
      rewrite Hcol in *. simpl in *.
      destruct i; simpl in *; [by rewrite Hx|done].
    + destruct i as [|i]; simpl; [by rewrite Hx|].
      apply lookup_ge_None in Hx.
      destruct (m' !! i) as [r|] eqn:Hr; simpl; [|done].
      symmetry. apply lookup_ge_None.
      rewrite Forall_forall in Hm'.
      rewrite (Hm' r) by (by eapply list_elem_of_lookup_2). done.
Qed.

(** Transposing an aligned table twice gives the table back. *)
Lemma p3zip_involutive m c :
  m ≠ [] → (1 ≤ c)%nat → Forall (λ row, length row = c) m →
  p3zip (p3zip m) = m.
Proof.
  intros Hne Hc Hm.
  pose proof (p3zip_col_length m) as Hcols.
  pose proof (p3zip_length m c Hne Hm) as Hlen.
  assert (p3zip m ≠ []) as Hne' by (destruct (p3zip m); simpl in *; [lia|done]).
  pose proof (p3zip_length _ _ Hne' Hcols) as Hlen'.
  pose proof (p3zip_col_length (p3zip m)) as Hrows. rewrite Hlen in Hrows.
  apply list_eq_same_length with (length m); [done..|].
  intros i row row' Hi Hrow Hrow'.
  rewrite Forall_forall in Hrows, Hm.
  apply list_eq_same_length with c;
    [apply Hm; by eapply list_elem_of_lookup_2
    |apply Hrows; by eapply list_elem_of_lookup_2|].
  intros j x y Hj Hx Hy.
  pose proof (p3zip_lookup (p3zip m) (length m) j i Hcols) as H1.
  pose proof (p3zip_lookup m c i j (proj2 (Forall_forall _ _) Hm)) as H2.
  rewrite Hrow in H1. rewrite Hrow' in H2. simpl in *. congruence.
Qed.

End p3zip.

(** ** The order of the sort keys *)

Global Instance vote_lexico_po : StrictOrder (@lexico (option Z) _).
Proof.
  unfold lexico, vote_lexico. split.
  - intros [x|] H; simpl in H; [lia|done].
  - intros [x|] [y|] [z|]; simpl; try done. lia.
Qed.

Lemma string_ltb_spec (a b : string) :
  String.ltb a b = true ↔ String.le a b ∧ a ≠ b.
Proof.
  unfold String.ltb, String.le, String.leb.
  destruct (String.compare a b) eqn:Hc.
  - apply String.compare_eq_iff in Hc. split; [done|]. by intros [_ ?].
  - split; [|done]. intros _. split; [done|]. intros ->.
    pose proof (String.compare_antisym b b) as Ha. by rewrite Hc in Ha.
  - split; [done|]. by intros [? _].
Qed.

Global Instance string_lexico_po : StrictOrder (@lexico string _).
Proof.
  unfold lexico, string_lexico. split.
  - intros a Ha. apply string_ltb_spec in Ha as [_ ?]. done.
  - intros a b c Hab Hbc. apply string_ltb_spec in Hab as [Hab Hne].
    apply string_ltb_spec in Hbc as [Hbc Hne']. apply string_ltb_spec.
    split; [by trans b|]. intros ->.
    apply Hne. by apply (anti_symm String.le).
Qed.

Global Instance key_le_trans : Transitive key_le.
Proof.
  intros a b c [->|Hab] [->|Hbc]; unfold key_le; auto.
  right. by trans b.
Qed.

Global Instance key_le_anti_symm : AntiSymm (=) key_le.
Proof.
  intros a b [->|Hab] [Heq|Hba]; auto.
  destruct (irreflexivity lexico a). by trans b.
Qed.

Section list_lt.
Context {A : Type} `{EqDecision A, Lexico A, !StrictOrder (@lexico A _)}.
Context (elt_lt : A → A → res bool).
Hypothesis elt_lt_true : ∀ x y, elt_lt x y = Ok true → lexico x y.
Hypothesis elt_lt_false : ∀ x y, x ≠ y → elt_lt x y = Ok false → lexico y x.

Lemma list_lt_true v w : Py.list_lt elt_lt v w = Ok true → lexico v w.
Proof.
  revert w. induction v as [|x v IH]; intros [|y w] Hlt; simpl in Hlt;
    try done.
  unfold lexico; simpl. unfold lexico, prod_lexico; simpl.
  case_decide; [right|left]; auto.
Qed.

Lemma list_lt_false v w :
  Py.list_lt elt_lt v w = Ok false → v = w ∨ lexico w v.
Proof.
  revert w. induction v as [|x v IH]; intros [|y w] Hlt; simpl in Hlt;
    try done; auto.
  - by right.
  - case_decide as Hxy.
    + subst y. destruct (IH _ Hlt) as [->|Hwv]; [by left|].
      right. unfold lexico; simpl. by right.
    + right. unfold lexico; simpl. left. by apply elt_lt_false.
Qed.
End list_lt.

Lemma int_lt_true x y : Py.int_lt x y = Ok true → lexico x y.
Proof. unfold Py.int_lt. intros [= H]. by apply Z.ltb_lt in H. Qed.

Lemma int_lt_false x y : x ≠ y → Py.int_lt x y = Ok false → lexico y x.
Proof.
  unfold Py.int_lt. intros ? [= H]. apply Z.ltb_ge in H.
  unfold lexico, Z_lexico. lia.
Qed.

Lemma vote_lt_true x y : Py.vote_lt x y = Ok true → lexico x y.
Proof.
  destruct x, y; simpl; try done. intros [= H]. by apply Z.ltb_lt in H.
Qed.

Lemma vote_lt_false x y : x ≠ y → Py.vote_lt x y = Ok false → lexico y x.
Proof.
  destruct x as [a|], y as [b|]; simpl; try done. intros ? [= H].
  apply Z.ltb_ge in H. unfold lexico, vote_lexico; simpl.
  assert (a ≠ b) by congruence. lia.
Qed.

Lemma str_lt_false (x y : string) :
  x ≠ y → Py.str_lt x y = Ok false → lexico y x.
Proof.
  unfold Py.str_lt, lexico, string_lexico. intros Hne [= H].
  apply string_ltb_spec. split; [|done].
  destruct (total String.le x y) as [Hle|]; [|done].
  assert (String.ltb x y = true); [|congruence].
  by apply string_ltb_spec.
Qed.

Lemma key_lt_true a b : key_lt a b = Ok true → key_le a b.
Proof.
  destruct a as [[c1 v1] n1], b as [[c2 v2] n2]. unfold key_lt.
  intros H. right. unfold lexico, prod_lexico; simpl.
  repeat case_decide; subst.
  - done.
  - right. split; [done|]. by injection H.
  - left. right. split; [done|].
    eapply list_lt_true; [|done]. apply vote_lt_true.
  - left. left. eapply list_lt_true; [|done]. apply int_lt_true.
Qed.

Lemma key_lt_false a b : key_lt a b = Ok false → key_le b a.
Proof.
  destruct a as [[c1 v1] n1], b as [[c2 v2] n2]. unfold key_lt.
  intros H. unfold key_le, lexico, prod_lexico; simpl.
  repeat case_decide; subst.
  - by left.
  - right. right. split; [done|]. by apply str_lt_false.
  - right. left. right. split; [done|].
    by destruct (list_lt_false _ vote_lt_false _ _ H).
  - right. left. left.
    by destruct (list_lt_false _ int_lt_false _ _ H).
Qed.

Lemma sorted_keys l s :
  Py.sorted key_lt l = Ok s → s ≡ₚ l ∧ StronglySorted key_le s.
Proof.
  intros Hs. split; [by eapply sorted_Permutation|].
  apply Sorted_StronglySorted; [apply _|].
  eapply sorted_Sorted; [| |exact Hs]; auto using key_lt_true, key_lt_false.
Qed.

(** ** Count vectors *)

Lemma tally_cons v col r :
  tally (v :: col) r = (if decide (v = Some r) then 1 else 0) + tally col r.
Proof.
  unfold tally. rewrite filter_cons. case_decide; simpl length; lia.
Qed.

Lemma tally_nonneg col r : 0 ≤ tally col r.
Proof. unfold tally. lia. Qed.

Lemma count_fold acc col cnt :
  res_foldM count_step acc col = Ok cnt →
  length cnt = length acc
  ∧ ∀ k, cnt !! k = (λ x, x + tally col (Z.of_nat k + 1)) <$> acc !! k.
Proof.
  revert acc. induction col as [|v col IH]; intros acc H; simpl in H.
  - injection H as <-. split; [done|]. intros k. unfold tally; simpl.
    destruct (acc !! k); simpl; [f_equal; lia|done].
  - apply res_bind_Ok in H as (acc' & Hstep & H).
    destruct (IH _ H) as [Hlen Hk]. destruct v as [v|]; simpl in Hstep.
    + unfold counter_incr in Hstep. case_decide as Hv; [|done].
      injection Hstep as <-. rewrite length_alter in Hlen. split; [done|]. intros k.
      rewrite Hk, tally_cons.
      destruct (decide (k = Z.to_nat (v - 1))) as [->|Hne].
      * rewrite list_lookup_alter_eq. rewrite decide_True by (f_equal; lia).
        destruct (acc !! _); simpl; [f_equal; lia|done].
      * rewrite list_lookup_alter_ne by done.
        rewrite decide_False by (intros [= ->]; lia).
        destruct (acc !! _); simpl; [f_equal; lia|done].
    + injection Hstep as <-. split; [done|]. intros k.
      rewrite Hk, tally_cons. rewrite decide_False by done. done.
Qed.

Lemma count_votes_Ok N col cnt :
  count_votes N col = Ok cnt → cnt = count_vector N col.
Proof.
  intros H. apply count_fold in H as [Hlen Hk].
  rewrite length_replicate in Hlen. unfold count_vector.
  apply list_eq_same_length with N; [by rewrite length_fmap, length_seq|done|].
  intros k x y Hlt Hx Hy. rewrite Hk, lookup_replicate_2 in Hx by done.
  rewrite list_lookup_fmap, lookup_seq_lt in Hy by done. simpl in *.
  simplify_eq. lia.
Qed.

Lemma count_vector_length N col : length (count_vector N col) = N.
Proof. unfold count_vector. by rewrite length_fmap, length_seq. Qed.

Lemma count_vector_nonneg N col : Forall (λ c, 0 ≤ c) (count_vector N col).
Proof.
  unfold count_vector. apply Forall_fmap, Forall_forall. intros; simpl.
  apply tally_nonneg.
Qed.

Lemma count_vector_first N col :
  (1 ≤ N)%nat → count_vector N col !! 0%nat = Some (tally col 1).
Proof.
  intros. unfold count_vector. rewrite list_lookup_fmap, lookup_seq_lt by lia.
  done.
Qed.

(** ** Construction of a table *)

Lemma zip3_unzip (s : list key) : zip3 s.*1.*1 s.*1.*2 s.*2 = s.
Proof.
  unfold zip3. induction s as [|[[c v] n] s IH]; [done|].
  simpl. f_equal. apply IH.
Qed.

Lemma zip3_lookup {A B C} (a : list A) (b : list B) (c : list C) i x y z :
  zip3 a b c !! i = Some (x, y, z)
  ↔ a !! i = Some x ∧ b !! i = Some y ∧ c !! i = Some z.
Proof.
  unfold zip3. rewrite lookup_zip_with_Some. split.
  - intros ([x' y'] & z' & [= <- <- <-] & Hxy & Hz).
    apply lookup_zip_with_Some in Hxy as (? & ? & [= <- <-] & ? & ?). done.
  - intros (Hx & Hy & Hz). exists (x, y), z. split_and!; [done| |done].
    apply lookup_zip_with_Some. eauto.
Qed.

(** What a successful construction has computed. *)
Lemma VoteTable_init_Ok votes0 names0 t :
  VoteTable_init votes0 names0 = Ok t →
  ∃ vs cnts s,
    Forall2 (λ b b', get_rank_order b = Ok b') votes0 vs
    ∧ Forall2 (λ (cv : string * list (option Z)) c,
                 count_votes (length names0) cv.2 = Ok c)
              (zip names0 (p3zip vs)) cnts
    ∧ Py.sorted key_lt (zip3 cnts (p3zip vs) names0) = Ok s
    ∧ s ≠ []
    ∧ t = {| votes := p3zip s.*1.*2; names := s.*2; counts := s.*1.*1;
             N_votes := length votes0; N_candidates := length names0 |}.
Proof.
  unfold VoteTable_init, maintain, reduce_ranks, update_counts,
    votes_by_candidate; simpl.
  intros H.
  apply res_bind_Ok in H as (self2 & H2 & H).
  apply res_bind_Ok in H2 as (vs & Hvs & H2). injection H2 as <-.
  simpl in H.
  apply res_bind_Ok in H as (cnts & Hcnts & H).
  apply res_bind_Ok in H as (s & Hs & H).
  exists vs, cnts, s. apply res_mapM_Ok in Hvs, Hcnts.
  destruct s; [done|]. injection H as <-. done.
Qed.


Lemma zip3_length_le {A B C} (a : list A) (b : list B) (c : list C) :
  (length (zip3 a b c) ≤ length c)%nat.
Proof. unfold zip3. rewrite length_zip_with. lia. Qed.

Lemma key_columns_length (s : list key) r :
  Forall (λ k : key, length k.1.2 = r) s →
  Forall (λ col, length col = r) s.*1.*2.
Proof.
  intros H. rewrite <-list_fmap_compose. apply Forall_fmap.
  by eapply Forall_impl.
Qed.

(** A successful construction establishes the table invariant; the
    candidates of the table are the sorted keys of the normalized input. *)
Lemma VoteTable_init_inv votes0 names0 t :
  VoteTable_init votes0 names0 = Ok t →
  table_inv t
  ∧ N_votes t = length votes0
  ∧ N_candidates t = length names0
  ∧ ∃ vs cnts,
      Forall2 (λ b b', get_rank_order b = Ok b') votes0 vs
      ∧ Forall2 (λ (cv : string * list (option Z)) c,
                   count_votes (length names0) cv.2 = Ok c)
                (zip names0 (p3zip vs)) cnts
      ∧ Py.sorted key_lt (zip3 cnts (p3zip vs) names0) = Ok (candidates t).
Proof.
  intros H.
  apply VoteTable_init_Ok in H as (vs & cnts & s & Hvs & Hcnts & Hs & Hne & ->).
  destruct (sorted_keys _ _ Hs) as [Hperm Hsorted].
  assert (Forall (λ k : key, k.1.1 = count_vector (length names0) k.1.2
                             ∧ length k.1.2 = length votes0) s) as Hkeys.
  { rewrite Hperm. apply Forall_forall. intros [[c col] n] Hin.
    apply list_elem_of_lookup in Hin as [i Hi].
    apply zip3_lookup in Hi as (Hc & Hcol & Hn). simpl. split.
    - apply count_votes_Ok.
      eapply (Forall2_lookup_lr _ _ _ i (n, col) c) in Hcnts; [done| |done].
      apply lookup_zip_with_Some. eauto.
    - pose proof (p3zip_col_length vs) as Hlen.
      rewrite Forall_forall in Hlen. rewrite (Hlen col).
      + symmetry. by eapply Forall2_length.
      + by eapply list_elem_of_lookup_2. }
  assert (1 ≤ length votes0)%nat as Hballots.
  { destruct s as [|k s]; [done|]. apply Forall_cons in Hkeys as [[_ Hk] _].
    apply Permutation_cons_inv_l in Hperm as (l1 & l2 & Hzip & _).
    destruct votes0 as [|b votes0]; [|simpl; lia].
    apply Forall2_nil_inv_l in Hvs as ->. simpl in Hzip.
    unfold zip3 in Hzip. rewrite zip_with_nil_r in Hzip. simpl in Hzip.
    by destruct l1. }
  assert (s.*1.*2 ≠ []) as Hne' by (by destruct s).
  assert (Forall (λ col, length col = length votes0) s.*1.*2) as Hcols.
  { apply key_columns_length. eapply Forall_impl; [done|]. by intros ? [_ ?]. }
  assert (candidates {| votes := p3zip s.*1.*2; names := s.*2;
                        counts := s.*1.*1; N_votes := length votes0;
                        N_candidates := length names0 |} = s) as Hcand.
  { unfold candidates, votes_by_candidate; simpl.
    rewrite (p3zip_involutive _ (length votes0)) by done.
    apply zip3_unzip. }
  split_and!; [|done|done|].
  - split; rewrite ?Hcand; simpl; try done.
    + unfold votes_by_candidate; simpl.
      by rewrite (p3zip_involutive _ (length votes0)).
    + by apply p3zip_length.
    + pose proof (p3zip_col_length s.*1.*2) as Hw.
      by rewrite !length_fmap in Hw.
    + rewrite Hperm. apply zip3_length_le.
  - exists vs, cnts. by rewrite Hcand.
Qed.

(** ** compute_winner and check_tied *)

Lemma getitem_neg_last {A} (l : list A) x : Py.getitem_neg (l ++ [x]) 1 = Ok x.
Proof. unfold Py.getitem_neg. by rewrite reverse_snoc. Qed.

Lemma getitem_neg_last2 {A} (l : list A) x y :
  Py.getitem_neg (l ++ [y; x]) 2 = Ok y.
Proof.
  unfold Py.getitem_neg.
  by rewrite (reverse_app l [y; x]).
Qed.

(** [first > N_votes / 2] under true division. *)
Lemma true_division_majority (first : Z) (N : nat) :
  negb (Qle_bool (inject_Z first) (Z.of_nat N # 2))
  = bool_decide (Z.of_nat N < 2 * first).
Proof.
  unfold Qle_bool, inject_Z; simpl.
  destruct (bool_decide_reflect (Z.of_nat N < 2 * first)) as [H|H].
  - apply negb_true_iff, Z.leb_gt. lia.
  - apply negb_false_iff, Z.leb_le. lia.
Qed.

Lemma sum_nonneg (c : list Z) : Forall (λ x, 0 ≤ x) c → 0 ≤ Py.sum c.
Proof. induction 1; simpl; lia. Qed.

Lemma sum_pos (c : list Z) :
  Forall (λ x, 0 ≤ x) c → (0 < Py.sum c ↔ ¬ Forall (λ x, x = 0) c).
Proof.
  induction 1 as [|x c Hx Hc IH]; simpl.
  - split; [lia|]. intros H. destruct H. constructor.
  - pose proof (sum_nonneg c Hc). rewrite Forall_cons. split.
    + intros Hpos [-> Hall]. apply IH; [lia|done].
    + intros Hnot. destruct (decide (x = 0)) as [->|]; [|lia].
      apply IH. intros Hall. by apply Hnot.
Qed.

Lemma table_inv_split t :
  table_inv t → ∃ l k, candidates t = l ++ [k].
Proof.
  intros [Hne _ _ _ _ _ _ _ _ _].
  destruct (proj2 (last_is_Some _) Hne) as [k Hk].
  apply last_Some in Hk as [l ->]. eauto.
Qed.

(** C1. In every table the constructor returns, [compute_winner] returns
    the name of the last candidate exactly when twice the number of
    ballots giving that candidate rank 1 exceeds the number of ballots the
    table was built from, and [None] otherwise; the number compared is the
    first entry of the candidate's count vector. *)
Theorem compute_winner_majority votes0 names0 t :
  VoteTable_init votes0 names0 = Ok t →
  ∃ l cnt col w,
    candidates t = l ++ [(cnt, col, w)]
    ∧ last (names t) = Some w
    ∧ last (votes_by_candidate t) = Some col
    ∧ cnt !! 0%nat = Some (tally col 1)
    ∧ N_votes t = length votes0
    ∧ compute_winner t =
        Ok (if bool_decide (Z.of_nat (length votes0) < 2 * tally col 1)
            then Some w else None).
Proof.
  intros Hinit.
  destruct (VoteTable_init_inv _ _ _ Hinit) as (Hinv & HNv & HNc & _).
  destruct (table_inv_split _ Hinv) as (l & [[cnt col] w] & Hcand).
  destruct Hinv as [_ _ Hcounts Hcols Hnames Hvec _ _ _ Hwidth].
  rewrite Hcand in *. rewrite !fmap_app in *. simpl in *.
  rewrite Forall_app, Forall_singleton in Hvec. simpl in Hvec.
  destruct Hvec as [_ [-> _]]. simpl in *.
  assert (1 ≤ N_candidates t)%nat as HN.
  { rewrite length_app in Hwidth. simpl in *. lia. }
  exists l, (count_vector (N_candidates t) col), col, w.
  split_and!; [done|by rewrite Hnames, last_snoc|by rewrite Hcols, last_snoc
              |by apply count_vector_first|done|].
  unfold compute_winner. rewrite Hcounts, getitem_neg_last. simpl.
  pose proof (count_vector_first _ col HN) as Hfirst.
  destruct (count_vector (N_candidates t) col) as [|first rest]; [done|].
  injection Hfirst as ->. simpl.
  rewrite true_division_majority, HNv.
  case_bool_decide; [|done]. by rewrite Hnames, getitem_neg_last.
Qed.

Lemma check_tied_inv t l (k2 k1 : key) :
  table_inv t →
  candidates t = l ++ [k2; k1] →
  check_tied t
  = Ok (bool_decide (k1.1.1 = k2.1.1 ∧ ¬ Forall (λ c, c = 0) k1.1.1)).
Proof.
  intros Hinv Hcand.
  destruct Hinv as [_ _ Hcounts _ _ Hvec _ _ _ _].
  rewrite Hcand in *. rewrite !fmap_app in *. simpl in *.
  rewrite Forall_app, Forall_cons, Forall_singleton in Hvec.
  simpl in Hvec. destruct Hvec as (_ & _ & Hk1 & _).
  unfold check_tied. rewrite Hcounts.
  change [k2.1.1; k1.1.1] with ([k2.1.1] ++ [k1.1.1]).
  rewrite app_assoc, getitem_neg_last. simpl.
  rewrite <-app_assoc. simpl. rewrite getitem_neg_last2. simpl.
  f_equal. apply eq_true_iff_eq.
  rewrite andb_true_iff, !bool_decide_eq_true, Z.ltb_lt.
  rewrite sum_pos; [done|]. rewrite Hk1. apply count_vector_nonneg.
Qed.

(** C5. In every table the constructor returns with at least two
    candidates, [check_tied] returns [True] exactly when the last two
    candidates have the same count vector and that vector is not all
    zeros. *)
Theorem check_tied_strongest votes0 names0 t l k2 k1 :
  VoteTable_init votes0 names0 = Ok t →
  candidates t = l ++ [k2; k1] →
  check_tied t
  = Ok (bool_decide (k1.1.1 = k2.1.1 ∧ ¬ Forall (λ c, c = 0) k1.1.1)).
Proof.
  intros Hinit Hcand.
  destruct (VoteTable_init_inv _ _ _ Hinit) as (Hinv & _).
  by apply check_tied_inv with l.
Qed.

(** ** The sorted order of a table *)

(** [maintain] reads only [votes] and [names]: every rebuild computes
    what the constructor computes from these two fields. *)
Lemma maintain_init self :
  maintain self = VoteTable_init (votes self) (names self).
Proof.
  unfold VoteTable_init, maintain, reduce_ranks; simpl.
  by destruct (res_mapM get_rank_order (votes self)).
Qed.

Lemma zip3_count_vectors N names0 cols cnts :
  Forall2 (λ (cv : string * list (option Z)) c, count_votes N cv.2 = Ok c)
          (zip names0 cols) cnts →
  zip3 cnts cols names0 = zip3 (count_vector N <$> cols) cols names0.
Proof.
  revert cols cnts. unfold zip3.
  induction names0 as [|n names0 IH]; intros cols cnts H.
  - by rewrite !zip_with_nil_r.
  - destruct cols as [|col cols]; simpl in H.
    + by inversion H.
    + inversion H as [|?? c cnts' Hc H']; subst. simpl in *.
      apply count_votes_Ok in Hc as ->. f_equal. by apply IH.
Qed.

(** C3, as the code has it. After the constructor and after every
    rebuild ([maintain]) that returns: the names, the ballot columns and
    the count vectors of the table are the three components of one list
    of candidates; each count vector is the count vector of the
    candidate's own column; the candidates are those of the fields
    [names] and [votes] the rebuild started from, each with its column of
    normalized ranks; and the list is ascending by count vector,
    candidates with the same count vector by ballot column (rank by rank
    down the ballots), candidates with the same count vector and column
    by name.  The arrangement is the only ascending one of these
    candidates. *)
Theorem maintain_sorted self t :
  maintain self = Ok t →
  counts t = (candidates t).*1.*1
  ∧ votes_by_candidate t = (candidates t).*1.*2
  ∧ names t = (candidates t).*2
  ∧ Forall (λ k : key, k.1.1 = count_vector (N_candidates t) k.1.2)
           (candidates t)
  ∧ (∃ vs, Forall2 (λ b b', get_rank_order b = Ok b') (votes self) vs
           ∧ candidates t
             ≡ₚ zip3 (count_vector (length (names self)) <$> p3zip vs)
                     (p3zip vs) (names self))
  ∧ StronglySorted key_le (candidates t)
  ∧ ∀ s, s ≡ₚ candidates t → StronglySorted key_le s → s = candidates t.
Proof.
  rewrite maintain_init. intros Hinit.
  destruct (VoteTable_init_inv _ _ _ Hinit)
    as (Hinv & _ & _ & vs & cnts & Hvs & Hcnts & Hs).
  destruct Hinv as [_ Hsorted Hcounts Hcols Hnames Hvec _ _ _ _].
  split_and!; try done.
  - eapply Forall_impl; [done|]. by intros ? [? _].
  - exists vs. split; [done|].
    rewrite <-(zip3_count_vectors _ _ _ cnts) by done.
    by eapply sorted_Permutation.
  - intros s Hperm Hs'. by apply (StronglySorted_unique key_le).
Qed.

(** ** Tables built from aligned ballots *)

Lemma zip3_names {A B} (a : list A) (b : list B) (c : list string) :
  length a = length c → length b = length c → (zip3 a b c).*2 = c.
Proof.
  intros Ha Hb. unfold zip3. apply snd_zip. rewrite length_zip_with. lia.
Qed.

Lemma VoteTable_init_aligned votes0 names0 t :
  VoteTable_init votes0 names0 = Ok t →
  aligned votes0 names0 →
  good t ∧ names t ≡ₚ names0
  ∧ N_votes t = length votes0 ∧ N_candidates t = length names0.
Proof.
  intros Hinit Hal.
  destruct (VoteTable_init_inv _ _ _ Hinit)
    as (Hinv & HNv & HNc & vs & cnts & Hvs & Hcnts & Hs).
  assert (names t ≡ₚ names0) as Hperm.
  { rewrite (inv_names _ Hinv), (sorted_Permutation _ _ _ Hs).
    pose proof (inv_ballots _ Hinv) as Hb. rewrite HNv in Hb.
    assert (length (p3zip vs) = length names0) as Hcols.
    { apply p3zip_length.
      - apply Forall2_length in Hvs. destruct vs; simpl in *; [lia|done].
      - unfold aligned in Hal. rewrite Forall_forall in Hal.
        apply Forall_forall. intros b' Hb'.
        apply list_elem_of_lookup in Hb' as [i Hi].
        destruct (Forall2_lookup_r _ _ _ _ _ Hvs Hi) as (b & Hbi & Hrank).
        rewrite (get_rank_order_length _ _ Hrank). apply Hal.
        by eapply list_elem_of_lookup_2. }
    rewrite zip3_names; [done| |done].
    apply Forall2_length in Hcnts. rewrite length_zip_with in Hcnts. lia. }
  split_and!; try done. split; [done|]. by rewrite Hperm.
Qed.

Lemma slice_to_take {A} (l : list A) (i : Z) :
  0 ≤ i → Py.slice_to l i = take (Z.to_nat i) l.
Proof.
  intros. unfold Py.slice_to, Py.slice_bound.
  by rewrite (proj2 (Z.ltb_ge i 0)) by lia.
Qed.

Lemma slice_from_drop {A} (l : list A) (i : Z) :
  0 ≤ i → Py.slice_from l (i + 1) = drop (S (Z.to_nat i)) l.
Proof.
  intros. unfold Py.slice_from, Py.slice_bound.
  rewrite (proj2 (Z.ltb_ge (i + 1) 0)) by lia. f_equal. lia.
Qed.

(** For an index in range, the two slices put together are the list
    without its [index]-th item. *)
Lemma slices_delete {A} (l : list A) (i : Z) :
  0 ≤ i → Py.slice_to l i ++ Py.slice_from l (i + 1) = delete (Z.to_nat i) l.
Proof.
  intros. by rewrite slice_to_take, slice_from_drop, delete_take_drop.
Qed.

Lemma good_columns t :
  good t →
  length (votes_by_candidate t) = N_candidates t
  ∧ Forall (λ col, length col = N_votes t) (votes_by_candidate t).
Proof.
  intros [Hinv Hlen]. rewrite (inv_columns _ Hinv).
  rewrite (inv_names _ Hinv) in Hlen. rewrite !length_fmap in *. split; [done|].
  apply key_columns_length. eapply Forall_impl; [apply (inv_count_vectors _ Hinv)|].
  by intros ? [_ ?].
Qed.

(** The constructor arguments made by [with_candidate_eliminated] for an
    index in range are aligned, one candidate narrower, with the same
    number of ballots. *)
Lemma eliminated_aligned t (i : Z) :
  good t → 0 ≤ i < Z.of_nat (N_candidates t) → (2 ≤ N_candidates t)%nat →
  eliminated_names t i = delete (Z.to_nat i) (names t)
  ∧ length (eliminated_names t i) = (N_candidates t - 1)%nat
  ∧ aligned (eliminated_votes t i) (eliminated_names t i)
  ∧ length (eliminated_votes t i) = N_votes t.
Proof.
  intros Hgood Hi HN. destruct (good_columns t Hgood) as [Hcols Hrows].
  destruct Hgood as [Hinv Hlen].
  unfold eliminated_names, eliminated_votes.
  rewrite !slices_delete by lia.
  assert (length (delete (Z.to_nat i) (names t)) = (N_candidates t - 1)%nat)
    as Hnames.
  { rewrite length_delete; [lia|]. apply lookup_lt_is_Some. lia. }
  assert (length (delete (Z.to_nat i) (votes_by_candidate t))
          = (N_candidates t - 1)%nat) as Hdel.
  { rewrite length_delete; [lia|]. apply lookup_lt_is_Some. lia. }
  split_and!; [done|done| |].
  - unfold aligned. rewrite Hnames, <-Hdel. apply p3zip_col_length.
  - apply p3zip_length.
    + intros Hnil. rewrite Hnil in Hdel. simpl in Hdel. lia.
    + eapply Forall_forall. intros col Hcol. rewrite Forall_forall in Hrows.
      apply Hrows. by eapply list_elem_of_delete_inv.
Qed.

Lemma good_self_aligned t : good t → aligned (votes t) (names t).
Proof.
  intros [Hinv Hlen]. unfold aligned.
  rewrite (inv_names _ Hinv), length_fmap. apply (inv_votes_width _ Hinv).
Qed.

(** ** Further properties of the table operations *)

Lemma res_mapM_total {A B} (f : A → res B) (l : list A) :
  (∀ x, x ∈ l → ∃ y, f x = Ok y) → ∃ k, res_mapM f l = Ok k.
Proof.
  induction l as [|x l IH]; intros H; simpl; [eauto|].
  destruct (H x) as [y Hy]; [by left|]. rewrite Hy. simpl.
  destruct IH as [k Hk]; [intros; apply H; by right|].
  rewrite Hk. simpl. eauto.
Qed.

(** X1. Column [j] of [p3zip m] exists exactly when every row has a slot
    [j]: the transpose is cut to the shortest row. *)
Theorem p3zip_shortest_row {A} (m : list (list A)) (j : nat) :
  m ≠ [] →
  (j < length (p3zip m))%nat ↔ Forall (λ row, (j < length row)%nat) m.
Proof.
  induction m as [|row [|row' m] IH]; intros Hne; [done| |].
  - simpl. rewrite length_fmap, Forall_singleton. done.
  - rewrite p3zip_cons2, length_zip_with, Forall_cons, <-IH by done. lia.
Qed.

(** X2. Transposing twice gives an aligned table back. *)
Theorem p3zip_twice {A} (m : list (list A)) (c : nat) :
  m ≠ [] → (1 ≤ c)%nat → Forall (λ row, length row = c) m →
  p3zip (p3zip m) = m
  ∧ length (p3zip m) = c
  ∧ Forall (λ col, length col = length m) (p3zip m).
Proof.
  intros Hne Hc Hm. split_and!.
  - by eapply p3zip_involutive.
  - by apply p3zip_length.
  - apply p3zip_col_length.
Qed.

(** The constructor raises [ValueError] when it is given no ballot,
    and when it is given no candidate name. *)
Lemma VoteTable_init_nil :
  (∀ names0, VoteTable_init [] names0 = Raise ValueError)
  ∧ (∀ votes0, VoteTable_init votes0 [] = Raise ValueError).
Proof.
  split.
  - intros names0. unfold VoteTable_init, maintain, reduce_ranks,
      update_counts, votes_by_candidate, zip3. simpl.
    by rewrite zip_nil_r.
  - intros votes0.
    destruct (res_mapM_total get_rank_order votes0) as [vs Hvs].
    { intros l _. apply get_rank_order_total. }
    unfold VoteTable_init, maintain, reduce_ranks. simpl. rewrite Hvs. simpl.
    unfold update_counts, votes_by_candidate, zip3. by simpl.
Qed.


(** ** Ballots that are already normalized *)

Lemma ranked_slots_fst_from off (l : list (option Z)) :
  (omap slot_of (imap (λ i v, ((off + i)%nat, v)) l)).*1 = ranks_of l.
Proof.
  revert off. induction l as [|o l IH]; intros off; [done|]. simpl.
  assert (imap ((λ i v, ((off + i)%nat, v)) ∘ S) l
          = imap (λ i v, ((S off + i)%nat, v)) l) as ->.
  { apply imap_ext. intros; simpl. f_equal. lia. }
  specialize (IH (S off)). unfold ranks_of in *. unfold slot_of at 1. simpl.
  destruct o; simpl; [f_equal|]; exact IH.
Qed.

Lemma ranked_slots_fst (l : list (option Z)) :
  (ranked_slots l).*1 = ranks_of l.
Proof. apply (ranked_slots_fst_from 0). Qed.

Lemma seq_ranks_sorted (start k : nat) :
  StronglySorted Z.le (Z.of_nat <$> seq start k).
Proof.
  revert start. induction k as [|k IH]; intros start; simpl; constructor.
  - apply IH.
  - apply Forall_fmap, Forall_forall. intros x Hx.
    apply elem_of_seq in Hx. simpl. lia.
Qed.

Lemma get_rank_order_fixed (l : list (option Z)) :
  normalized l → get_rank_order l = Ok l.
Proof.
  intros Hnorm.
  destruct (get_rank_order_sorted l)
    as (s & out & Hout & Hperm & Hsorted & Hlen & Hset & Hunset & _).
  destruct (ranked_slots_spec l) as (Hin & _ & _).
  assert (s.*1 = Z.of_nat <$> seq 1 (length (ranks_of l))) as Hs1.
  { apply (StronglySorted_unique Z.le).
    - clear -Hsorted. induction Hsorted as [|a s Hs IH Ha]; simpl; constructor.
      + done.
      + apply Forall_fmap. eapply Forall_impl; [exact Ha|].
        intros b Hb. by apply pair_le_fst.
    - apply seq_ranks_sorted.
    - by rewrite Hperm, ranked_slots_fst. }
  rewrite Hout. f_equal. apply list_eq_same_length with (length l); [done..|].
  intros i x y _ Hx Hy.
  destruct y as [a|].
  - assert ((a, i) ∈ s) as Hai by (rewrite Hperm; by apply Hin).
    apply list_elem_of_lookup in Hai as [r Hr].
    pose proof (Hset _ _ _ Hr) as Hoi.
    assert (s.*1 !! r = Some a) as Hr1 by (by rewrite list_lookup_fmap, Hr).
    rewrite Hs1, list_lookup_fmap in Hr1.
    destruct (seq 1 (length (ranks_of l)) !! r) as [m|] eqn:Hm; [|done].
    apply lookup_seq in Hm as [-> _]. simpl in Hr1.
    rewrite Hoi in Hx. simplify_eq. repeat f_equal. lia.
  - apply Hunset in Hy. congruence.
Qed.

(** X4. [get_rank_order] is idempotent: what it returns, it returns
    unchanged when applied again. *)
Theorem get_rank_order_idempotent (l out : list (option Z)) :
  get_rank_order l = Ok out → get_rank_order out = Ok out.
Proof.
  intros Hout. apply get_rank_order_fixed. unfold normalized.
  pose proof (get_rank_order_ranks _ _ Hout) as Hranks.
  rewrite Hranks at 1.
  apply Permutation_length in Hranks.
  rewrite length_fmap, length_seq in Hranks. by rewrite Hranks.
Qed.

Lemma get_rank_order_normalized l out :
  get_rank_order l = Ok out → normalized out.
Proof.
  intros Hout. unfold normalized.
  pose proof (get_rank_order_ranks _ _ Hout) as Hranks.
  rewrite Hranks at 1.
  apply Permutation_length in Hranks.
  rewrite length_fmap, length_seq in Hranks. by rewrite Hranks.
Qed.

Lemma normalized_Permutation l l' : l ≡ₚ l' → normalized l → normalized l'.
Proof.
  unfold normalized, ranks_of. intros Hperm Hl.
  by rewrite <-Hperm.
Qed.

Lemma ranks_of_length (l : list (option Z)) :
  (length (ranks_of l) ≤ length l)%nat.
Proof.
  unfold ranks_of. induction l as [|o l IH]; [done|].
  unfold omap in IH. destruct o; simpl; lia.
Qed.

Lemma normalized_range l v :
  normalized l → Some v ∈ l → 1 ≤ v ≤ Z.of_nat (length l).
Proof.
  unfold normalized. intros Hl Hv.
  assert (v ∈ ranks_of l) as Hin.
  { unfold ranks_of. apply list_elem_of_omap. by exists (Some v). }
  rewrite Hl in Hin. apply list_elem_of_fmap in Hin as (m & -> & Hm).
  apply elem_of_seq in Hm.
  pose proof (ranks_of_length l). lia.
Qed.

(** ** Sorting a sorted list *)

Section sorted_fixed.
Context {A : Type} (lt : A → A → res bool) (le : relation A).
Hypothesis le_lt : ∀ a b, le a b → lt b a = Ok false.

Lemma sorted_fixed l : StronglySorted le l → Py.sorted lt l = Ok l.
Proof.
  induction 1 as [|a l Hl IH Ha]; [done|]. simpl. rewrite IH. simpl.
  destruct l as [|b l']; [done|]. simpl.
  apply Forall_cons in Ha as [Hab _]. by rewrite (le_lt _ _ Hab).
Qed.

End sorted_fixed.

Section list_lt_lexico.
Context {A : Type} `{EqDecision A, Lexico A, !StrictOrder (@lexico A _)}.
Context (elt_lt : A → A → res bool).
Hypothesis elt_lt_after : ∀ x y, lexico x y → elt_lt y x = Ok false.

Lemma list_lt_after v w : lexico v w → Py.list_lt elt_lt w v = Ok false.
Proof.
  revert w. induction v as [|x v IH]; intros [|y w] Hvw; try done.
  simpl. destruct Hvw as [Hxy|[Hxy Hvw]]; simpl in *.
  - rewrite decide_False; [by apply elt_lt_after|].
    intros ->. by apply (irreflexivity lexico x).
  - subst y. rewrite decide_True by done. by apply IH.
Qed.

End list_lt_lexico.

Lemma key_lt_after (a b : list Z * list (option Z) * string) :
  key_le a b → key_lt b a = Ok false.
Proof.
  destruct a as [[c1 v1] n1], b as [[c2 v2] n2]. intros [Heq|Hlt].
  - simplify_eq. simpl. by rewrite !decide_True.
  - simpl. destruct Hlt as [[Hc|[Hc Hv]]|[Hcv Hn]]; simpl in *.
    + rewrite decide_False.
      * apply list_lt_after; [|done]. intros x y Hxy. unfold Py.int_lt.
        f_equal. unfold lexico, Z_lexico in Hxy. lia.
      * intros ->. by apply (irreflexivity lexico c1).
    + subst c2. rewrite decide_True by done. rewrite decide_False.
      * apply list_lt_after; [|done]. intros [x|] [y|] Hxy; try done.
        simpl. f_equal. unfold lexico, vote_lexico in Hxy. simpl in Hxy. lia.
      * intros ->. by apply (irreflexivity lexico v1).
    + simplify_eq. rewrite !decide_True by done.
      assert (n1 ≠ n2) as Hne.
      { intros ->. by apply (irreflexivity lexico n2). }
      rewrite decide_False by done. unfold Py.str_lt. f_equal.
      destruct (String.ltb n2 n1) eqn:Hlt; [|done].
      exfalso. apply (irreflexivity lexico n1).
      by trans n2.
Qed.

Lemma sorted_keys_fixed (s : list (list Z * list (option Z) * string)) :
  StronglySorted key_le s → Py.sorted key_lt s = Ok s.
Proof. apply sorted_fixed. apply key_lt_after. Qed.


(** ** Counting needs every rank to be a key of the counter *)

Lemma count_fold_range acc col cnt :
  res_foldM count_step acc col = Ok cnt → in_range (length acc) col.
Proof.
  revert acc. induction col as [|v col IH]; intros acc H; [constructor|].
  simpl in H. apply res_bind_Ok in H as (acc' & Hstep & H).
  assert (length acc' = length acc) as Hlen.
  { destruct v as [v|]; simpl in Hstep; [|by simplify_eq].
    unfold counter_incr in Hstep. case_decide; [|done].
    injection Hstep as <-. by rewrite length_alter. }
  constructor.
  - intros r ->. simpl in Hstep. unfold counter_incr in Hstep.
    by case_decide.
  - rewrite <-Hlen. by apply IH.
Qed.

Lemma count_votes_range N col cnt :
  count_votes N col = Ok cnt → in_range N col.
Proof.
  intros H. apply count_fold_range in H. by rewrite length_replicate in H.
Qed.

Lemma count_fold_total acc col :
  in_range (length acc) col → ∃ cnt, res_foldM count_step acc col = Ok cnt.
Proof.
  revert acc. induction col as [|v col IH]; intros acc H; simpl; [eauto|].
  apply Forall_cons in H as [Hv H].
  destruct v as [v|]; simpl.
  - unfold counter_incr. rewrite decide_True by (by apply Hv). simpl.
    apply IH. by rewrite length_alter.
  - by apply IH.
Qed.

Lemma count_votes_total N col :
  in_range N col → count_votes N col = Ok (count_vector N col).
Proof.
  intros H. destruct (count_fold_total (replicate N 0) col) as [cnt Hcnt].
  { by rewrite length_replicate. }
  unfold count_votes. rewrite Hcnt. f_equal. by apply count_votes_Ok.
Qed.

(** The keys of a constructed table were counted without a missing
    counter key. *)
Lemma candidates_counted votes0 names0 t :
  VoteTable_init votes0 names0 = Ok t →
  Forall (λ k : list Z * list (option Z) * string,
            count_votes (N_candidates t) k.1.2 = Ok k.1.1) (candidates t).
Proof.
  intros H. apply VoteTable_init_inv in H
    as (_ & _ & HN & vs & cnts & _ & Hcnts & Hs).
  apply sorted_Permutation in Hs. rewrite Hs, HN.
  apply Forall_forall. intros [[c col] n] Hin.
  apply list_elem_of_lookup in Hin as [i Hi].
  apply zip3_lookup in Hi as (Hc & Hcol & Hn). simpl.
  eapply (Forall2_lookup_lr _ _ _ i (n, col) c) in Hcnts; [done| |done].
  apply lookup_zip_with_Some. eauto.
Qed.

(** ** The sum of a count vector *)

Lemma sum_app (l1 l2 : list Z) : Py.sum (l1 ++ l2) = Py.sum l1 + Py.sum l2.
Proof. unfold Py.sum. induction l1; simpl; lia. Qed.

Lemma sum_count_vector_cons N v col :
  Py.sum (count_vector N (v :: col))
  = (match v with
     | Some r => if decide (1 ≤ r ≤ Z.of_nat N) then 1 else 0
     | None => 0
     end) + Py.sum (count_vector N col).
Proof.
  unfold count_vector. induction N as [|N IH].
  - simpl. destruct v as [r|]; [|done]. by rewrite decide_False by lia.
  - rewrite !seq_S, !fmap_app, !sum_app. simpl. rewrite IH, tally_cons.
    destruct v as [r|].
    + destruct (decide (r = Z.of_nat N + 1)) as [->|Hr].
      * rewrite (decide_True (P := Some _ = _)) by done.
        repeat case_decide; lia.
      * rewrite (decide_False (P := Some r = _)) by congruence.
        repeat case_decide; lia.
    + rewrite decide_False by done. lia.
Qed.

Lemma sum_count_vector N col :
  in_range N col →
  Py.sum (count_vector N col) = Z.of_nat (length (ranks_of col)).
Proof.
  induction col as [|v col IH]; intros H.
  - unfold count_vector, tally, Py.sum. simpl. clear.
    induction (seq 0 N) as [|k l IH]; [done|]. unfold fmap in *. simpl in *. lia.
  - apply Forall_cons in H as [Hv H]. rewrite sum_count_vector_cons, IH by done.
    unfold ranks_of. destruct v as [r|]; simpl.
    + rewrite decide_True by (by apply Hv). unfold omap. lia.
    + done.
Qed.

(** In a constructed table the count vector of every candidate adds
    up to the number of ballots that rank the candidate: abstentions are
    not counted, every rank is counted once. *)
Lemma candidate_counts votes0 names0 t i cnt col x :
  VoteTable_init votes0 names0 = Ok t →
  candidates t !! i = Some (cnt, col, x) →
  Py.sum cnt = Z.of_nat (length (ranks_of col))
  ∧ length cnt = length names0
  ∧ ∀ r, (r < length names0)%nat →
         cnt !! r = Some (tally col (Z.of_nat r + 1)).
Proof.
  intros Hinit Hi.
  pose proof (candidates_counted _ _ _ Hinit) as Hcounted.
  apply VoteTable_init_inv in Hinit as (_ & _ & HN & _).
  rewrite Forall_forall in Hcounted.
  specialize (Hcounted _ (list_elem_of_lookup_2 _ _ _ Hi)). simpl in Hcounted.
  rewrite HN in Hcounted.
  pose proof (count_votes_range _ _ _ Hcounted) as Hrange.
  apply count_votes_Ok in Hcounted as ->. split_and!.
  - by apply sum_count_vector.
  - apply count_vector_length.
  - intros r Hr. unfold count_vector.
    by rewrite list_lookup_fmap, lookup_seq_lt.
Qed.

(** ** First-place counts along the table *)

Lemma key_le_first (a b : list Z * list (option Z) * string) x y :
  key_le a b → length a.1.1 = length b.1.1 →
  a.1.1 !! 0%nat = Some x → b.1.1 !! 0%nat = Some y → x ≤ y.
Proof.
  destruct a as [[c1 v1] n1], b as [[c2 v2] n2]. simpl.
  intros Hle Hlen Hx Hy.
  assert (c1 = c2 ∨ lexico c1 c2) as [->|Hc].
  { destruct Hle as [?|[[?|[? _]]|[? _]]]; simplify_eq; simpl in *; auto. }
  - simplify_eq. lia.
  - destruct c1 as [|x1 c1], c2 as [|y1 c2]; simplify_eq; simpl in *.
    destruct Hc as [Hc|[Hc _]]; simpl in *; simplify_eq; [|lia].
    unfold lexico, Z_lexico in Hc. lia.
Qed.

(** ** The ballots of a constructed table *)

(** Transposing the same columns in another order permutes every row. *)
Lemma p3zip_rows_Permutation {A} (cols cols' : list (list A)) r b row row' :
  cols ≡ₚ cols' → Forall (λ col, length col = r) cols →
  p3zip cols !! b = Some row → p3zip cols' !! b = Some row' →
  row ≡ₚ row'.
Proof.
  intros Hperm Hcols Hrow Hrow'.
  assert (Forall (λ col, length col = r) cols') as Hcols'
    by (by rewrite <-Hperm).
  pose proof (p3zip_col_length cols) as Hlen.
  pose proof (p3zip_col_length cols') as Hlen'.
  rewrite Forall_forall in Hlen, Hlen'.
  apply Permutation_inj in Hperm as [Hl (f & Hf & Hlookup)].
  apply Permutation_inj. split.
  - rewrite (Hlen row), (Hlen' row'); [done|by eapply list_elem_of_lookup_2..].
  - exists f. split; [done|]. intros j.
    pose proof (p3zip_lookup cols r j b Hcols) as H1.
    pose proof (p3zip_lookup cols' r (f j) b Hcols') as H2.
    rewrite Hrow in H1. rewrite Hrow' in H2. simpl in H1, H2.
    by rewrite H1, H2, Hlookup.
Qed.

(** Each ballot of a table built from aligned ballots is the normalized
    input ballot, its slots in table order. *)
Lemma VoteTable_init_rows votes0 names0 t :
  VoteTable_init votes0 names0 = Ok t → aligned votes0 names0 →
  ∃ vs, Forall2 (λ b b', get_rank_order b = Ok b') votes0 vs
        ∧ Forall2 (≡ₚ) (votes t) vs.
Proof.
  intros Hinit Hal.
  destruct (VoteTable_init_inv _ _ _ Hinit)
    as (Hinv & HNv & HNc & vs & cnts & Hvs & Hcnts & Hs).
  exists vs. split; [done|].
  pose proof (inv_ballots _ Hinv) as Hb. rewrite HNv in Hb.
  assert (Forall (λ row, length row = length names0) vs) as Hrows.
  { unfold aligned in Hal. rewrite Forall_forall in Hal.
    apply Forall_forall. intros b' Hb'.
    apply list_elem_of_lookup in Hb' as [i Hi].
    destruct (Forall2_lookup_r _ _ _ _ _ Hvs Hi) as (b & Hbi & Hrank).
    rewrite (get_rank_order_length _ _ Hrank). apply Hal.
    by eapply list_elem_of_lookup_2. }
  assert (vs ≠ []) as Hne.
  { apply Forall2_length in Hvs. destruct vs; simpl in *; [lia|done]. }
  assert (length (p3zip vs) = length names0) as Hcols by (by apply p3zip_length).
  assert (1 ≤ length names0)%nat as Hn.
  { pose proof (inv_width _ Hinv). pose proof (inv_nonempty _ Hinv).
    destruct (candidates t); [done|]. simpl in *. lia. }
  assert ((candidates t).*1.*2 ≡ₚ p3zip vs) as Hperm.
  { rewrite (sorted_Permutation _ _ _ Hs). unfold zip3.
    rewrite fst_zip.
    - rewrite snd_zip; [done|].
      apply Forall2_length in Hcnts. rewrite length_zip_with in Hcnts. lia.
    - apply Forall2_length in Hcnts. rewrite length_zip_with in *. lia. }
  assert (votes t = p3zip (candidates t).*1.*2) as Hvotes.
  { rewrite <-(inv_columns _ Hinv). unfold votes_by_candidate.
    symmetry. apply (p3zip_involutive _ (length (candidates t))).
    - pose proof (inv_votes_length _ Hinv). destruct (votes t); simpl in *; [lia|done].
    - pose proof (inv_nonempty _ Hinv). destruct (candidates t); simpl; [done|lia].
    - apply (inv_votes_width _ Hinv). }
  apply Forall2_same_length_lookup. split.
  - rewrite (inv_votes_length _ Hinv), HNv. by eapply Forall2_length.
  - intros b row row' Hrow Hrow'.
    eapply (p3zip_rows_Permutation _ (p3zip vs) (length vs)).
    + exact Hperm.
    + rewrite Hperm. apply p3zip_col_length.
    + by rewrite <-Hvotes.
    + by rewrite (p3zip_involutive _ (length names0)).
Qed.

Lemma VoteTable_init_normalized votes0 names0 t :
  VoteTable_init votes0 names0 = Ok t → aligned votes0 names0 →
  Forall normalized (votes t).
Proof.
  intros Hinit Hal.
  destruct (VoteTable_init_rows _ _ _ Hinit Hal) as (vs & Hvs & Hperm).
  apply Forall_forall. intros row Hrow.
  apply list_elem_of_lookup in Hrow as [b Hb].
  destruct (Forall2_lookup_l _ _ _ _ _ Hperm Hb) as (row' & Hb' & Hrows).
  destruct (Forall2_lookup_r _ _ _ _ _ Hvs Hb') as (row0 & _ & Hrank).
  eapply normalized_Permutation; [symmetry; exact Hrows|].
  by eapply get_rank_order_normalized.
Qed.

Lemma res_mapM_fixed {A} (f : A → res A) (l : list A) :
  Forall (λ x, f x = Ok x) l → res_mapM f l = Ok l.
Proof.
  induction 1 as [|x l Hx Hl IH]; [done|]. simpl. by rewrite Hx, IH.
Qed.

(** Rebuilding a table built from aligned ballots changes nothing:
    [maintain] returns the table itself, and so does the constructor on
    the table's own ballots and names, which is what [copy] runs. *)
Lemma maintain_fixed votes0 names0 t :
  VoteTable_init votes0 names0 = Ok t → aligned votes0 names0 →
  maintain t = Ok t ∧ VoteTable_init (votes t) (names t) = Ok t.
Proof.
  intros Hinit Hal. rewrite <-maintain_init.
  enough (maintain t = Ok t) by done.
  pose proof (VoteTable_init_normalized _ _ _ Hinit Hal) as Hnorm.
  pose proof (candidates_counted _ _ _ Hinit) as Hcounted.
  destruct (VoteTable_init_aligned _ _ _ Hinit Hal)
    as ([Hinv Hnames] & _ & _ & _).
  unfold maintain, reduce_ranks. simpl.
  rewrite res_mapM_fixed
    by (eapply Forall_impl; [exact Hnorm|]; apply get_rank_order_fixed).
  simpl. unfold update_counts, votes_by_candidate. simpl.
  fold (votes_by_candidate t).
  rewrite (inv_columns _ Hinv), (inv_names _ Hinv) at 1.
  assert (res_mapM (λ cv : string * list (option Z),
                      count_votes (length (names t)) cv.2)
                   (zip (candidates t).*2 (candidates t).*1.*2)
          = Ok (candidates t).*1.*1) as ->.
  { rewrite Hnames. apply res_mapM_Ok.
    clear -Hcounted. induction Hcounted as [|[[c v] n] s Hk Hs IH]; simpl.
    - constructor.
    - constructor; [done|]. apply IH. }
  simpl. rewrite (inv_columns _ Hinv), (inv_names _ Hinv), zip3_unzip.
  rewrite sorted_keys_fixed by apply (inv_sorted _ Hinv). simpl.
  pose proof (inv_nonempty _ Hinv) as Hne.
  destruct (candidates t) as [|k s] eqn:Hcand; [done|].
  rewrite <-Hcand, <-(inv_columns _ Hinv), <-(inv_names _ Hinv),
    <-(inv_counts _ Hinv).
  f_equal. destruct t as [vs ns cs Nv Nc]. simpl in *. f_equal.
  - unfold votes_by_candidate. simpl.
    apply (p3zip_involutive _ (length (candidates (mkVoteTable vs ns cs Nv Nc)))).
    + pose proof (inv_votes_length _ Hinv) as Hl. pose proof (inv_ballots _ Hinv).
      simpl in *. destruct vs; simpl in *; [lia|done].
    + rewrite Hcand. simpl. lia.
    + apply (inv_votes_width _ Hinv).
  - apply (inv_votes_length _ Hinv).
  - done.
Qed.

(** ** What the constructor can raise *)

Lemma res_bind_Raise {A B} (m : res A) (k : A → res B) e :
  res_bind m k = Raise e ↔ m = Raise e ∨ ∃ a, m = Ok a ∧ k a = Raise e.
Proof.
  destruct m as [a|e']; simpl.
  - split; [intros H; right; by exists a|].
    intros [?|(? & ? & ?)]; [done|by simplify_eq].
  - split; [intros [= ->]; by left|]. intros [[= ->]|(? & ? & ?)]; done.
Qed.

Section sorted_raise.
Context {A : Type} (lt : A → A → res bool).

Lemma insort_Raise a l e :
  Py.insort lt a l = Raise e → ∃ b, b ∈ l ∧ lt b a = Raise e.
Proof.
  induction l as [|b l IH]; [done|]. simpl. intros H.
  apply res_bind_Raise in H as [H|(c & Hc & H)].
  - exists b. split; [by left|done].
  - destruct c; [|done]. apply res_bind_Raise in H as [H|(r & _ & H)]; [|done].
    destruct (IH H) as (b' & Hb' & Hlt). exists b'. split; [by right|done].
Qed.

Lemma sorted_Raise l e :
  Py.sorted lt l = Raise e → ∃ a b, a ∈ l ∧ b ∈ l ∧ lt a b = Raise e.
Proof.
  induction l as [|a l IH]; [done|]. simpl. intros H.
  apply res_bind_Raise in H as [H|(s & Hs & H)].
  - destruct (IH H) as (x & y & Hx & Hy & Hlt).
    exists x, y. split_and!; [by right|by right|done].
  - apply insort_Raise in H as (b & Hb & Hlt).
    rewrite (sorted_Permutation _ _ _ Hs) in Hb.
    exists b, a. split_and!; [by right|by left|done].
Qed.

End sorted_raise.

Lemma list_lt_int_total (v w : list Z) : ∃ c, Py.list_lt Py.int_lt v w = Ok c.
Proof.
  revert w. induction v as [|x v IH]; intros [|y w]; simpl; eauto.
  case_decide; [apply IH|]. unfold Py.int_lt. eauto.
Qed.

Lemma list_lt_vote_Raise (v w : list (option Z)) e :
  Py.list_lt Py.vote_lt v w = Raise e →
  e = TypeError ∧ (None ∈ v ∨ None ∈ w).
Proof.
  revert w. induction v as [|x v IH]; intros [|y w]; simpl; try done.
  case_decide.
  - intros Hr. destruct (IH _ Hr) as [-> [?|?]];
      (split; [done|]); [left|right]; by right.
  - destruct x as [x|], y as [y|]; simpl; try done; intros [= <-];
      (split; [done|]); first [by left; left|by right; left].
Qed.

(** A comparison of two sort keys raises only [TypeError], and only on
    an abstention in one of the two columns. *)
Lemma key_lt_Raise (a b : list Z * list (option Z) * string) e :
  key_lt a b = Raise e → e = TypeError ∧ (None ∈ a.1.2 ∨ None ∈ b.1.2).
Proof.
  destruct a as [[c1 v1] n1], b as [[c2 v2] n2]. simpl.
  repeat case_decide; try done.
  - apply list_lt_vote_Raise.
  - destruct (list_lt_int_total c1 c2) as [c Hc]. by rewrite Hc.
Qed.

Lemma res_mapM_Raise {A B} (f : A → res B) (l : list A) e :
  res_mapM f l = Raise e → ∃ x, x ∈ l ∧ f x = Raise e.
Proof.
  induction l as [|x l IH]; [done|]. simpl. intros H.
  apply res_bind_Raise in H as [H|(y & Hy & H)].
  - exists x. split; [by left|done].
  - apply res_bind_Raise in H as [H|(ys & _ & H)]; [|done].
    destruct (IH H) as (x' & ? & ?). exists x'. split; [by right|done].
Qed.

(** The columns of normalized ballots of width [n] hold ranks among
    [1 .. n] only. *)
Lemma normalized_columns (vs : list (list (option Z))) n col :
  Forall normalized vs → Forall (λ row, length row = n) vs →
  col ∈ p3zip vs → in_range n col.
Proof.
  intros Hnorm Hrows Hcol. apply list_elem_of_lookup in Hcol as [j Hj].
  apply Forall_forall. intros v Hv r ->.
  apply list_elem_of_lookup in Hv as [b Hb].
  pose proof (p3zip_lookup vs n b j Hrows) as Hlk.
  rewrite Hj in Hlk. simpl in Hlk. rewrite Hb in Hlk.
  destruct (vs !! b) as [row|] eqn:Hrow; [|done]. simpl in Hlk.
  rewrite Forall_forall in Hnorm, Hrows.
  rewrite <-(Hrows row) by (by eapply list_elem_of_lookup_2).
  apply normalized_range.
  - apply Hnorm. by eapply list_elem_of_lookup_2.
  - by eapply list_elem_of_lookup_2.
Qed.

Lemma column_abstention (vs : list (list (option Z))) n col :
  Forall (λ row, length row = n) vs →
  col ∈ p3zip vs → None ∈ col → ∃ row, row ∈ vs ∧ None ∈ row.
Proof.
  intros Hrows Hcol Hnone. apply list_elem_of_lookup in Hcol as [j Hj].
  apply list_elem_of_lookup in Hnone as [b Hb].
  pose proof (p3zip_lookup vs n b j Hrows) as Hlk.
  rewrite Hj in Hlk. simpl in Hlk. rewrite Hb in Hlk.
  destruct (vs !! b) as [row|] eqn:Hrow; [|done]. simpl in Hlk.
  exists row. split; by eapply list_elem_of_lookup_2.
Qed.

(** On aligned ballots the constructor raises nothing but
    [ValueError], when there is no ballot or no candidate, and
    [TypeError], which takes a ballot with an abstention: never a
    [KeyError] from counting or an [IndexError]. *)
Lemma VoteTable_init_Raise votes0 names0 e :
  aligned votes0 names0 →
  VoteTable_init votes0 names0 = Raise e →
  (e = ValueError ∧ (votes0 = [] ∨ names0 = []))
  ∨ (e = TypeError ∧ ∃ b, b ∈ votes0 ∧ None ∈ b).
Proof.
  intros Hal Hraise.
  destruct VoteTable_init_nil as [Hnov Hnon].
  destruct (decide (votes0 = [])) as [->|Hv].
  { rewrite Hnov in Hraise. left. split; [congruence|auto]. }
  destruct (decide (names0 = [])) as [->|Hn].
  { rewrite Hnon in Hraise. left. split; [congruence|auto]. }
  destruct (res_mapM_total get_rank_order votes0) as [vs Hvs].
  { intros l _. apply get_rank_order_total. }
  pose proof (proj1 (res_mapM_Ok _ _ _) Hvs) as Hvs2.
  assert (Forall normalized vs) as Hnorm.
  { apply Forall_forall. intros row Hrow.
    apply list_elem_of_lookup in Hrow as [i Hi].
    destruct (Forall2_lookup_r _ _ _ _ _ Hvs2 Hi) as (b & _ & Hrank).
    by eapply get_rank_order_normalized. }
  assert (Forall (λ row, length row = length names0) vs) as Hrows.
  { unfold aligned in Hal. rewrite Forall_forall in Hal.
    apply Forall_forall. intros row Hrow.
    apply list_elem_of_lookup in Hrow as [i Hi].
    destruct (Forall2_lookup_r _ _ _ _ _ Hvs2 Hi) as (b & Hbi & Hrank).
    rewrite (get_rank_order_length _ _ Hrank). apply Hal.
    by eapply list_elem_of_lookup_2. }
  assert (vs ≠ []) as Hne.
  { apply Forall2_length in Hvs2. destruct vs, votes0; simpl in *; done. }
  pose proof (p3zip_length vs _ Hne Hrows) as Hcols.
  revert Hraise. unfold VoteTable_init, maintain, reduce_ranks. simpl.
  rewrite Hvs. simpl. unfold update_counts, votes_by_candidate. simpl.
  destruct (res_mapM _ (zip names0 (p3zip vs))) as [cnts|e'] eqn:Hcnts; simpl.
  - destruct (Py.sorted key_lt _) as [s|e'] eqn:Hs; simpl.
    + destruct s as [|k s]; [|done]. exfalso.
      apply sorted_length in Hs. unfold zip3 in Hs.
      apply res_mapM_length in Hcnts.
      rewrite !length_zip_with in *. simpl in Hs.
      assert (length names0 ≠ 0%nat) by (by destruct names0). lia.
    + intros [= ->]. right.
      apply sorted_Raise in Hs as (a & b & Ha & Hb & Hlt).
      apply key_lt_Raise in Hlt as [-> Hnone]. split; [done|].
      assert (∃ col, col ∈ p3zip vs ∧ None ∈ col) as (col & Hcol & Hin).
      { destruct Hnone as [Hnone|Hnone]; [exists a.1.2|exists b.1.2];
          (split; [|done]).
        - apply list_elem_of_lookup in Ha as [i Hi].
          destruct a as [[c v] n]. apply zip3_lookup in Hi as (_ & Hi & _).
          by eapply list_elem_of_lookup_2.
        - apply list_elem_of_lookup in Hb as [i Hi].
          destruct b as [[c v] n]. apply zip3_lookup in Hi as (_ & Hi & _).
          by eapply list_elem_of_lookup_2. }
      destruct (column_abstention _ _ _ Hrows Hcol Hin) as (row & Hrow & Hnone').
      apply list_elem_of_lookup in Hrow as [i Hi].
      destruct (Forall2_lookup_r _ _ _ _ _ Hvs2 Hi) as (b0 & Hbi & Hrank).
      apply list_elem_of_lookup in Hnone' as [j Hj].
      exists b0. split; [by eapply list_elem_of_lookup_2|].
      apply (get_rank_order_abstains _ _ j Hrank) in Hj.
      by eapply list_elem_of_lookup_2.
  - intros _. exfalso.
    apply res_mapM_Raise in Hcnts as ([n col] & Hin & Hcount). simpl in Hcount.
    apply list_elem_of_lookup in Hin as [i Hi].
    apply lookup_zip_with_Some in Hi as (? & ? & [= <- <-] & _ & Hcol).
    rewrite count_votes_total in Hcount; [done|].
    eapply normalized_columns; [done..|]. by eapply list_elem_of_lookup_2.
Qed.

(** Aligned ballots without abstention, at least one of them and at
    least one candidate: the constructor returns a table. *)
Lemma VoteTable_init_total votes0 names0 :
  aligned votes0 names0 → votes0 ≠ [] → names0 ≠ [] →
  Forall (λ b, None ∉ b) votes0 →
  ∃ t, VoteTable_init votes0 names0 = Ok t.
Proof.
  intros Hal Hv Hn Hfull.
  destruct (VoteTable_init votes0 names0) as [t|e] eqn:Hinit; [eauto|].
  exfalso.
  apply (VoteTable_init_Raise _ _ _ Hal) in Hinit
    as [[_ [?|?]]|[_ (b & Hb & Hnone)]];
    [done..|].
  rewrite Forall_forall in Hfull. by apply (Hfull b).
Qed.

(** ** compute_winner finds the majority *)

Lemma compute_winner_inv t l cnt col w :
  table_inv t → candidates t = l ++ [(cnt, col, w)] →
  compute_winner t
  = Ok (if bool_decide (Z.of_nat (N_votes t) < 2 * tally col 1)
        then Some w else None).
Proof.
  intros Hinv Hcand.
  destruct Hinv as [_ _ Hcounts Hcols Hnames Hvec _ _ _ Hwidth].
  rewrite Hcand in *. rewrite !fmap_app in *. simpl in *.
  rewrite Forall_app, Forall_singleton in Hvec. simpl in Hvec.
  destruct Hvec as [_ [-> _]]. simpl in *.
  assert (1 ≤ N_candidates t)%nat as HN.
  { rewrite length_app in Hwidth. simpl in *. lia. }
  unfold compute_winner. rewrite Hcounts, getitem_neg_last. simpl.
  pose proof (count_vector_first _ col HN) as Hfirst.
  destruct (count_vector (N_candidates t) col) as [|first rest]; [done|].
  injection Hfirst as ->. simpl.
  rewrite true_division_majority.
  case_bool_decide; [|done]. by rewrite Hnames, getitem_neg_last.
Qed.

Lemma candidates_first_places t i j (k1 k2 : list Z * list (option Z) * string) :
  table_inv t →
  candidates t !! i = Some k1 → candidates t !! j = Some k2 → (i ≤ j)%nat →
  tally k1.1.2 1 ≤ tally k2.1.2 1.
Proof.
  intros Hinv Hi Hj Hij.
  pose proof (inv_count_vectors _ Hinv) as Hvec.
  rewrite Forall_forall in Hvec.
  destruct (Hvec k1) as [Hk1 _]; [by eapply list_elem_of_lookup_2|].
  destruct (Hvec k2) as [Hk2 _]; [by eapply list_elem_of_lookup_2|].
  assert (1 ≤ N_candidates t)%nat as HN.
  { pose proof (inv_width _ Hinv). pose proof (inv_nonempty _ Hinv).
    destruct (candidates t); [done|]. simpl in *. lia. }
  destruct (decide (i = j)) as [->|Hne]; [simplify_eq; lia|].
  eapply (key_le_first k1 k2).
  - eapply StronglySorted_lookup; [exact (inv_sorted _ Hinv)|done..|lia].
  - by rewrite Hk1, Hk2, !count_vector_length.
  - rewrite Hk1. by apply count_vector_first.
  - rewrite Hk2. by apply count_vector_first.
Qed.

(** [compute_winner] looks at the last candidate only, and that is
    enough: it returns [None] exactly when no candidate of the table has
    rank 1 on more than half of the ballots. *)
Lemma compute_winner_None_iff votes0 names0 t :
  VoteTable_init votes0 names0 = Ok t →
  compute_winner t = Ok None
  ↔ ∀ cnt col x, (cnt, col, x) ∈ candidates t →
      2 * tally col 1 ≤ Z.of_nat (N_votes t).
Proof.
  intros Hinit.
  destruct (VoteTable_init_inv _ _ _ Hinit) as (Hinv & _).
  destruct (table_inv_split _ Hinv) as (l & [[cnt' col'] w] & Hcand).
  rewrite (compute_winner_inv _ _ _ _ _ Hinv Hcand). split.
  - intros Hnone cnt col x Hin. case_bool_decide as Hlast; [done|].
    apply list_elem_of_lookup in Hin as [i Hi].
    pose proof (lookup_lt_Some _ _ _ Hi) as Hlt.
    rewrite Hcand, length_app in Hlt. simpl in Hlt.
    pose proof (candidates_first_places t i (length l) _ (cnt', col', w)
                  Hinv Hi) as Hle.
    simpl in Hle. etrans; [|apply Z.nlt_ge, Hlast].
    apply Z.mul_le_mono_nonneg_l; [lia|]. apply Hle; [|lia].
    rewrite Hcand. by apply list_lookup_middle.
  - intros Hall. rewrite bool_decide_false; [done|].
    apply Z.le_ngt, (Hall cnt' col' w). rewrite Hcand.
    apply elem_of_app. right. by left.
Qed.

(** Two columns over the same ballots that each hold rank 1 on more than
    half of them hold it together on some ballot. *)
Lemma tally_pigeonhole (c1 c2 : list (option Z)) :
  length c1 = length c2 →
  Z.of_nat (length c1) < tally c1 1 + tally c2 1 →
  ∃ b, c1 !! b = Some (Some 1) ∧ c2 !! b = Some (Some 1).
Proof.
  revert c2. induction c1 as [|x c1 IH]; intros [|y c2] Hlen Hsum;
    simplify_eq/=.
  - unfold tally in Hsum. simpl in Hsum. lia.
  - rewrite !tally_cons in Hsum.
    destruct (decide (x = Some 1)) as [->|Hx], (decide (y = Some 1)) as [->|Hy].
    + by exists 0%nat.
    + destruct (IH c2) as (b & ? & ?); [done|lia|]. by exists (S b).
    + destruct (IH c2) as (b & ? & ?); [done|lia|]. by exists (S b).
    + destruct (IH c2) as (b & ? & ?); [done|lia|]. by exists (S b).
Qed.

Lemma ranks_of_NoDup_lookup (l : list (option Z)) i j v :
  NoDup (ranks_of l) →
  l !! i = Some (Some v) → l !! j = Some (Some v) → i = j.
Proof.
  unfold ranks_of. revert i j. induction l as [|x l IH]; intros i j Hnd Hi Hj.
  - by rewrite lookup_nil in Hi.
  - assert (∀ k, l !! k = Some (Some v) → v ∈ omap id l) as Hin.
    { intros k Hk. apply list_elem_of_omap. exists (Some v).
      split; [by eapply list_elem_of_lookup_2|done]. }
    assert (NoDup (omap id l)) as Hnd'.
    { destruct x; simpl in Hnd; [by apply NoDup_cons in Hnd as [_ ?]|done]. }
    destruct i as [|i], j as [|j]; simpl in *; simplify_eq.
    + done.
    + apply NoDup_cons in Hnd as [Hv _]. destruct Hv. by eapply Hin.
    + apply NoDup_cons in Hnd as [Hv _]. destruct Hv. by eapply Hin.
    + f_equal. by eapply IH.
Qed.

Lemma normalized_NoDup l : normalized l → NoDup (ranks_of l).
Proof.
  unfold normalized. intros ->. apply NoDup_fmap_2; [apply _|apply NoDup_seq].
Qed.

Lemma majority_unique votes0 names0 t i j c1 col1 x1 c2 col2 x2 :
  VoteTable_init votes0 names0 = Ok t → aligned votes0 names0 →
  candidates t !! i = Some (c1, col1, x1) →
  candidates t !! j = Some (c2, col2, x2) →
  Z.of_nat (N_votes t) < 2 * tally col1 1 →
  Z.of_nat (N_votes t) < 2 * tally col2 1 →
  i = j.
Proof.
  intros Hinit Hal Hi Hj Hm1 Hm2.
  pose proof (VoteTable_init_normalized _ _ _ Hinit Hal) as Hnorm.
  destruct (VoteTable_init_inv _ _ _ Hinit) as (Hinv & _).
  pose proof (inv_count_vectors _ Hinv) as Hvec. rewrite Forall_forall in Hvec.
  destruct (Hvec _ (list_elem_of_lookup_2 _ _ _ Hi)) as [_ Hl1].
  destruct (Hvec _ (list_elem_of_lookup_2 _ _ _ Hj)) as [_ Hl2].
  simpl in Hl1, Hl2.
  destruct (tally_pigeonhole col1 col2) as (b & Hb1 & Hb2); [congruence|lia|].
  apply zip3_lookup in Hi as (_ & Hi & _), Hj as (_ & Hj & _).
  pose proof (p3zip_lookup (votes t) _ b i (inv_votes_width _ Hinv)) as Hlk1.
  pose proof (p3zip_lookup (votes t) _ b j (inv_votes_width _ Hinv)) as Hlk2.
  unfold votes_by_candidate in Hi, Hj.
  rewrite Hi in Hlk1. rewrite Hj in Hlk2. simpl in Hlk1, Hlk2.
  rewrite Hb1 in Hlk1. rewrite Hb2 in Hlk2.
  destruct (votes t !! b) as [row|] eqn:Hrow; [|done]. simpl in *.
  eapply (ranks_of_NoDup_lookup row); [|done..].
  apply normalized_NoDup. rewrite Forall_forall in Hnorm. apply Hnorm.
  by eapply list_elem_of_lookup_2.
Qed.

(** X11. In a table built from aligned ballots, a candidate with rank 1
    on more than half of the ballots is the last candidate, no other
    candidate has as many, and [compute_winner] returns its name. *)
Theorem majority_wins votes0 names0 t i cnt col x :
  VoteTable_init votes0 names0 = Ok t → aligned votes0 names0 →
  candidates t !! i = Some (cnt, col, x) →
  Z.of_nat (N_votes t) < 2 * tally col 1 →
  compute_winner t = Ok (Some x)
  ∧ S i = length (candidates t)
  ∧ ∀ j cnt' col' x', candidates t !! j = Some (cnt', col', x') → j ≠ i →
      2 * tally col' 1 ≤ Z.of_nat (N_votes t).
Proof.
  intros Hinit Hal Hi Hmaj.
  destruct (VoteTable_init_inv _ _ _ Hinit) as (Hinv & _).
  destruct (table_inv_split _ Hinv) as (l & [[cnt' col'] w] & Hcand).
  assert (candidates t !! length l = Some (cnt', col', w)) as Hlast.
  { rewrite Hcand. by apply list_lookup_middle. }
  pose proof (lookup_lt_Some _ _ _ Hi) as Hlt.
  rewrite Hcand, length_app in Hlt. simpl in Hlt.
  pose proof (candidates_first_places t i (length l) _ _ Hinv Hi Hlast) as Hle.
  simpl in Hle.
  assert (i = length l) as ->.
  { eapply (majority_unique _ _ _ _ _ _ _ _ _ _ _ Hinit Hal Hi Hlast); lia. }
  rewrite Hlast in Hi. simplify_eq. split_and!.
  - rewrite (compute_winner_inv _ _ _ _ _ Hinv Hcand).
    by rewrite bool_decide_true.
  - rewrite Hcand, length_app. simpl. lia.
  - intros j c2 col2 x2 Hj Hne. apply Z.nlt_ge. intros Hm. apply Hne.
    by eapply (majority_unique _ _ _ _ _ _ _ _ _ _ _ Hinit Hal Hj Hlast).
Qed.


(** ** The store *)

Lemma bind_Ok {A B} (m : M A) (k : A → M B) h b h' :
  bind m k h = Some (Ok (b, h'))
  ↔ ∃ a h1, m h = Some (Ok (a, h1)) ∧ k a h1 = Some (Ok (b, h')).
Proof.
  unfold bind. destruct (m h) as [[[a h1]|e]|]; split.
  - eauto.
  - intros (? & ? & ? & ?). by simplify_eq.
  - done.
  - intros (? & ? & ? & ?). done.
  - done.
  - intros (? & ? & ? & ?). done.
Qed.

Lemma bind_None {A B} (m : M A) (k : A → M B) h :
  bind m k h = None
  ↔ m h = None ∨ ∃ a h1, m h = Some (Ok (a, h1)) ∧ k a h1 = None.
Proof.
  unfold bind. destruct (m h) as [[[a h1]|e]|]; split.
  - eauto.
  - intros [?|(? & ? & ? & ?)]; [done|by simplify_eq].
  - done.
  - intros [?|(? & ? & ? & ?)]; done.
  - auto.
  - done.
Qed.

Lemma ret_Ok {A} (a b : A) h h' :
  ret a h = Some (Ok (b, h')) ↔ a = b ∧ h = h'.
Proof. unfold ret. split; [by intros [= -> ->]|by intros [-> ->]]. Qed.

Lemma deref_Ok r h t h' :
  deref r h = Some (Ok (t, h')) ↔ h !! r = Some t ∧ h' = h.
Proof.
  unfold deref. destruct (h !! r); split.
  - by intros [= -> ->].
  - by intros [[= ->] ->].
  - done.
  - by intros [? _].
Qed.

Lemma lift_Ok {A} (r : res A) h a h' :
  lift r h = Some (Ok (a, h')) ↔ r = Ok a ∧ h' = h.
Proof.
  unfold lift. destruct r; simpl; split.
  - by intros [= -> ->].
  - by intros [[= ->] ->].
  - done.
  - by intros [? _].
Qed.

Lemma new_Ok votes0 names0 h r h' :
  Ref.new votes0 names0 h = Some (Ok (r, h'))
  ↔ ∃ t, VoteTable_init votes0 names0 = Ok t ∧ r = length h ∧ h' = h ++ [t].
Proof.
  unfold Ref.new. rewrite bind_Ok. split.
  - intros (t & h1 & Ht & Halloc). apply lift_Ok in Ht as [Ht ->].
    unfold alloc in Halloc. exists t. by simplify_eq.
  - intros (t & Ht & -> & ->). exists t, h. by rewrite lift_Ok.
Qed.

Lemma with_candidate_eliminated_Ok table index h r h' :
  Ref.with_candidate_eliminated table index h = Some (Ok (r, h'))
  ↔ ∃ t t', h !! table = Some t
      ∧ VoteTable_init (eliminated_votes t index) (eliminated_names t index)
        = Ok t'
      ∧ r = length h ∧ h' = h ++ [t'].
Proof.
  unfold Ref.with_candidate_eliminated. rewrite bind_Ok. split.
  - intros (t & h1 & Ht & Hnew). apply deref_Ok in Ht as [Ht ->].
    apply new_Ok in Hnew as (t' & ? & ? & ?). eauto 10.
  - intros (t & t' & Ht & Hinit & -> & ->). exists t, h.
    split; [by apply deref_Ok|]. apply new_Ok. eauto.
Qed.

Lemma copy_Ok table h r h' :
  Ref.copy table h = Some (Ok (r, h'))
  ↔ ∃ t full, h !! table = Some t
      ∧ VoteTable_init (votes t) (names t) = Ok full
      ∧ r = length h ∧ h' = h ++ [full].
Proof.
  unfold Ref.copy. rewrite bind_Ok. split.
  - intros (t & h1 & Ht & Hnew). apply deref_Ok in Ht as [Ht ->].
    apply new_Ok in Hnew as (t' & ? & ? & ?). eauto 10.
  - intros (t & t' & Ht & Hinit & -> & ->). exists t, h.
    split; [by apply deref_Ok|]. apply new_Ok. eauto.
Qed.

Lemma compute_winner_Ok table h w h' :
  Ref.compute_winner table h = Some (Ok (w, h'))
  ↔ ∃ t, h !! table = Some t ∧ compute_winner t = Ok w ∧ h' = h.
Proof.
  unfold Ref.compute_winner. rewrite bind_Ok. split.
  - intros (t & h1 & Ht & Hw). apply deref_Ok in Ht as [Ht ->].
    apply lift_Ok in Hw as [? ?]. eauto.
  - intros (t & Ht & Hw & ->). exists t, h.
    split; [by apply deref_Ok|by apply lift_Ok].
Qed.

Lemma check_tied_Ok table h b h' :
  Ref.check_tied table h = Some (Ok (b, h'))
  ↔ ∃ t, h !! table = Some t ∧ check_tied t = Ok b ∧ h' = h.
Proof.
  unfold Ref.check_tied. rewrite bind_Ok. split.
  - intros (t & h1 & Ht & Hw). apply deref_Ok in Ht as [Ht ->].
    apply lift_Ok in Hw as [? ?]. eauto.
  - intros (t & Ht & Hw & ->). exists t, h.
    split; [by apply deref_Ok|by apply lift_Ok].
Qed.

(** The operations on tables have no loop: they return or raise. *)
Lemma deref_fuel r h : deref r h ≠ None.
Proof. unfold deref. by destruct (h !! r). Qed.

Lemma new_fuel votes0 names0 h : Ref.new votes0 names0 h ≠ None.
Proof.
  unfold Ref.new, bind, lift, alloc. by destruct (VoteTable_init _ _).
Qed.

Lemma copy_fuel table h : Ref.copy table h ≠ None.
Proof.
  unfold Ref.copy. intros [H|(? & ? & _ & H)]%bind_None.
  - by apply deref_fuel in H.
  - by apply new_fuel in H.
Qed.

Lemma with_candidate_eliminated_fuel table index h :
  Ref.with_candidate_eliminated table index h ≠ None.
Proof.
  unfold Ref.with_candidate_eliminated.
  intros [H|(? & ? & _ & H)]%bind_None.
  - by apply deref_fuel in H.
  - by apply new_fuel in H.
Qed.

Lemma compute_winner_fuel table h : Ref.compute_winner table h ≠ None.
Proof.
  unfold Ref.compute_winner. intros [H|(? & ? & _ & H)]%bind_None.
  - by apply deref_fuel in H.
  - done.
Qed.

Lemma check_tied_fuel table h : Ref.check_tied table h ≠ None.
Proof.
  unfold Ref.check_tied. intros [H|(? & ? & _ & H)]%bind_None.
  - by apply deref_fuel in H.
  - done.
Qed.

(** Allocation keeps every instance of the store as it is. *)
Lemma lookup_alloc (h : heap) (t o : VoteTable) a :
  h !! a = Some o → (h ++ [t]) !! a = Some o.
Proof. intros. by apply lookup_app_l_Some. Qed.

Lemma lookup_new (h : heap) (t : VoteTable) : (h ++ [t]) !! length h = Some t.
Proof. by rewrite lookup_app_r, Nat.sub_diag by lia. Qed.

(** An elimination at an index in range, in a store of tables built
    from aligned ballots. *)
Lemma eliminate_good t t' (i : Z) :
  good t → 0 ≤ i < Z.of_nat (N_candidates t) → (2 ≤ N_candidates t)%nat →
  VoteTable_init (eliminated_votes t i) (eliminated_names t i) = Ok t' →
  good t'
  ∧ names t' ≡ₚ delete (Z.to_nat i) (names t)
  ∧ N_candidates t' = (N_candidates t - 1)%nat
  ∧ N_votes t' = N_votes t.
Proof.
  intros Hgood Hi HN Hinit.
  destruct (eliminated_aligned t i Hgood Hi HN) as (Hnames & Hlen & Hal & Hrows).
  destruct (VoteTable_init_aligned _ _ _ Hinit Hal) as (? & Hperm & ? & ?).
  split_and!; [done| |congruence|congruence]. by rewrite Hperm, Hnames.
Qed.

Lemma copy_good t full :
  good t → VoteTable_init (votes t) (names t) = Ok full →
  good full ∧ names full ≡ₚ names t
  ∧ N_candidates full = N_candidates t.
Proof.
  intros Hgood Hinit.
  destruct (VoteTable_init_aligned _ _ _ Hinit (good_self_aligned _ Hgood))
    as (? & ? & ? & ?).
  destruct Hgood as [_ Hlen]. split_and!; [done|done|congruence].
Qed.

(** ** Indices outside the table, and negative indices *)

Lemma slices_out_of_range {A} (l : list A) (i : Z) :
  l ≠ [] → Z.of_nat (length l) ≤ i ∨ i < - Z.of_nat (length l) →
  Py.slice_to l i ++ Py.slice_from l (i + 1) = l.
Proof.
  intros Hne Hi. assert (length l ≠ 0%nat) by (by destruct l).
  unfold Py.slice_to, Py.slice_from, Py.slice_bound. destruct Hi as [Hi|Hi].
  - rewrite !(proj2 (Z.ltb_ge _ 0)) by lia.
    rewrite take_ge, drop_ge by lia. apply app_nil_r.
  - rewrite !(proj2 (Z.ltb_lt _ 0)) by lia.
    by rewrite !Z.max_r by lia.
Qed.

Lemma slices_negative {A} (l : list A) (i : Z) :
  - Z.of_nat (length l) ≤ i ≤ -2 →
  Py.slice_to l i ++ Py.slice_from l (i + 1)
  = delete (Z.to_nat (Z.of_nat (length l) + i)) l.
Proof.
  intros Hi. unfold Py.slice_to, Py.slice_from, Py.slice_bound.
  rewrite !(proj2 (Z.ltb_lt _ 0)) by lia. rewrite !Z.max_l by lia.
  rewrite delete_take_drop. do 2 f_equal. lia.
Qed.

Lemma slices_minus_one {A} (l : list A) :
  Py.slice_to l (-1) ++ Py.slice_from l (-1 + 1)
  = take (length l - 1) l ++ l.
Proof.
  unfold Py.slice_to, Py.slice_from, Py.slice_bound. simpl.
  f_equal. f_equal. lia.
Qed.

Lemma built_fixed votes0 names0 t :
  VoteTable_init votes0 names0 = Ok t → aligned votes0 names0 →
  VoteTable_init (votes t) (names t) = Ok t.
Proof. intros. by eapply maintain_fixed. Qed.

(** X12. An index that is not an index of the table eliminates nobody and
    raises nothing: for [index >= N_candidates], and for
    [index < -N_candidates], [with_candidate_eliminated] returns a new
    table equal to the one it was called on. *)
Theorem with_candidate_eliminated_out_of_range
    votes0 names0 t (h : list VoteTable) table index :
  VoteTable_init votes0 names0 = Ok t → aligned votes0 names0 →
  h !! table = Some t →
  Z.of_nat (N_candidates t) ≤ index ∨ index < - Z.of_nat (N_candidates t) →
  Ref.with_candidate_eliminated table index h
  = Some (Ok (length h, h ++ [t])).
Proof.
  intros Hinit Hal Ht Hindex.
  destruct (VoteTable_init_aligned _ _ _ Hinit Hal) as (Hgood & _).
  destruct (good_columns _ Hgood) as [Hcols _].
  destruct Hgood as [Hinv Hnames].
  assert (N_candidates t ≠ 0)%nat as HN.
  { pose proof (inv_width _ Hinv). pose proof (inv_nonempty _ Hinv).
    destruct (candidates t); simpl in *; [done|lia]. }
  apply with_candidate_eliminated_Ok. exists t, t. split_and!; [done| |done..].
  unfold eliminated_votes, eliminated_names. cbv zeta.
  rewrite !slices_out_of_range.
  - unfold votes_by_candidate.
    rewrite (p3zip_involutive _ (length (candidates t))).
    + by eapply built_fixed.
    + pose proof (inv_votes_length _ Hinv). pose proof (inv_ballots _ Hinv).
      destruct (votes t); simpl in *; [lia|done].
    + pose proof (inv_nonempty _ Hinv). destruct (candidates t); simpl; [done|lia].
    + apply (inv_votes_width _ Hinv).
  - intros Hnil. rewrite Hnil in Hnames. simpl in Hnames. lia.
  - by rewrite Hnames.
  - intros Hnil. rewrite Hnil in Hcols. simpl in Hcols. lia.
  - by rewrite Hcols.
Qed.

(** X13. Negative indices.  An index [-N_candidates <= index <= -2]
    eliminates the candidate Python's indexing gives it:
    the one at [N_candidates + index].  Index [-1] eliminates nobody:
    the table built has the candidates before the last one twice,
    [2 * N_candidates - 1] candidates in all. *)
Theorem with_candidate_eliminated_negative
    votes0 names0 t (h : list VoteTable) table :
  VoteTable_init votes0 names0 = Ok t → aligned votes0 names0 →
  h !! table = Some t →
  (∀ index, - Z.of_nat (N_candidates t) ≤ index ≤ -2 →
     Ref.with_candidate_eliminated table index h
     = Ref.with_candidate_eliminated table
         (Z.of_nat (N_candidates t) + index) h)
  ∧ (∀ r h', Ref.with_candidate_eliminated table (-1) h = Some (Ok (r, h')) →
       ∃ t', h' !! r = Some t'
         ∧ names t' ≡ₚ take (N_candidates t - 1) (names t) ++ names t
         ∧ N_candidates t' = (2 * N_candidates t - 1)%nat).
Proof.
  intros Hinit Hal Ht.
  destruct (VoteTable_init_aligned _ _ _ Hinit Hal) as (Hgood & _).
  destruct (good_columns _ Hgood) as [Hcols Hrows].
  destruct Hgood as [Hinv Hnames].
  assert (N_candidates t ≠ 0)%nat as HN.
  { pose proof (inv_width _ Hinv). pose proof (inv_nonempty _ Hinv).
    destruct (candidates t); simpl in *; [done|lia]. }
  split.
  - intros index Hindex.
    unfold Ref.with_candidate_eliminated, bind, deref. rewrite Ht.
    unfold eliminated_votes, eliminated_names. cbv zeta.
    rewrite !slices_negative by (rewrite ?Hnames, ?Hcols; lia).
    rewrite !slices_delete by lia. by rewrite Hnames, Hcols.
  - intros r h' Hwce.
    apply with_candidate_eliminated_Ok in Hwce
      as (t0 & t' & Ht0 & Hinit' & -> & ->).
    rewrite Ht in Ht0. injection Ht0 as <-.
    exists t'. split; [apply lookup_new|].
    revert Hinit'. unfold eliminated_votes, eliminated_names. cbv zeta.
    rewrite !slices_minus_one, Hnames, Hcols. intros Hinit'.
    apply VoteTable_init_aligned in Hinit' as (_ & Hperm & _ & HN').
    + split; [done|]. rewrite HN', length_app, length_take. lia.
    + unfold aligned. pose proof (p3zip_col_length
        (take (N_candidates t - 1) (votes_by_candidate t)
         ++ votes_by_candidate t)) as Hlen.
      eapply Forall_impl; [exact Hlen|]. intros row ->.
      rewrite !length_app, !length_take. lia.
Qed.

(** ** The runoff loop *)

Lemma compute_winner_Some t w :
  compute_winner t = Ok (Some w) → last (names t) = Some w.
Proof.
  unfold compute_winner. intros H.
  apply res_bind_Ok in H as (c & _ & H).
  apply res_bind_Ok in H as (first & _ & H).
  destruct (negb _); [|done].
  apply res_bind_Ok in H as (w' & Hw & [= ->]).
  unfold Py.getitem_neg in Hw. simpl in Hw.
  rewrite <-head_lookup, head_reverse in Hw.
  destruct (last (names t)); by simplify_eq.
Qed.

Lemma round_end_recorded t e : round_end_ok t e → recorded e ∈ names t.
Proof.
  destruct e as [w|u]; simpl.
  - intros H%compute_winner_Some. by eapply last_Some_elem_of.
  - intros (_ & _ & ->). by apply list_elem_of_singleton.
Qed.

Section runoff.
Context (input : string → string) (name : string).

(** [print_table] never returns. *)
Lemma print_table_Ok table h u h' :
  Ref.print_table table h ≠ Some (Ok (u, h')).
Proof.
  unfold Ref.print_table, bind, deref, lift, print_table.
  by destruct (h !! table).
Qed.

Lemma print_table_fuel table h : Ref.print_table table h ≠ None.
Proof.
  unfold Ref.print_table, bind, deref, lift, print_table.
  by destruct (h !! table).
Qed.

Lemma print_table_Raise table (h : heap) t :
  h !! table = Some t →
  Ref.print_table table h = Some (Raise AttributeError).
Proof. unfold Ref.print_table, bind, deref. by intros ->. Qed.

(** [select_loser] returns in one case only: in automated mode, when
    [check_tied] is false, and then with the index 0. *)
Lemma select_loser_Ok is_automated table h i h' :
  select_loser input name is_automated table h = Some (Ok (i, h')) →
  is_automated = true ∧ i = Index 0 ∧ h' = h
  ∧ ∃ t, h !! table = Some t ∧ check_tied t = Ok false.
Proof.
  unfold select_loser. destruct is_automated; simpl; intros H.
  - apply bind_Ok in H as (tied & h1 & Htied & H).
    apply check_tied_Ok in Htied as (t & Ht & Htied & ->).
    destruct tied; simpl in H.
    + apply bind_Ok in H as (? & ? & H & _). by apply print_table_Ok in H.
    + apply ret_Ok in H as [<- <-]. eauto 10.
  - apply bind_Ok in H as (? & ? & H & _). by apply print_table_Ok in H.
Qed.

Lemma select_loser_fuel is_automated table h :
  select_loser input name is_automated table h ≠ None.
Proof.
  unfold select_loser. destruct is_automated; simpl.
  - intros [H|(tied & ? & _ & H)]%bind_None; [by apply check_tied_fuel in H|].
    destruct tied; simpl in H; [|done].
    apply bind_None in H as [H|(? & ? & _ & H)]; [|done].
    by apply print_table_fuel in H.
  - intros [H|(? & ? & _ & H)]%bind_None; [|done].
    by apply print_table_fuel in H.
Qed.

(** The turn of the loop that eliminates at index 0 in automated
    mode. *)
Lemma loser_turn {B} (self : VoteTable) table (k : nat → M B) h :
  (shown ←ₛ (if negb true
             then lift (loser_name self (Index 0)) else ret EmptyString);
   table' ←ₛ eliminate_loser table (Index 0); k table') h
  = (table' ←ₛ Ref.with_candidate_eliminated table 0; k table') h.
Proof. reflexivity. Qed.

Lemma good_two t :
  good t → N_candidates t ≠ 1%nat → (2 ≤ N_candidates t)%nat.
Proof.
  intros [Hinv Hlen] HN. pose proof (inv_nonempty _ Hinv) as Hne.
  rewrite (inv_names _ Hinv), length_fmap in Hlen.
  destruct (candidates t); simpl in *; [done|lia].
Qed.

(** What the [while True] loop returns, started on a table built from
    aligned ballots. *)
Lemma while_true_Ok is_automated fuel table h t table' e h' :
  good t → h !! table = Some t →
  while_true input name is_automated fuel table h
    = Some (Ok ((table', e), h')) →
  h `prefix_of` h'
  ∧ ∃ t', h' !! table' = Some t' ∧ good t' ∧ names t' ⊆+ names t
          ∧ round_end_ok t' e.
Proof.
  revert table h t. induction fuel as [|fuel IH];
    intros table h t Hgood Ht H; [done|].
  simpl in H. apply bind_Ok in H as (winner & h1 & Hw & H).
  apply compute_winner_Ok in Hw as (t0 & Ht0 & Hw & ->).
  assert (t0 = t) as -> by congruence.
  destruct winner as [w|].
  { apply ret_Ok in H as [[= <- <-] <-]. split; [done|]. eauto. }
  apply bind_Ok in H as (self & h1 & Hself & H).
  apply deref_Ok in Hself as [Hself ->].
  assert (self = t) as -> by congruence.
  case_decide as HN.
  { destruct (names t) as [|u [|??]] eqn:Hnames; try done.
    apply ret_Ok in H as [[= <- <-] <-]. split; [done|].
    exists t. rewrite Hnames. split_and!; done. }
  apply bind_Ok in H as (i & h1 & Hi & H).
  pose proof (good_two _ Hgood HN) as HN2.
  apply select_loser_Ok in Hi as (-> & -> & -> & _).
  rewrite loser_turn in H.
  apply bind_Ok in H as (table1 & h1 & Helim & H).
  apply with_candidate_eliminated_Ok in Helim
    as (t0 & t1 & Ht0' & Hinit & -> & ->).
  assert (t0 = t) as -> by congruence.
  destruct (eliminate_good t t1 0) as (Hgood1 & Hnames1 & _);
    [done|lia|done|done|].
  destruct (IH (length h) (h ++ [t1]) t1)
    as (Hpre & t' & Ht' & Hgood' & Hsub & He);
    [done|apply lookup_new|done|].
  split.
  - etrans; [|done]. by apply prefix_app_r.
  - exists t'. split_and!; [done|done| |done].
    etrans; [done|]. rewrite Hnames1. apply submseteq_delete.
Qed.

(** With as much fuel as the table has candidates, the loop does not
    run out of fuel: it returns or raises. *)
Lemma while_true_fuel is_automated fuel table h t :
  good t → h !! table = Some t → (N_candidates t ≤ fuel)%nat →
  while_true input name is_automated fuel table h ≠ None.
Proof.
  revert table h t. induction fuel as [|fuel IH];
    intros table h t Hgood Ht HN.
  { destruct Hgood as [Hinv Hlen].
    pose proof (inv_nonempty _ Hinv) as Hne.
    rewrite (inv_names _ Hinv), length_fmap in Hlen.
    destruct (candidates t); simpl in *; [done|lia]. }
  simpl. intros H. apply bind_None in H as [H|(winner & h1 & Hw & H)].
  { by apply compute_winner_fuel in H. }
  apply compute_winner_Ok in Hw as (t0 & Ht0 & Hw & ->).
  destruct winner as [w|]; [done|].
  apply bind_None in H as [H|(self & h1 & Hself & H)].
  { by apply deref_fuel in H. }
  apply deref_Ok in Hself as [Hself ->].
  assert (self = t) as -> by congruence.
  case_decide as HN1.
  { by destruct (names t) as [|u [|??]]. }
  pose proof (good_two _ Hgood HN1) as HN2.
  apply bind_None in H as [H|(i & h1 & Hi & H)].
  { by apply select_loser_fuel in H. }
  apply select_loser_Ok in Hi as (-> & -> & -> & _).
  rewrite loser_turn in H.
  apply bind_None in H as [H|(table1 & h1 & Helim & H)].
  { by apply with_candidate_eliminated_fuel in H. }
  apply with_candidate_eliminated_Ok in Helim
    as (t0' & t1 & Ht0' & Hinit & -> & ->).
  assert (t0' = t) as -> by congruence.
  destruct (eliminate_good t t1 0) as (Hgood1 & _ & HN' & _);
    [done|lia|done|done|].
  eapply (IH (length h) (h ++ [t1]) t1); [done|apply lookup_new|lia|done].
Qed.

(** More fuel does not change a result. *)
Lemma while_true_mono is_automated fuel fuel' table h r :
  (fuel ≤ fuel')%nat →
  while_true input name is_automated fuel table h = Some r →
  while_true input name is_automated fuel' table h = Some r.
Proof.
  revert fuel' table h. induction fuel as [|fuel IH];
    intros fuel' table h Hle H; [done|].
  destruct fuel' as [|fuel']; [lia|]. simpl in *.
  unfold bind in *.
  destruct (Ref.compute_winner table h) as [[[[w|] h1]|]|]; try done.
  destruct (deref table h1) as [[[self h2]|]|]; try done.
  case_decide; [done|].
  destruct (select_loser _ _ _ _ h2) as [[[i h3]|]|]; try done.
  destruct ((if negb is_automated
             then lift (loser_name self i) else ret EmptyString) h3)
    as [[[shown h4]|]|]; try done.
  destruct (eliminate_loser _ _ h4) as [[[table1 h5]|]|]; try done.
  apply IH; [lia|done].
Qed.

Lemma index_Ok {A} `{EqDecision A} (l : list A) x i :
  Py.index l x = Ok i → l !! i = Some x.
Proof.
  revert i. induction l as [|y l IH]; intros i Hi; simpl in Hi; [done|].
  case_decide; [by simplify_eq|].
  apply res_bind_Ok in Hi as (j & Hj & [= <-]). by apply IH.
Qed.

(** One iteration of the [for] loop, started on a table built from
    aligned ballots: one candidate of the current table is recorded,
    and, unless the rank is the last one, the next table has the other
    candidates. *)
Lemma round_body_Ok is_automated fuel N rank st h t st' h' :
  good t → h !! cur_table st = Some t →
  (rank ≠ (N - 1)%nat → (2 ≤ N_candidates t)%nat) →
  round_body input name is_automated fuel N rank st h
    = Some (Ok (st', h')) →
  ∃ w, w ∈ names t
    ∧ cur_ranking st' ++ cur_ineligible st'
      ≡ₚ w :: (cur_ranking st ++ cur_ineligible st)
    ∧ (rank ≠ (N - 1)%nat →
       ∃ t', h' !! cur_table st' = Some t' ∧ good t'
             ∧ names t ≡ₚ w :: names t'
             ∧ N_candidates t' = (N_candidates t - 1)%nat).
Proof.
  intros Hgood Ht HN H. unfold round_body in H.
  apply bind_Ok in H as (full_table & h1 & Hcopy & H).
  apply copy_Ok in Hcopy as (t0 & full & Ht0 & Hfull & -> & ->).
  assert (t0 = t) as -> by congruence.
  destruct (copy_good _ _ Hgood Hfull) as (Hgfull & Hnfull & HNfull).
  apply bind_Ok in H as ([table1 e] & h2 & Hloop & H).
  eapply (while_true_Ok _ _ _ _ t) in Hloop
    as (Hpre & t1 & Ht1 & Hg1 & Hsub & Hend);
    [|exact Hgood|by apply lookup_alloc].
  pose proof (round_end_recorded _ _ Hend) as Hrec.
  assert (recorded e ∈ names t) as Hw by (by eapply elem_of_submseteq).
  assert (match e with
          | Winner winner => cur_ranking st ++ [winner]
          | Ineligible _ => cur_ranking st
          end ++
          match e with
          | Winner _ => cur_ineligible st
          | Ineligible unlucky_soul => cur_ineligible st ++ [unlucky_soul]
          end ≡ₚ recorded e :: (cur_ranking st ++ cur_ineligible st))
    as Hperm.
  { destruct e; simpl.
    - rewrite <-app_assoc. simpl. symmetry. apply Permutation_middle.
    - rewrite app_assoc. symmetry. apply Permutation_cons_append. }
  simpl in H. case_decide as Hrank.
  - apply bind_Ok in H as (full' & h3 & Hderef & H).
    apply deref_Ok in Hderef as [Hderef ->].
    assert (full' = full) as ->.
    { eapply prefix_lookup_Some in Hpre; [|apply lookup_new]. congruence. }
    apply bind_Ok in H as (i & h3 & Hidx & H).
    apply lift_Ok in Hidx as [Hidx ->]. apply index_Ok in Hidx.
    apply bind_Ok in H as (table2 & h3 & Helim & H).
    apply ret_Ok in H as [<- <-]. simpl.
    apply with_candidate_eliminated_Ok in Helim
      as (full' & t2 & Hfull' & Hinit & -> & ->).
    assert (full' = full) as -> by congruence.
    destruct (eliminate_good full t2 (Z.of_nat i)) as (Hg2 & Hn2 & HN2 & _);
      [done| | |done|].
    { apply lookup_lt_Some in Hidx. destruct Hgfull as [_ Hl]. lia. }
    { specialize (HN Hrank). lia. }
    rewrite Nat2Z.id in Hn2.
    exists (recorded e). split_and!; [done|done|]. intros _.
    exists t2. split_and!; [apply lookup_new|done| |lia].
    by rewrite <-Hnfull, Hn2, <-delete_Permutation.
  - apply ret_Ok in H as [<- <-]. simpl.
    exists (recorded e). split_and!; [done|done|done].
Qed.

End runoff.

(** ** The contest *)

Section contest.
Context (input : string → string) (name : string) (is_automated : bool).

Lemma round_body_fuel fuel N rank st h t :
  good t → h !! cur_table st = Some t → (N_candidates t ≤ fuel)%nat →
  round_body input name is_automated fuel N rank st h ≠ None.
Proof.
  intros Hgood Ht HN H. unfold round_body in H.
  apply bind_None in H as [H|(full_table & h1 & Hcopy & H)].
  { by apply copy_fuel in H. }
  apply copy_Ok in Hcopy as (t0 & full & Ht0 & Hfull & -> & ->).
  apply bind_None in H as [H|(te & h2 & _ & H)].
  { eapply while_true_fuel in H; [done..| |done]. by apply lookup_alloc. }
  simpl in H. case_decide; [|done].
  apply bind_None in H as [H|(? & ? & _ & H)].
  { by apply deref_fuel in H. }
  apply bind_None in H as [H|(? & ? & _ & H)]; [done|].
  apply bind_None in H as [H|(? & ? & _ & H)]; [|done].
  by apply with_candidate_eliminated_fuel in H.
Qed.

Lemma round_body_mono fuel fuel' N rank st h r :
  (fuel ≤ fuel')%nat →
  round_body input name is_automated fuel N rank st h = Some r →
  round_body input name is_automated fuel' N rank st h = Some r.
Proof.
  intros Hle H. unfold round_body, bind in *.
  destruct (Ref.copy _ h) as [[[full_table h1]|]|]; try done.
  destruct (while_true _ _ _ fuel _ h1) as [r1|] eqn:Hloop; [|done].
  by rewrite (while_true_mono _ _ _ _ _ _ _ _ Hle Hloop).
Qed.

Lemma for_rank_mono fuel fuel' N ranks st h r :
  (fuel ≤ fuel')%nat →
  for_rank input name is_automated fuel N ranks st h = Some r →
  for_rank input name is_automated fuel' N ranks st h = Some r.
Proof.
  intros Hle. revert st h. induction ranks as [|rank ranks IH];
    intros st h H; simpl in *; [done|].
  unfold bind in *.
  destruct (round_body _ _ _ fuel _ _ _ h) as [r1|] eqn:Hbody; [|done].
  rewrite (round_body_mono _ _ _ _ _ _ _ Hle Hbody).
  destruct r1 as [[st1 h1]|]; [|done]. by apply IH.
Qed.

(** The [for] loop over the ranks [rank .. N - 1], started on a table of
    [N - rank] candidates: the names recorded by the end are those
    recorded before together with the candidates of the table. *)
Lemma for_rank_Ok fuel N k rank st h t st' h' :
  (rank + S k = N)%nat →
  good t → h !! cur_table st = Some t → N_candidates t = S k →
  for_rank input name is_automated fuel N (seq rank (S k)) st h
    = Some (Ok (st', h')) →
  cur_ranking st' ++ cur_ineligible st'
  ≡ₚ (cur_ranking st ++ cur_ineligible st) ++ names t.
Proof.
  revert rank st h t. induction k as [|k IH];
    intros rank st h t HNk Hgood Ht HN H.
  - simpl in H. apply bind_Ok in H as (st1 & h1 & Hbody & H).
    apply ret_Ok in H as [-> ->].
    eapply round_body_Ok in Hbody as (w & Hw & Hperm & _);
      [|first [done|intros; lia]..].
    destruct Hgood as [_ Hlen]. rewrite HN in Hlen.
    destruct (names t) as [|u [|??]]; simplify_eq/=.
    apply list_elem_of_singleton in Hw as ->.
    rewrite Hperm. apply Permutation_cons_append.
  - change (seq rank (S (S k))) with (rank :: seq (S rank) (S k)) in H.
    simpl in H. apply bind_Ok in H as (st1 & h1 & Hbody & H).
    eapply round_body_Ok in Hbody as (w & Hw & Hperm & Hnext);
      [|first [done|intros; lia]..].
    destruct Hnext as (t1 & Ht1 & Hg1 & Hnames & HN1); [lia|].
    eapply IH in H; [|lia|done|done|lia].
    rewrite H, Hperm, Hnames. simpl.
    by rewrite <-Permutation_middle.
Qed.

Lemma for_rank_fuel fuel N k rank st h t :
  (rank + S k = N)%nat →
  good t → h !! cur_table st = Some t → N_candidates t = S k →
  (S k ≤ fuel)%nat →
  for_rank input name is_automated fuel N (seq rank (S k)) st h ≠ None.
Proof.
  revert rank st h t. induction k as [|k IH];
    intros rank st h t HNk Hgood Ht HN Hfuel H.
  - simpl in H. apply bind_None in H as [H|(st1 & h1 & Hbody & H)]; [|done].
    eapply round_body_fuel in H; [done..|lia].
  - change (seq rank (S (S k))) with (rank :: seq (S rank) (S k)) in H.
    simpl in H. apply bind_None in H as [H|(st1 & h1 & Hbody & H)].
    { eapply round_body_fuel in H; [done..|lia]. }
    eapply round_body_Ok in Hbody as (w & Hw & Hperm & Hnext);
      [|first [done|intros; lia]..].
    destruct Hnext as (t1 & Ht1 & Hg1 & Hnames & HN1); [lia|].
    eapply IH in H; [done|lia|done|done|lia|lia].
Qed.

End contest.

(** ** Claims *)

Section claims.
Context (input : string → string) (name : string).


(** C4, as the code has it. In automated mode, on a table the
    constructor returned with at least two candidates and no majority,
    one turn of the loop eliminates the candidate at index 0 unless
    [check_tied] holds, that is unless the two strongest candidates (the
    last two of the table) have the same count vector, not all zeros.  In
    that case, and only then, the turn eliminates no candidate: it goes
    on to ask the operator, and [print_table], called before the prompt,
    raises [AttributeError], which ends the run. *)
Theorem elimination_choice votes0 names0 t h table fuel l k2 k1 :
  VoteTable_init votes0 names0 = Ok t →
  h !! table = Some t →
  candidates t = l ++ [k2; k1] →
  compute_winner t = Ok None →
  N_candidates t ≠ 1%nat →
  let tied := bool_decide (k1.1.1 = k2.1.1 ∧ ¬ Forall (λ c, c = 0) k1.1.1) in
  select_loser input name true table h
    = (if tied then Some (Raise AttributeError)
       else Some (Ok (Index 0, h)))
  ∧ while_true input name true (S fuel) table h
    = (if tied then Some (Raise AttributeError)
       else (table' ←ₛ Ref.with_candidate_eliminated table 0;
             while_true input name true fuel table') h).
Proof.
  intros Hinit Ht Hcand Hw HN tied.
  destruct (VoteTable_init_inv _ _ _ Hinit) as (Hinv & _).
  pose proof (check_tied_inv _ _ _ _ Hinv Hcand) as Htied.
  assert (select_loser input name true table h
          = (if tied then Some (Raise AttributeError)
             else Some (Ok (Index 0, h)))) as Hsel.
  { unfold select_loser. simpl. unfold bind at 1, Ref.check_tied.
    unfold bind at 1, deref, lift. rewrite Ht, Htied. simpl. subst tied.
    case_bool_decide; simpl; [|done].
    unfold bind. by rewrite (print_table_Raise _ _ _ Ht). }
  split; [done|]. simpl.
  unfold bind at 1. unfold Ref.compute_winner, bind at 1, deref, lift.
  rewrite Ht, Hw. simpl. unfold bind at 1, deref. rewrite Ht.
  rewrite decide_False by done. unfold bind at 1. rewrite Hsel.
  by destruct tied.
Qed.

End claims.

(** ** Ballot entries by candidate name *)

Lemma p3zip_entry {A} (m : list (list A)) c i j (x : A) :
  Forall (λ row, length row = c) m →
  (∃ col, p3zip m !! j = Some col ∧ col !! i = Some x)
  ↔ (∃ row, m !! i = Some row ∧ row !! j = Some x).
Proof.
  intros Hm. pose proof (p3zip_lookup m c i j Hm) as H. split.
  - intros (col & Hcol & Hx). rewrite Hcol in H. simpl in H.
    rewrite Hx in H. symmetry in H. apply bind_Some in H. done.
  - intros (row & Hrow & Hx). rewrite Hrow in H. simpl in H.
    rewrite Hx in H. apply bind_Some in H. done.
Qed.

Lemma entry_candidates t b x v :
  table_inv t →
  entry t b x v ↔ ∃ k : key, k ∈ candidates t ∧ k.2 = x ∧ k.1.2 !! b = Some v.
Proof.
  intros Hinv. pose proof (inv_columns _ Hinv) as Hcols.
  pose proof (inv_names _ Hinv) as Hnames.
  pose proof (inv_votes_width _ Hinv) as Hwidth.
  unfold votes_by_candidate in Hcols. split.
  - intros (j & ballot & Hj & Hb & Hv).
    rewrite Hnames in Hj. apply list_lookup_fmap_Some in Hj as (k & -> & Hk).
    exists k. split_and!; [by eapply list_elem_of_lookup_2|done|].
    destruct (proj2 (p3zip_entry _ _ b j v Hwidth)) as (col & Hcol & Hcv);
      [eauto|].
    rewrite Hcols, !list_lookup_fmap, Hk in Hcol. simpl in Hcol. congruence.
  - intros (k & Hk & <- & Hv). apply list_elem_of_lookup_1 in Hk as [j Hj].
    destruct (proj1 (p3zip_entry _ _ b j v Hwidth)) as (row & Hrow & Hrv).
    { exists k.1.2. split; [|done].
      by rewrite Hcols, !list_lookup_fmap, Hj. }
    exists j, row. split_and!; [|done|done].
    by rewrite Hnames, list_lookup_fmap, Hj.
Qed.

(** The entries of a table built from aligned ballots are the normalized
    entries of the ballots given. *)
Lemma VoteTable_init_entry votes0 names0 t b x v :
  aligned votes0 names0 →
  VoteTable_init votes0 names0 = Ok t →
  entry t b x v
  ↔ ∃ j row row', names0 !! j = Some x ∧ votes0 !! b = Some row
                  ∧ get_rank_order row = Ok row' ∧ row' !! j = Some v.
Proof.
  intros Hal Hinit.
  destruct (VoteTable_init_inv _ _ _ Hinit)
    as (Hinv & HNv & HNc & vs & cnts & Hvs & Hcnts & Hs).
  pose proof (sorted_Permutation _ _ _ Hs) as Hperm.
  assert (Forall (λ row, length row = length names0) vs) as Hvsw.
  { apply Forall_forall. intros row' Hrow'.
    apply list_elem_of_lookup_1 in Hrow' as [i Hi].
    destruct (Forall2_lookup_r _ _ _ _ _ Hvs Hi) as (row & Hrow & Hrank).
    rewrite (get_rank_order_length _ _ Hrank).
    unfold aligned in Hal. rewrite Forall_forall in Hal. apply Hal.
    by eapply list_elem_of_lookup_2. }
  rewrite (entry_candidates _ _ _ _ Hinv). split.
  - intros ([[c col] n] & Hk & Hn & Hv). simpl in *. subst n.
    rewrite Hperm in Hk. apply list_elem_of_lookup_1 in Hk as [j Hj].
    apply zip3_lookup in Hj as (_ & Hcol & Hx).
    destruct (proj1 (p3zip_entry vs _ b j v Hvsw)) as (row' & Hrow' & Hrv);
      [eauto|].
    destruct (Forall2_lookup_r _ _ _ _ _ Hvs Hrow') as (row & Hrow & Hrank).
    eauto 10.
  - intros (j & row & row' & Hx & Hrow & Hrank & Hv).
    destruct (Forall2_lookup_l _ _ _ _ _ Hvs Hrow) as (row2 & Hrow2 & Hrank2).
    assert (row2 = row') as -> by congruence.
    destruct (proj2 (p3zip_entry vs _ b j v Hvsw)) as (col & Hcol & Hcv);
      [eauto|].
    assert (j < length cnts)%nat as Hj.
    { apply Forall2_length in Hcnts. rewrite <-Hcnts, length_zip_with.
      apply lookup_lt_Some in Hx, Hcol. lia. }
    apply lookup_lt_is_Some in Hj as [c Hc].
    exists (c, col, x). split_and!; [|done|done].
    rewrite Hperm. eapply list_elem_of_lookup_2. apply zip3_lookup. eauto.
Qed.

Lemma delete_lookup_shift {A} (l : list A) i j :
  delete i l !! j = l !! (if decide (j < i)%nat then j else S j).
Proof.
  case_decide; [by apply list_lookup_delete_lt|].
  apply list_lookup_delete_ge. lia.
Qed.

(** The ballots handed to the constructor by [with_candidate_eliminated]
    hold, for each remaining candidate, the entry the ballot had. *)
Lemma eliminated_entry t (i : Z) b j x row v :
  good t → NoDup (names t) →
  0 ≤ i < Z.of_nat (N_candidates t) →
  eliminated_names t i !! j = Some x →
  eliminated_votes t i !! b = Some row →
  row !! j = Some v ↔ entry t b x v.
Proof.
  intros Hgood Hnd Hi Hx Hrow.
  destruct (good_columns t Hgood) as [Hcols Hrows].
  destruct Hgood as [Hinv Hlen].
  pose proof (inv_votes_width _ Hinv) as Hwidth.
  unfold eliminated_names in Hx. unfold eliminated_votes in Hrow.
  cbv zeta in Hrow. rewrite slices_delete in Hx by lia.
  rewrite slices_delete in Hrow by lia.
  rewrite delete_lookup_shift in Hx.
  set (p := if decide (j < Z.to_nat i)%nat then j else S j) in *.
  assert (Forall (λ col, length col = N_votes t)
            (delete (Z.to_nat i) (votes_by_candidate t))) as Hdel.
  { apply Forall_forall. intros col Hcol. rewrite Forall_forall in Hrows.
    apply Hrows. by eapply list_elem_of_delete_inv. }
  pose proof (p3zip_entry _ _ j b v Hdel) as H1.
  rewrite delete_lookup_shift in H1. fold p in H1.
  pose proof (p3zip_entry _ _ b p v Hwidth) as H2.
  fold (votes_by_candidate t) in H2. split.
  - intros Hv. destruct (proj1 H1) as (col & Hcol & Hcv); [eauto|].
    destruct (proj1 H2) as (ballot & Hb & Hbv); [eauto|].
    exists p, ballot. done.
  - intros (j0 & ballot & Hj0 & Hb & Hbv).
    assert (j0 = p) as -> by (by eapply NoDup_lookup).
    destruct (proj2 H2) as (col & Hcol & Hcv); [eauto|].
    destruct (proj2 H1) as (row2 & Hrow2 & Hrv); [eauto|].
    congruence.
Qed.

(** Elimination keeps, on every ballot, which of the remaining
    candidates are ranked and in which order. *)
Lemma eliminate_preferences t t' (i : Z) :
  good t → NoDup (names t) →
  0 ≤ i < Z.of_nat (N_candidates t) → (2 ≤ N_candidates t)%nat →
  VoteTable_init (eliminated_votes t i) (eliminated_names t i) = Ok t' →
  (∀ b x, x ∈ names t' → entry t b x None ↔ entry t' b x None)
  ∧ (∀ b x y r1 r2,
       x ∈ names t' → y ∈ names t' →
       entry t b x (Some r1) → entry t b y (Some r2) → r1 < r2 →
       ∃ r1' r2', entry t' b x (Some r1') ∧ entry t' b y (Some r2')
                  ∧ r1' < r2').
Proof.
  intros Hgood Hnd Hi HN Hinit.
  destruct (eliminated_aligned t i Hgood Hi HN) as (Hnames & Hlen & Hal & Hrows).
  destruct (VoteTable_init_aligned _ _ _ Hinit Hal) as (Hgood' & Hperm & _ & _).
  pose proof (λ b x v, VoteTable_init_entry _ _ _ b x v Hal Hinit) as Hentry.
  assert (∀ b x v, entry t b x v →
            ∃ row, eliminated_votes t i !! b = Some row) as Hrow.
  { intros b x v (j & ballot & _ & Hb & _). apply lookup_lt_is_Some.
    rewrite Hrows, <-(inv_votes_length _ (proj1 Hgood)).
    by eapply lookup_lt_Some. }
  assert (∀ x, x ∈ names t' → ∃ j, eliminated_names t i !! j = Some x) as Hpos.
  { intros x Hx. rewrite Hperm in Hx. by apply list_elem_of_lookup_1. }
  split.
  - intros b x Hx. destruct (Hpos x Hx) as [j Hj]. split.
    + intros He. destruct (Hrow _ _ _ He) as [row Hr].
      apply (eliminated_entry t i b j x row None) in He; [|done..].
      destruct (get_rank_order_total row) as [out Hout].
      apply Hentry. exists j, row, out. split_and!; [done..|].
      by apply (get_rank_order_abstains row).
    + intros He. apply Hentry in He as (j' & row & out & Hj' & Hr & Hout & Hv).
      apply (eliminated_entry t i b j' x row None); [done..|].
      by apply (get_rank_order_abstains row out).
  - intros b x y r1 r2 Hx Hy Hex Hey Hlt.
    destruct (Hpos x Hx) as [jx Hjx], (Hpos y Hy) as [jy Hjy].
    destruct (Hrow _ _ _ Hex) as [row Hr].
    apply (eliminated_entry t i b jx x row (Some r1)) in Hex; [|done..].
    apply (eliminated_entry t i b jy y row (Some r2)) in Hey; [|done..].
    destruct (get_rank_order_total row) as [out Hout].
    destruct (get_rank_order_monotone row out jx jy r1 r2 Hout Hex Hey Hlt)
      as (r1' & r2' & H1 & H2 & Hlt').
    exists r1', r2'. split_and!; [| |done]; apply Hentry; eauto 10.
Qed.

(** C7, as the code has it. On a table built by the constructor from
    aligned ballots, with [N >= 2] candidates, and for an index in range:
    whenever [with_candidate_eliminated] returns, it returns a new
    instance, fully rebuilt, with [N - 1] candidates whose names are the
    names of the original without the one at the index (in the order of
    the rebuilt table, which need not be the order they had), with as many
    ballots as the original, each one entry shorter; every instance of
    the store before the call, the original among them, is left as it
    was; and, the names being distinct, every ballot abstains on the same
    remaining candidates as before and ranks them in the same order as
    before. *)
Theorem with_candidate_eliminated_frame votes0 names0 t h table index r h' :
  aligned votes0 names0 →
  VoteTable_init votes0 names0 = Ok t →
  h !! table = Some t →
  (2 ≤ N_candidates t)%nat →
  0 ≤ index < Z.of_nat (N_candidates t) →
  Ref.with_candidate_eliminated table index h = Some (Ok (r, h')) →
  ∃ t',
    h !! r = None ∧ h' !! r = Some t'
    ∧ (∀ a o, h !! a = Some o → h' !! a = Some o)
    ∧ h' !! table = Some t
    ∧ table_inv t'
    ∧ N_candidates t' = (N_candidates t - 1)%nat
    ∧ length (names t') = (N_candidates t - 1)%nat
    ∧ length (counts t') = (N_candidates t - 1)%nat
    ∧ names t' ≡ₚ delete (Z.to_nat index) (names t)
    ∧ length (votes t') = length (votes t)
    ∧ Forall (λ b, length b = N_candidates t) (votes t)
    ∧ Forall (λ b, length b = (N_candidates t - 1)%nat) (votes t')
    ∧ (NoDup names0 →
       (∀ b x, x ∈ names t' → entry t b x None ↔ entry t' b x None)
       ∧ (∀ b x y r1 r2,
            x ∈ names t' → y ∈ names t' →
            entry t b x (Some r1) → entry t b y (Some r2) → r1 < r2 →
            ∃ r1' r2', entry t' b x (Some r1') ∧ entry t' b y (Some r2')
                       ∧ r1' < r2')).
Proof.
  intros Hal Hinit Ht HN Hidx H.
  destruct (VoteTable_init_aligned _ _ _ Hinit Hal) as (Hgood & Hp0 & _ & _).
  apply with_candidate_eliminated_Ok in H as (t0 & t' & Ht0 & Hinit' & -> & ->).
  assert (t0 = t) as -> by congruence.
  destruct (eliminate_good _ _ _ Hgood Hidx HN Hinit')
    as (Hgood' & Hnames & HN' & HNv).
  assert (NoDup names0 →
          (∀ b x, x ∈ names t' → entry t b x None ↔ entry t' b x None)
          ∧ (∀ b x y r1 r2,
               x ∈ names t' → y ∈ names t' →
               entry t b x (Some r1) → entry t b y (Some r2) → r1 < r2 →
               ∃ r1' r2', entry t' b x (Some r1') ∧ entry t' b y (Some r2')
                          ∧ r1' < r2')) as Hpref.
  { intros Hnd. rewrite <-Hp0 in Hnd. by eapply eliminate_preferences. }
  destruct Hgood as [Hinv Hlen], Hgood' as [Hinv' Hlen'].
  exists t'. split_and!; [| | | | | | | | | | | |exact Hpref].
  - apply lookup_ge_None. lia.
  - apply lookup_new.
  - intros a o Ha. by apply lookup_alloc.
  - by apply lookup_alloc.
  - done.
  - done.
  - lia.
  - rewrite (inv_counts _ Hinv'), !length_fmap.
    rewrite (inv_names _ Hinv'), length_fmap in Hlen'. lia.
  - done.
  - rewrite (inv_votes_length _ Hinv), (inv_votes_length _ Hinv'). done.
  - rewrite <-Hlen, (inv_names _ Hinv), length_fmap.
    apply (inv_votes_width _ Hinv).
  - rewrite <-HN', <-Hlen', (inv_names _ Hinv'), length_fmap.
    apply (inv_votes_width _ Hinv').
Qed.

(** C8. For every contest in automated mode over a table built by the
    constructor from aligned ballots, whatever the operator types: the
    ranking and the ineligible candidates returned hold together the
    candidate names given, each as often as it was given; the ranking is
    no longer than the candidate list; and with distinct candidate names
    no name occurs twice, so the two lists are disjoint. *)
Theorem instant_runoff_partition input name votes0 names0 t h table fuel r h' :
  aligned votes0 names0 →
  VoteTable_init votes0 names0 = Ok t →
  h !! table = Some t →
  instant_runoff input name true fuel table h = Some (Ok (r, h')) →
  ranking r ++ ineligible_candidates r ≡ₚ names0
  ∧ (length (ranking r) ≤ length names0)%nat
  ∧ (NoDup names0 →
     NoDup (ranking r ++ ineligible_candidates r)
     ∧ ∀ x, x ∈ ranking r → x ∉ ineligible_candidates r).
Proof.
  intros Hal Hinit Ht H.
  destruct (VoteTable_init_aligned _ _ _ Hinit Hal) as (Hgood & Hperm & _ & HN).
  unfold instant_runoff in H.
  apply bind_Ok in H as (self & h1 & Hself & H).
  apply deref_Ok in Hself as [Hself ->].
  assert (self = t) as -> by congruence.
  apply bind_Ok in H as (st & h1 & Hloop & H).
  apply ret_Ok in H as [<- <-]. simpl.
  assert (∃ k, N_candidates t = S k) as [k Hk].
  { destruct Hgood as [Hinv Hlen]. pose proof (inv_nonempty _ Hinv) as Hne.
    rewrite (inv_names _ Hinv), length_fmap in Hlen.
    destruct (candidates t); simpl in *; [done|eauto]. }
  rewrite Hk in Hloop.
  eapply (for_rank_Ok _ _ _ _ _ k 0%nat) in Hloop; [|lia|done..].
  simpl in Hloop. rewrite Hperm in Hloop.
  split_and!; [done| |].
  - rewrite <-Hloop, length_app. lia.
  - intros Hnd. rewrite <-Hloop in Hnd. split; [done|].
    apply NoDup_app in Hnd as (_ & Hdisj & _). done.
Qed.

(** C10. For every contest in automated mode over a table of [N]
    candidates built by the constructor from aligned ballots, whatever
    the operator types: the [for] loop makes its [N] rounds with every
    [while True] loop ending within [N] iterations (each makes at most
    one elimination), so the run has a result, a value or an exception;
    and the result is the same under every larger bound. *)
Theorem instant_runoff_terminates input name votes0 names0 t h table fuel :
  aligned votes0 names0 →
  VoteTable_init votes0 names0 = Ok t →
  h !! table = Some t →
  (length names0 ≤ fuel)%nat →
  ∃ r, instant_runoff input name true (length names0) table h = Some r
       ∧ instant_runoff input name true fuel table h = Some r.
Proof.
  intros Hal Hinit Ht Hfuel.
  destruct (VoteTable_init_aligned _ _ _ Hinit Hal) as (Hgood & Hperm & _ & HN).
  assert (∃ k, N_candidates t = S k) as [k Hk].
  { destruct Hgood as [Hinv Hlen]. pose proof (inv_nonempty _ Hinv) as Hne.
    rewrite (inv_names _ Hinv), length_fmap in Hlen.
    destruct (candidates t); simpl in *; [done|eauto]. }
  assert (∀ fuel', (length names0 ≤ fuel')%nat →
            for_rank input name true fuel' (N_candidates t)
              (seq 0 (N_candidates t)) (mkLoop table [] []) h ≠ None) as Hrun.
  { intros fuel' Hle. rewrite Hk.
    eapply (for_rank_fuel _ _ _ _ _ k 0%nat); [lia|done|done|done|lia]. }
  destruct (for_rank input name true (length names0) (N_candidates t)
              (seq 0 (N_candidates t)) (mkLoop table [] []) h)
    as [r0|] eqn:Hr0; [|by destruct (Hrun (length names0))].
  pose proof (for_rank_mono _ _ _ _ _ _ _ _ _ _ Hfuel Hr0) as Hr1.
  unfold instant_runoff, bind at 1, deref. rewrite Ht.
  unfold bind at 1. rewrite Hr0.
  unfold bind at 1, deref. rewrite Ht. unfold bind at 1. rewrite Hr1.
  destruct r0 as [[st h1]|e]; eauto.
Qed.

(** ** The claims on concrete contests *)

Section concrete.
Import Examples.
Local Open Scope string_scope.

Lemma ABC_aligned ballots :
  forallb (λ b : list (option Z), length b =? 3)%nat ballots = true →
  aligned ballots ABC.
Proof.
  intros H. apply Forall_forall. intros b Hb.
  rewrite forallb_forall in H. apply Nat.eqb_eq, H.
  by apply list_elem_of_In.
Defined.

End concrete.

Lemma compute_winner_majority_witness :
  VoteTable_init Examples.majority_ballots Examples.ABC
    = Ok Examples.majority_table
  ∧ ∃ l cnt col w,
      candidates Examples.majority_table = l ++ [(cnt, col, w)]
      ∧ last (names Examples.majority_table) = Some w
      ∧ last (votes_by_candidate Examples.majority_table) = Some col
      ∧ cnt !! 0%nat = Some (tally col 1)
      ∧ N_votes Examples.majority_table = length Examples.majority_ballots
      ∧ compute_winner Examples.majority_table =
          Ok (if bool_decide
                   (Z.of_nat (length Examples.majority_ballots)
                    < 2 * tally col 1)
              then Some w else None).
Proof.
  split; [reflexivity|].
  apply (compute_winner_majority Examples.majority_ballots Examples.ABC).
  reflexivity.
Defined.

Lemma check_tied_strongest_witness :
  VoteTable_init Examples.mirror_ballots ["A"; "B"]%string
    = Ok Examples.mirror_table
  ∧ candidates Examples.mirror_table
    = [] ++ [([1; 1], [Some 1; Some 2], "B"%string);
             ([1; 1], [Some 2; Some 1], "A"%string)]
  ∧ check_tied Examples.mirror_table = Ok true.
Proof.
  split; [reflexivity|]. split; [reflexivity|].
  apply (check_tied_strongest Examples.mirror_ballots ["A"; "B"]%string
           Examples.mirror_table []
           ([1; 1], [Some 1; Some 2], "B"%string)
           ([1; 1], [Some 2; Some 1], "A"%string)); reflexivity.
Defined.

Lemma maintain_sorted_witness :
  maintain (mkVoteTable Examples.mirror_ballots ["A"; "B"]%string [] 0 0)
    = Ok Examples.mirror_table
  ∧ counts Examples.mirror_table = (candidates Examples.mirror_table).*1.*1
  ∧ votes_by_candidate Examples.mirror_table
    = (candidates Examples.mirror_table).*1.*2
  ∧ names Examples.mirror_table = (candidates Examples.mirror_table).*2
  ∧ Forall (λ k : key,
              k.1.1 = count_vector (N_candidates Examples.mirror_table) k.1.2)
           (candidates Examples.mirror_table)
  ∧ (∃ vs, Forall2 (λ b b', get_rank_order b = Ok b')
                   Examples.mirror_ballots vs
           ∧ candidates Examples.mirror_table
             ≡ₚ zip3 (count_vector 2 <$> p3zip vs) (p3zip vs)
                     ["A"; "B"]%string)
  ∧ StronglySorted key_le (candidates Examples.mirror_table)
  ∧ ∀ s, s ≡ₚ candidates Examples.mirror_table →
         StronglySorted key_le s → s = candidates Examples.mirror_table.
Proof.
  split; [reflexivity|].
  apply (maintain_sorted
           (mkVoteTable Examples.mirror_ballots ["A"; "B"]%string [] 0 0)
           Examples.mirror_table).
  reflexivity.
Defined.

(** C3 as worded fails: A and B have the same count vector and B comes
    first, because its ballot column is the smaller one. *)
Lemma name_tie_break_counterexample :
  ¬ (∀ votes0 names0 t,
       VoteTable_init votes0 names0 = Ok t →
       StronglySorted spec_key_le (candidates t)).
Proof.
  intros H.
  specialize (H Examples.mirror_ballots ["A"; "B"]%string
                Examples.mirror_table eq_refl).
  change (candidates Examples.mirror_table)
    with [([1; 1], [Some 1; Some 2], "B"%string);
          ([1; 1], [Some 2; Some 1], "A"%string)] in H.
  apply StronglySorted_inv in H as [_ H].
  apply Forall_cons in H as [[H|[_ H]] _]; simpl in H.
  - by apply (irreflexivity lexico) in H.
  - exact H.
Qed.

Lemma elimination_choice_witness :
  VoteTable_init Examples.weak_tie_ballots Examples.ABC
    = Ok Examples.weak_tie_table
  ∧ compute_winner Examples.weak_tie_table = Ok None
  ∧ select_loser (Examples.typing "1") "P" true 0%nat
      [Examples.weak_tie_table]
    = Some (Ok (Index 0, [Examples.weak_tie_table]))
  ∧ while_true (Examples.typing "1") "P" true 3 0%nat
      [Examples.weak_tie_table]
    = (table' ←ₛ Ref.with_candidate_eliminated 0%nat 0;
       while_true (Examples.typing "1") "P" true 2 table')
        [Examples.weak_tie_table].
Proof.
  split; [reflexivity|]. split; [reflexivity|].
  apply (elimination_choice (Examples.typing "1") "P"
           Examples.weak_tie_ballots Examples.ABC Examples.weak_tie_table
           [Examples.weak_tie_table] 0%nat 2
           [([1; 2; 1], [Some 1; Some 2; Some 2; Some 3], "A"%string)]
           ([1; 2; 1], [Some 2; Some 1; Some 3; Some 2], "B"%string)
           ([2; 0; 2], [Some 3; Some 3; Some 1; Some 1], "C"%string));
    first [reflexivity|done].
Defined.

(** The other case of C4: in [mirror_table] the two candidates have the
    same count vector, [[1; 1]], and no majority; the turn eliminates no
    one and the contest ends with the [AttributeError] of
    [print_table]. *)
Example elimination_choice_tied :
  VoteTable_init Examples.mirror_ballots ["A"; "B"]%string
    = Ok Examples.mirror_table
  ∧ compute_winner Examples.mirror_table = Ok None
  ∧ check_tied Examples.mirror_table = Ok true
  ∧ select_loser (Examples.typing "1") "P" true 0%nat [Examples.mirror_table]
    = Some (Raise AttributeError)
  ∧ ∀ input fuel,
      tabulate input (S fuel) "P" Examples.mirror_ballots ["A"; "B"]%string
        true
      = Some (Raise AttributeError).
Proof. split_and!; reflexivity. Qed.

(** C4 as worded fails: in [weak_tie_table] no candidate has a majority
    and the two weakest candidates, A and B, have the same count vector,
    not all zeros; the loop does not turn to the operator and eliminates
    the candidate at index 0. *)
Lemma weakest_tie_counterexample :
  VoteTable_init Examples.weak_tie_ballots Examples.ABC
    = Ok Examples.weak_tie_table
  ∧ compute_winner Examples.weak_tie_table = Ok None
  ∧ spec_weakest_tied Examples.weak_tie_table = true
  ∧ ∀ input,
      select_loser input "P" true 0%nat [Examples.weak_tie_table]
      = Some (Ok (Index 0, [Examples.weak_tie_table])).
Proof. split_and!; reflexivity. Qed.

(** C9 fails on the code: both candidates get the count vector [[1; 0]],
    so the sort goes on to compare their ballot columns [[1; None]] and
    [[None; 1]], and ordering [None] against [1] raises. *)
Theorem bullet_ballots_raise :
  aligned Examples.bullet_ballots ["A"; "B"]%string
  ∧ Forall (λ b, NoDup (ranks_of b)) Examples.bullet_ballots
  ∧ VoteTable_init Examples.bullet_ballots ["A"; "B"]%string = Raise TypeError
  ∧ ∀ input fuel,
      tabulate input fuel "P" Examples.bullet_ballots ["A"; "B"]%string true
      = Some (Raise TypeError).
Proof.
  split_and!.
  - by repeat constructor.
  - repeat constructor; by intros ?%elem_of_nil.
  - reflexivity.
  - reflexivity.
Qed.

Lemma with_candidate_eliminated_frame_witness :
  aligned Examples.flip_ballots Examples.ABC
  ∧ VoteTable_init Examples.flip_ballots Examples.ABC = Ok Examples.flip_table
  ∧ Ref.with_candidate_eliminated 0%nat 2 [Examples.flip_table]
    = Some (Ok (1%nat, [Examples.flip_table; Examples.flip_table_without_C]))
  ∧ ∃ t',
      [Examples.flip_table] !! 1%nat = None
      ∧ [Examples.flip_table; Examples.flip_table_without_C] !! 1%nat
        = Some t'
      ∧ (∀ a o, [Examples.flip_table] !! a = Some o →
           [Examples.flip_table; Examples.flip_table_without_C] !! a = Some o)
      ∧ [Examples.flip_table; Examples.flip_table_without_C] !! 0%nat
        = Some Examples.flip_table
      ∧ table_inv t'
      ∧ N_candidates t' = (N_candidates Examples.flip_table - 1)%nat
      ∧ length (names t') = (N_candidates Examples.flip_table - 1)%nat
      ∧ length (counts t') = (N_candidates Examples.flip_table - 1)%nat
      ∧ names t' ≡ₚ delete (Z.to_nat 2) (names Examples.flip_table)
      ∧ length (votes t') = length (votes Examples.flip_table)
      ∧ Forall (λ b, length b = N_candidates Examples.flip_table)
               (votes Examples.flip_table)
      ∧ Forall (λ b, length b = (N_candidates Examples.flip_table - 1)%nat)
               (votes t')
      ∧ (NoDup Examples.ABC →
         (∀ b x, x ∈ names t' →
            entry Examples.flip_table b x None ↔ entry t' b x None)
         ∧ (∀ b x y r1 r2,
              x ∈ names t' → y ∈ names t' →
              entry Examples.flip_table b x (Some r1) →
              entry Examples.flip_table b y (Some r2) → r1 < r2 →
              ∃ r1' r2', entry t' b x (Some r1') ∧ entry t' b y (Some r2')
                         ∧ r1' < r2')).
Proof.
  assert (aligned Examples.flip_ballots Examples.ABC) as Hal
    by (by apply ABC_aligned).
  split; [exact Hal|]. split; [reflexivity|]. split; [reflexivity|].
  apply (with_candidate_eliminated_frame Examples.flip_ballots Examples.ABC
           Examples.flip_table [Examples.flip_table] 0%nat 2 1%nat
           [Examples.flip_table; Examples.flip_table_without_C]);
    first [exact Hal|reflexivity|simpl; lia].
Defined.

(** C7 as worded fails twice.  In [flip_table] A comes before B; in the
    table returned without C, B comes before A: the rebuild sorts anew.
    And [partial_table] is a table the constructor returns from aligned
    ballots without duplicate ranks, whose elimination at index 2 raises
    instead of returning a table (the comparison of C9). *)
Lemma with_candidate_eliminated_counterexample :
  (VoteTable_init Examples.flip_ballots Examples.ABC = Ok Examples.flip_table
   ∧ names Examples.flip_table = ["A"; "B"; "C"]%string
   ∧ Ref.with_candidate_eliminated 0%nat 2 [Examples.flip_table]
     = Some (Ok (1%nat, [Examples.flip_table; Examples.flip_table_without_C]))
   ∧ names Examples.flip_table_without_C = ["B"; "A"]%string)
  ∧ (VoteTable_init Examples.partial_ballots Examples.ABC
       = Ok Examples.partial_table
     ∧ N_candidates Examples.partial_table = 3%nat
     ∧ Ref.with_candidate_eliminated 0%nat 2 [Examples.partial_table]
       = Some (Raise TypeError)).
Proof. split; split_and!; reflexivity. Qed.


(** In the first round of [runoff_ballots] the loop eliminates C and ends
    on the table of B and A, where A wins; the second round starts on the
    table of C and B, the copy without A, not on a part of that reduced
    table. *)
Example round_independence_runoff :
  ∃ st' h' te h2 reduced next,
    round_body (Examples.typing "0") "P" true 3 3 0
      (mkLoop 0%nat [] []) [Examples.runoff_table] = Some (Ok (st', h'))
    ∧ while_true (Examples.typing "0") "P" true 3 0%nat
        [Examples.runoff_table; Examples.runoff_table] = Some (Ok (te, h2))
    ∧ te.2 = Winner "A"
    ∧ h2 !! te.1 = Some reduced ∧ names reduced = ["B"; "A"]%string
    ∧ h' !! cur_table st' = Some next ∧ names next = ["C"; "B"]%string.
Proof.
  eexists _, _, _, _, _, _. split_and!; vm_compute; reflexivity.
Qed.

Lemma instant_runoff_partition_witness :
  ∃ h',
    aligned Examples.unranked_ballots ["A"; "B"]%string
    ∧ VoteTable_init Examples.unranked_ballots ["A"; "B"]%string
      = Ok Examples.unranked_table
    ∧ instant_runoff (Examples.typing "0") "P" true 2 0%nat
        [Examples.unranked_table]
      = Some (Ok (mkResults ["A"%string] ["B"%string], h'))
    ∧ ["A"%string] ++ ["B"%string] ≡ₚ ["A"; "B"]%string
    ∧ (length ["A"%string] ≤ length ["A"; "B"]%string)%nat
    ∧ (NoDup ["A"; "B"]%string →
       NoDup (["A"%string] ++ ["B"%string])
       ∧ ∀ x, x ∈ ["A"%string] → x ∉ ["B"%string]).
Proof.
  assert (aligned Examples.unranked_ballots ["A"; "B"]%string) as Hal
    by (by repeat constructor).
  eexists. split; [exact Hal|].
  split; [reflexivity|]. split; [vm_compute; reflexivity|].
  eapply (instant_runoff_partition (Examples.typing "0") "P"
            Examples.unranked_ballots ["A"; "B"]%string
            Examples.unranked_table [Examples.unranked_table] 0%nat 2
            (mkResults ["A"%string] ["B"%string]));
    [exact Hal|reflexivity|reflexivity|vm_compute; reflexivity].
Defined.

Lemma instant_runoff_terminates_witness :
  aligned Examples.runoff_ballots Examples.ABC
  ∧ VoteTable_init Examples.runoff_ballots Examples.ABC
    = Ok Examples.runoff_table
  ∧ (length Examples.ABC ≤ 5)%nat
  ∧ ∃ r, instant_runoff (Examples.typing "0") "P" true (length Examples.ABC)
           0%nat [Examples.runoff_table] = Some r
         ∧ instant_runoff (Examples.typing "0") "P" true 5 0%nat
             [Examples.runoff_table] = Some r.
Proof.
  assert (aligned Examples.runoff_ballots Examples.ABC) as Hal
    by (by apply ABC_aligned).
  split; [exact Hal|].
  split; [reflexivity|]. split; [simpl; lia|].
  apply (instant_runoff_terminates (Examples.typing "0") "P"
           Examples.runoff_ballots Examples.ABC Examples.runoff_table
           [Examples.runoff_table] 0%nat 5);
    [exact Hal|reflexivity|reflexivity|simpl; lia].
Defined.

(** * Further properties of the code *)

(** ** Abstentions through construction and elimination *)

Lemma built_good t : built t → good t.
Proof. intros (votes0 & names0 & Hal & Hinit). by eapply VoteTable_init_aligned. Qed.

Lemma built_copy t : built t → VoteTable_init (votes t) (names t) = Ok t.
Proof. intros (votes0 & names0 & Hal & Hinit). by eapply maintain_fixed. Qed.

Lemma VoteTable_init_abstaining votes0 names0 t :
  VoteTable_init votes0 names0 = Ok t → aligned votes0 names0 →
  abstaining (votes t) → abstaining votes0.
Proof.
  intros Hinit Hal (row & Hrow & Hnone).
  destruct (VoteTable_init_rows _ _ _ Hinit Hal) as (vs & Hvs & Hperm).
  apply list_elem_of_lookup in Hrow as [b Hb].
  destruct (Forall2_lookup_l _ _ _ _ _ Hperm Hb) as (row' & Hb' & Hrows).
  destruct (Forall2_lookup_r _ _ _ _ _ Hvs Hb') as (row0 & Hb0 & Hrank).
  rewrite Hrows in Hnone. apply list_elem_of_lookup in Hnone as [j Hj].
  apply (get_rank_order_abstains _ _ j Hrank) in Hj.
  exists row0. split; by eapply list_elem_of_lookup_2.
Qed.

Lemma slice_to_subseteq {A} (l : list A) i x : x ∈ Py.slice_to l i → x ∈ l.
Proof. unfold Py.slice_to. apply subseteq_take. Qed.

Lemma slice_from_subseteq {A} (l : list A) i x : x ∈ Py.slice_from l i → x ∈ l.
Proof. unfold Py.slice_from. apply subseteq_drop. Qed.

Lemma eliminated_abstaining t i :
  good t → abstaining (eliminated_votes t i) → abstaining (votes t).
Proof.
  intros Hgood (row & Hrow & Hnone).
  destruct (good_columns _ Hgood) as [_ Hcols]. destruct Hgood as [Hinv _].
  unfold eliminated_votes in Hrow. cbv zeta in Hrow.
  rewrite Forall_forall in Hcols.
  assert (Forall (λ col, length col = N_votes t)
            (Py.slice_to (votes_by_candidate t) i
             ++ Py.slice_from (votes_by_candidate t) (i + 1))) as Hcols'.
  { apply Forall_forall. intros col Hcol. apply Hcols.
    apply elem_of_app in Hcol as [Hcol|Hcol];
      [by eapply slice_to_subseteq|by eapply slice_from_subseteq]. }
  destruct (column_abstention _ _ _ Hcols' Hrow Hnone)
    as (col & Hcol & Hnone').
  eapply column_abstention; [apply (inv_votes_width _ Hinv)| |exact Hnone'].
  apply elem_of_app in Hcol as [Hcol|Hcol];
    [by eapply slice_to_subseteq|by eapply slice_from_subseteq].
Qed.

(** Eliminating a candidate of a built table: a built table, or a
    [TypeError]; the latter takes an abstention. *)
Lemma eliminate_built t t' (i : Z) :
  built t → 0 ≤ i < Z.of_nat (N_candidates t) → (2 ≤ N_candidates t)%nat →
  VoteTable_init (eliminated_votes t i) (eliminated_names t i) = Ok t' →
  built t' ∧ (abstaining (votes t') → abstaining (votes t)).
Proof.
  intros Hb Hi HN Hinit. pose proof (built_good _ Hb) as Hgood.
  destruct (eliminated_aligned _ _ Hgood Hi HN) as (_ & _ & Hal & _).
  split; [by eexists _, _|]. intros Habs.
  eapply eliminated_abstaining; [done|].
  by eapply VoteTable_init_abstaining.
Qed.

Lemma eliminate_Raise t (i : Z) e :
  built t → 0 ≤ i < Z.of_nat (N_candidates t) → (2 ≤ N_candidates t)%nat →
  VoteTable_init (eliminated_votes t i) (eliminated_names t i) = Raise e →
  e = TypeError ∧ abstaining (votes t).
Proof.
  intros Hb Hi HN Hinit. pose proof (built_good _ Hb) as Hgood.
  destruct (eliminated_aligned _ _ Hgood Hi HN) as (_ & Hlen & Hal & Hlen').
  apply (VoteTable_init_Raise _ _ _ Hal) in Hinit
    as [[_ [Hnil|Hnil]]|[-> Habs]].
  - rewrite Hnil in Hlen'. destruct Hgood as [Hinv _].
    pose proof (inv_ballots _ Hinv). simpl in *. lia.
  - rewrite Hnil in Hlen. simpl in *. lia.
  - split; [done|]. by eapply eliminated_abstaining.
Qed.

(** ** What the loops can raise *)

Lemma bind_Raise {A B} (m : M A) (k : A → M B) h e :
  bind m k h = Some (Raise e)
  ↔ m h = Some (Raise e)
    ∨ ∃ a h1, m h = Some (Ok (a, h1)) ∧ k a h1 = Some (Raise e).
Proof.
  unfold bind. destruct (m h) as [[[a h1]|e']|]; split.
  - eauto.
  - intros [?|(? & ? & ? & ?)]; [done|by simplify_eq].
  - intros [= ->]. by left.
  - intros [[= ->]|(? & ? & ? & ?)]; done.
  - done.
  - intros [?|(? & ? & ? & ?)]; done.
Qed.

Lemma deref_Raise r (h : list VoteTable) t e :
  h !! r = Some t → deref r h ≠ Some (Raise e).
Proof. unfold deref. by intros ->. Qed.

Lemma lift_Raise {A} (r : res A) (h : list VoteTable) e :
  lift r h = Some (Raise e) → r = Raise e.
Proof. unfold lift. destruct r; simpl; [done|]. by intros [= ->]. Qed.

Lemma new_Raise votes0 names0 (h : list VoteTable) e :
  Ref.new votes0 names0 h = Some (Raise e) → VoteTable_init votes0 names0 = Raise e.
Proof.
  unfold Ref.new. intros [H|(? & ? & _ & H)]%bind_Raise; [|done].
  by apply lift_Raise in H.
Qed.

Lemma compute_winner_total t : table_inv t → ∃ w, compute_winner t = Ok w.
Proof.
  intros Hinv. destruct (table_inv_split _ Hinv) as (l & [[cnt col] w] & Hcand).
  rewrite (compute_winner_inv _ _ _ _ _ Hinv Hcand). eauto.
Qed.

Lemma check_tied_total t :
  good t → (2 ≤ N_candidates t)%nat → ∃ b, check_tied t = Ok b.
Proof.
  intros [Hinv Hlen] HN.
  rewrite (inv_names _ Hinv), length_fmap in Hlen.
  destruct (candidates t) as [|k1 l] eqn:Hcand using rev_ind;
    [simpl in *; lia|]. clear IHl.
  destruct l as [|k2 l _] using rev_ind.
  { simpl in *. lia. }
  rewrite <-app_assoc in Hcand. simpl in Hcand.
  rewrite (check_tied_inv _ _ _ _ Hinv Hcand). eauto.
Qed.

Lemma index_total {A} `{EqDecision A} (l : list A) x :
  x ∈ l → ∃ i, Py.index l x = Ok i.
Proof.
  induction l as [|y l IH]; intros Hx; [by apply elem_of_nil in Hx|].
  simpl. case_decide; [eauto|].
  destruct IH as [i Hi]; [by apply elem_of_cons in Hx as [|]|].
  rewrite Hi. simpl. eauto.
Qed.

Section raises.
Context (input : string → string) (name : string).

(** When more than one candidate is left, [select_loser] raises nothing
    but the [AttributeError] of [print_table]. *)
Lemma select_loser_Raise is_automated table (h : list VoteTable) t e :
  h !! table = Some t → good t → (2 ≤ N_candidates t)%nat →
  select_loser input name is_automated table h = Some (Raise e) →
  e = AttributeError.
Proof.
  intros Ht Hgood HN. unfold select_loser.
  destruct is_automated; simpl; intros H.
  - apply bind_Raise in H as [H|(tied & h1 & Htied & H)].
    + unfold Ref.check_tied in H.
      apply bind_Raise in H as [H|(self' & h1 & Hself' & H)].
      { by eapply deref_Raise in H. }
      apply deref_Ok in Hself' as [Hself' ->].
      assert (self' = t) as -> by congruence.
      apply lift_Raise in H. destruct (check_tied_total _ Hgood HN). congruence.
    + apply check_tied_Ok in Htied as (_ & _ & _ & ->).
      destruct tied; simpl in H; [|done].
      apply bind_Raise in H as [H|(? & ? & _ & H)]; [|done].
      rewrite (print_table_Raise _ _ _ Ht) in H. congruence.
  - apply bind_Raise in H as [H|(? & ? & _ & H)]; [|done].
    rewrite (print_table_Raise _ _ _ Ht) in H. congruence.
Qed.

(** The [while True] loop keeps its table a built one. *)
Lemma while_true_built is_automated fuel table h t table' e h' :
  built t → h !! table = Some t →
  while_true input name is_automated fuel table h
    = Some (Ok ((table', e), h')) →
  ∃ t', h' !! table' = Some t' ∧ built t'
        ∧ (abstaining (votes t') → abstaining (votes t)).
Proof.
  revert table h t. induction fuel as [|fuel IH];
    intros table h t Hb Ht H; [done|].
  pose proof (built_good _ Hb) as Hgood.
  simpl in H. apply bind_Ok in H as (winner & h1 & Hw & H).
  apply compute_winner_Ok in Hw as (t0 & Ht0 & Hw & ->).
  assert (t0 = t) as -> by congruence.
  destruct winner as [w|].
  { apply ret_Ok in H as [[= <- <-] <-]. eauto. }
  apply bind_Ok in H as (self & h1 & Hself & H).
  apply deref_Ok in Hself as [Hself ->].
  assert (self = t) as -> by congruence.
  case_decide as HN.
  { destruct (names t) as [|u [|??]] eqn:Hnames; try done.
    apply ret_Ok in H as [[= <- <-] <-]. eauto. }
  apply bind_Ok in H as (i & h1 & Hi & H).
  pose proof (good_two _ Hgood HN) as HN2.
  apply select_loser_Ok in Hi as (-> & -> & -> & _).
  rewrite loser_turn in H.
  apply bind_Ok in H as (table1 & h1 & Helim & H).
  apply with_candidate_eliminated_Ok in Helim
    as (t0 & t1 & Ht0' & Hinit & -> & ->).
  assert (t0 = t) as -> by congruence.
  destruct (eliminate_built t t1 0) as [Hb1 Habs1]; [done|lia|done|done|].
  destruct (IH (length h) (h ++ [t1]) t1) as (t' & Ht' & Hb' & Habs');
    [done|apply lookup_new|done|].
  exists t'. split_and!; [done|done|]. auto.
Qed.

Lemma while_true_Raise is_automated fuel table h t e :
  built t → h !! table = Some t →
  while_true input name is_automated fuel table h = Some (Raise e) →
  (e = TypeError ∧ abstaining (votes t)) ∨ e = AttributeError.
Proof.
  revert table h t. induction fuel as [|fuel IH];
    intros table h t Hb Ht H; [done|].
  pose proof (built_good _ Hb) as Hgood.
  simpl in H. apply bind_Raise in H as [H|(winner & h1 & Hw & H)].
  { unfold Ref.compute_winner in H.
    apply bind_Raise in H as [H|(self & h1 & Hself & H)].
    { by eapply deref_Raise in H. }
    apply deref_Ok in Hself as [Hself ->].
    assert (self = t) as -> by congruence.
    apply lift_Raise in H.
    destruct (compute_winner_total t) as [w Hw]; [apply Hgood|]. congruence. }
  apply compute_winner_Ok in Hw as (t0 & Ht0 & Hw & ->).
  assert (t0 = t) as -> by congruence.
  destruct winner as [w|]; [done|].
  apply bind_Raise in H as [H|(self & h1 & Hself & H)].
  { by eapply deref_Raise in H. }
  apply deref_Ok in Hself as [Hself ->].
  assert (self = t) as -> by congruence.
  case_decide as HN.
  { destruct Hgood as [_ Hlen]. rewrite HN in Hlen.
    by destruct (names t) as [|u [|??]]. }
  pose proof (good_two _ Hgood HN) as HN2.
  apply bind_Raise in H as [H|(i & h1 & Hi & H)].
  { right. by eapply select_loser_Raise. }
  apply select_loser_Ok in Hi as (-> & -> & -> & _).
  rewrite loser_turn in H.
  apply bind_Raise in H as [H|(table1 & h1 & Helim & H)].
  - unfold Ref.with_candidate_eliminated in H.
    apply bind_Raise in H as [H|(self & h1 & Hself' & H)].
    { by eapply deref_Raise in H. }
    apply deref_Ok in Hself' as [Hself' ->].
    assert (self = t) as -> by congruence.
    apply new_Raise in H. left. eapply (eliminate_Raise t 0); [done|lia|done|done].
  - apply with_candidate_eliminated_Ok in Helim
      as (t0 & t1 & Ht0' & Hinit & -> & ->).
    assert (t0 = t) as -> by congruence.
    destruct (eliminate_built t t1 0) as [Hb1 Habs1]; [done|lia|done|done|].
    destruct (IH (length h) (h ++ [t1]) t1 Hb1 (lookup_new _ _) H)
      as [[-> Habs]| ->]; auto.
Qed.

(** One iteration of the [for] loop keeps its table a built one. *)
Lemma round_body_built is_automated fuel N rank st h t st' h' :
  built t → h !! cur_table st = Some t →
  (rank ≠ (N - 1)%nat → (2 ≤ N_candidates t)%nat) →
  round_body input name is_automated fuel N rank st h
    = Some (Ok (st', h')) →
  rank ≠ (N - 1)%nat →
  ∃ t', h' !! cur_table st' = Some t' ∧ built t'
        ∧ (abstaining (votes t') → abstaining (votes t)).
Proof.
  intros Hb Ht HN H Hrank. pose proof (built_good _ Hb) as Hgood.
  unfold round_body in H.
  apply bind_Ok in H as (full_table & h1 & Hcopy & H).
  apply copy_Ok in Hcopy as (t0 & full & Ht0 & Hfull & -> & ->).
  assert (t0 = t) as -> by congruence.
  rewrite (built_copy _ Hb) in Hfull. injection Hfull as <-.
  apply bind_Ok in H as ([table1 e] & h2 & Hloop & H).
  eapply (while_true_Ok _ _ _ _ _ _ t) in Hloop
    as (Hpre & t1 & Ht1 & Hg1 & Hsub & Hend);
    [|exact Hgood|by apply lookup_alloc].
  pose proof (round_end_recorded _ _ Hend) as Hrec.
  simpl in H. rewrite decide_True in H by done.
  apply bind_Ok in H as (full' & h3 & Hderef & H).
  apply deref_Ok in Hderef as [Hderef ->].
  assert (full' = t) as ->.
  { eapply prefix_lookup_Some in Hpre; [|apply lookup_new]. congruence. }
  apply bind_Ok in H as (i & h3 & Hidx & H).
  apply lift_Ok in Hidx as [Hidx ->]. apply index_Ok in Hidx.
  apply bind_Ok in H as (table2 & h3 & Helim & H).
  apply ret_Ok in H as [<- <-]. simpl.
  apply with_candidate_eliminated_Ok in Helim
    as (full' & t2 & Hfull' & Hinit & -> & ->).
  assert (full' = t) as -> by congruence.
  destruct (eliminate_built t t2 (Z.of_nat i)) as [Hb2 Habs2];
    [done| |by apply HN|done|].
  { apply lookup_lt_Some in Hidx. destruct Hgood as [_ Hl]. lia. }
  exists t2. split_and!; [apply lookup_new|done|done].
Qed.

Lemma round_body_Raise is_automated fuel N rank st h t e :
  built t → h !! cur_table st = Some t →
  (rank ≠ (N - 1)%nat → (2 ≤ N_candidates t)%nat) →
  round_body input name is_automated fuel N rank st h = Some (Raise e) →
  (e = TypeError ∧ abstaining (votes t)) ∨ e = AttributeError.
Proof.
  intros Hb Ht HN H. pose proof (built_good _ Hb) as Hgood.
  unfold round_body in H.
  apply bind_Raise in H as [H|(full_table & h1 & Hcopy & H)].
  { unfold Ref.copy in H.
    apply bind_Raise in H as [H|(self & h1 & Hself & H)].
    { by eapply deref_Raise in H. }
    apply deref_Ok in Hself as [Hself ->].
    assert (self = t) as -> by congruence.
    apply new_Raise in H. rewrite (built_copy _ Hb) in H. done. }
  apply copy_Ok in Hcopy as (t0 & full & Ht0 & Hfull & -> & ->).
  assert (t0 = t) as -> by congruence.
  rewrite (built_copy _ Hb) in Hfull. injection Hfull as <-.
  apply bind_Raise in H as [H|([table1 e'] & h2 & Hloop & H)].
  { eapply while_true_Raise; [done| |done]. by apply lookup_alloc. }
  eapply (while_true_Ok _ _ _ _ _ _ t) in Hloop
    as (Hpre & t1 & Ht1 & Hg1 & Hsub & Hend);
    [|exact Hgood|by apply lookup_alloc].
  pose proof (round_end_recorded _ _ Hend) as Hrec.
  assert (recorded e' ∈ names t) as Hw by (by eapply elem_of_submseteq).
  simpl in H. case_decide as Hrank; [|done].
  assert (h2 !! length h = Some t) as Hfull.
  { eapply prefix_lookup_Some; [apply lookup_new|done]. }
  apply bind_Raise in H as [H|(full' & h3 & Hderef & H)].
  { by eapply deref_Raise in H. }
  apply deref_Ok in Hderef as [Hderef ->].
  assert (full' = t) as -> by congruence.
  apply bind_Raise in H as [H|(i & h3 & Hidx & H)].
  { apply lift_Raise in H. destruct (index_total _ _ Hw). congruence. }
  apply lift_Ok in Hidx as [Hidx ->]. apply index_Ok in Hidx.
  apply bind_Raise in H as [H|(? & ? & _ & H)]; [|done].
  unfold Ref.with_candidate_eliminated in H.
  apply bind_Raise in H as [H|(self & h1 & Hself' & H)].
  { by eapply deref_Raise in H. }
  apply deref_Ok in Hself' as [Hself' ->].
  assert (self = t) as -> by congruence.
  apply new_Raise in H. left.
  eapply eliminate_Raise; [done| |by apply HN|done].
  apply lookup_lt_Some in Hidx. destruct Hgood as [_ Hl]. lia.
Qed.

Lemma for_rank_Raise is_automated fuel N k rank st h t e :
  (rank + S k = N)%nat →
  built t → h !! cur_table st = Some t → N_candidates t = S k →
  for_rank input name is_automated fuel N (seq rank (S k)) st h
    = Some (Raise e) →
  (e = TypeError ∧ abstaining (votes t)) ∨ e = AttributeError.
Proof.
  revert rank st h t. induction k as [|k IH];
    intros rank st h t HNk Hb Ht HN H.
  - simpl in H. apply bind_Raise in H as [H|(st1 & h1 & Hbody & H)]; [|done].
    eapply (round_body_Raise _ _ N rank st h t); [done|done|intros; lia|done].
  - change (seq rank (S (S k))) with (rank :: seq (S rank) (S k)) in H.
    simpl in H. apply bind_Raise in H as [H|(st1 & h1 & Hbody & H)].
    { eapply (round_body_Raise _ _ N rank st h t);
        [done|done|intros; lia|done]. }
    pose proof Hbody as Hbody'.
    eapply round_body_Ok in Hbody as (w & Hw & Hperm & Hnext);
      [|by apply built_good|done|intros; lia].
    destruct Hnext as (t1 & Ht1 & Hg1 & Hnames & HN1); [lia|].
    eapply round_body_built in Hbody' as (t1' & Ht1' & Hb1 & Habs1);
      [|done|done|intros; lia|lia].
    assert (t1' = t1) as -> by congruence.
    eapply IH in H as [[-> Habs]| ->]; [|by right|lia|done|done|lia].
    left. split; [done|]. by apply Habs1.
Qed.

End raises.

(** ** Contests on ballots without abstention *)

Lemma ranks_of_full (col : list (option Z)) :
  None ∉ col → length (ranks_of col) = length col.
Proof.
  unfold ranks_of. induction col as [|[v|] col IH]; intros Hnone; simpl.
  - done.
  - f_equal. apply IH. intros ?. apply Hnone. by right.
  - destruct Hnone. by left.
Qed.

(** The one candidate left of ballots without abstention has every
    first place. *)
Lemma last_candidate_wins t :
  built t → ¬ abstaining (votes t) → N_candidates t = 1%nat →
  compute_winner t ≠ Ok None.
Proof.
  intros Hb Hfull HN Hnone. pose proof (built_good _ Hb) as [Hinv Hlen].
  destruct Hb as (votes0 & names0 & Hal & Hinit).
  pose proof (proj1 (compute_winner_None_iff _ _ _ Hinit) Hnone) as Hall.
  rewrite (inv_names _ Hinv), length_fmap, HN in Hlen.
  destruct (candidates t) as [|[[cnt col] x] [|??]] eqn:Hcand; simplify_eq/=.
  assert (candidates t !! 0%nat = Some (cnt, col, x)) as H0 by (by rewrite Hcand).
  destruct (candidate_counts _ _ _ _ _ _ _ Hinit H0) as (Hsum & Hl & Hr).
  destruct (VoteTable_init_inv _ _ _ Hinit) as (_ & _ & HN' & _).
  rewrite <-HN', HN in Hl, Hr. specialize (Hr 0%nat ltac:(lia)).
  destruct cnt as [|c [|??]]; simplify_eq/=.
  unfold Py.sum in Hsum. simpl in Hsum.
  pose proof (inv_count_vectors _ Hinv) as Hvec. rewrite Hcand in Hvec.
  apply Forall_singleton in Hvec as [_ Hcol]. simpl in Hcol.
  rewrite ranks_of_full in Hsum.
  - specialize (Hall _ col x ltac:(by left)).
    pose proof (inv_ballots _ Hinv).
    change (Z.of_nat 0 + 1) with 1 in Hsum. lia.
  - intros Hin. apply Hfull.
    eapply (column_abstention _ _ col (inv_votes_width _ Hinv)); [|done].
    fold (votes_by_candidate t). rewrite (inv_columns _ Hinv), Hcand.
    simpl. by left.
Qed.

Section complete.
Context (input : string → string) (name : string).

Lemma round_body_complete is_automated fuel N rank st h t st' h' :
  built t → h !! cur_table st = Some t → ¬ abstaining (votes t) →
  round_body input name is_automated fuel N rank st h
    = Some (Ok (st', h')) →
  cur_ineligible st' = cur_ineligible st.
Proof.
  intros Hb Ht Hfull H. pose proof (built_good _ Hb) as Hgood.
  unfold round_body in H.
  apply bind_Ok in H as (full_table & h1 & Hcopy & H).
  apply copy_Ok in Hcopy as (t0 & full & Ht0 & Hcopy & -> & ->).
  apply bind_Ok in H as ([table1 e] & h2 & Hloop & H).
  pose proof Hloop as Hloop'.
  eapply (while_true_Ok _ _ _ _ _ _ t) in Hloop
    as (Hpre & t1 & Ht1 & Hg1 & Hsub & Hend);
    [|exact Hgood|by apply lookup_alloc].
  eapply (while_true_built _ _ _ _ _ _ t) in Hloop'
    as (t1' & Ht1' & Hb1 & Habs1); [|done|by apply lookup_alloc].
  assert (t1' = t1) as -> by congruence.
  assert (∃ w, e = Winner w) as [w ->].
  { destruct e as [w|u]; [eauto|]. destruct Hend as (Hnone & HN1 & _).
    destruct (last_candidate_wins t1); auto. }
  simpl in H. case_decide.
  - apply bind_Ok in H as (? & ? & _ & H).
    apply bind_Ok in H as (? & ? & _ & H).
    apply bind_Ok in H as (? & ? & _ & H).
    by apply ret_Ok in H as [<- _].
  - by apply ret_Ok in H as [<- _].
Qed.

Lemma for_rank_complete is_automated fuel N k rank st h t st' h' :
  (rank + S k = N)%nat →
  built t → h !! cur_table st = Some t → N_candidates t = S k →
  ¬ abstaining (votes t) →
  for_rank input name is_automated fuel N (seq rank (S k)) st h
    = Some (Ok (st', h')) →
  cur_ineligible st' = cur_ineligible st.
Proof.
  revert rank st h t. induction k as [|k IH];
    intros rank st h t HNk Hb Ht HN Hfull H.
  - simpl in H. apply bind_Ok in H as (st1 & h1 & Hbody & H).
    apply ret_Ok in H as [-> ->]. by eapply round_body_complete.
  - change (seq rank (S (S k))) with (rank :: seq (S rank) (S k)) in H.
    simpl in H. apply bind_Ok in H as (st1 & h1 & Hbody & H).
    pose proof (round_body_complete _ _ _ _ _ _ _ _ _ Hb Ht Hfull Hbody) as Hin.
    pose proof Hbody as Hbody'.
    eapply round_body_Ok in Hbody as (w & Hw & Hperm & Hnext);
      [|by apply built_good|done|intros; lia].
    destruct Hnext as (t1 & Ht1 & Hg1 & Hnames & HN1); [lia|].
    eapply round_body_built in Hbody' as (t1' & Ht1' & Hb1 & Habs1);
      [|done|done|intros; lia|lia].
    assert (t1' = t1) as -> by congruence.
    eapply IH in H; [|lia|done|done|lia|auto]. congruence.
Qed.

End complete.

(** The contest of one position, as [loop_tables] runs it: what it can
    raise. *)
Lemma tabulate_Raise input fuel name ballots cand is_automated e :
  aligned ballots cand →
  tabulate input fuel name ballots cand is_automated = Some (Raise e) →
  (e = ValueError ∧ (ballots = [] ∨ cand = []))
  ∨ (e = TypeError ∧ abstaining ballots)
  ∨ e = AttributeError.
Proof.
  intros Hal. unfold tabulate.
  destruct (bind _ _ _) as [[[r h]|e']|] eqn:H; intros [= <-].
  apply bind_Raise in H as [H|(table & h1 & Hnew & H)].
  { apply new_Raise in H.
    apply (VoteTable_init_Raise _ _ _ Hal) in H as [?|[-> (b & ? & ?)]];
      [by left|]. right. left. split; [done|]. by exists b. }
  apply new_Ok in Hnew as (t & Hinit & -> & ->). simpl in H. right.
  assert (built t) as Hb by (by eexists _, _).
  unfold instant_runoff in H.
  apply bind_Raise in H as [H|(self & h1 & Hself & H)]; [done|].
  apply deref_Ok in Hself as [[= <-] ->].
  apply bind_Raise in H as [H|(? & ? & _ & H)]; [|done].
  destruct (N_candidates t) as [|k] eqn:HN.
  { destruct (built_good _ Hb) as [Hinv Hlen].
    pose proof (inv_nonempty _ Hinv) as Hne.
    rewrite (inv_names _ Hinv), length_fmap in Hlen.
    destruct (candidates t); simpl in *; [done|lia]. }
  eapply (for_rank_Raise _ _ _ _ (S k) k 0%nat) in H as [[-> Habs]| ->];
    [|by right|lia|done|done|done].
  left. split; [done|]. by eapply VoteTable_init_abstaining.
Qed.

(** X15. On aligned ballots without abstention, with a ballot and a
    candidate, the contest of a position ends, no [while True] loop
    taking more than [length cand] turns, in either mode and whatever
    the operator types: it ranks every candidate and finds none
    ineligible, or it ends with the [AttributeError] of [print_table]. *)
Theorem tabulate_total input fuel name ballots cand is_automated :
  aligned ballots cand →
  ballots ≠ [] → cand ≠ [] → ¬ abstaining ballots →
  (length cand ≤ fuel)%nat →
  (∃ r, tabulate input fuel name ballots cand is_automated = Some (Ok r)
        ∧ ineligible_candidates r = []
        ∧ ranking r ≡ₚ cand)
  ∨ tabulate input fuel name ballots cand is_automated
    = Some (Raise AttributeError).
Proof.
  intros Hal Hb Hc Hfull Hfuel.
  destruct (VoteTable_init_total ballots cand) as [t Hinit]; [done..| |].
  { apply Forall_forall. intros b Hin Hnone. apply Hfull. by exists b. }
  assert (built t) as Hbuilt by (by eexists _, _).
  destruct (VoteTable_init_aligned _ _ _ Hinit Hal)
    as (Hgood & Hnames & _ & HN).
  destruct (N_candidates t) as [|k] eqn:HNk.
  { exfalso. destruct cand; simpl in *; [done|lia]. }
  assert (¬ abstaining (votes t)) as Hfull'.
  { intros Habs. apply Hfull. by eapply VoteTable_init_abstaining. }
  destruct (tabulate input fuel name ballots cand is_automated)
    as [[r|e]|] eqn:Htab.
  - left. exists r. split; [done|]. revert Htab. unfold tabulate.
    destruct (bind _ _ _) as [[[r' h]|e']|] eqn:H; intros [= <-].
    apply bind_Ok in H as (table & h1 & Hnew & H).
    apply new_Ok in Hnew as (t' & Hinit' & -> & ->). simpl in H.
    assert (t' = t) as -> by congruence.
    unfold instant_runoff in H.
    apply bind_Ok in H as (self & h1 & Hself & H).
    apply deref_Ok in Hself as [[= <-] ->].
    apply bind_Ok in H as (st' & h1 & Hfor & H).
    apply ret_Ok in H as [<- _]. simpl. rewrite HNk in Hfor.
    pose proof (for_rank_complete _ _ _ fuel (S k) k 0%nat
                  (mkLoop 0 [] []) [t] t _ _
                  eq_refl Hbuilt eq_refl HNk Hfull' Hfor) as Hin.
    pose proof (for_rank_Ok _ _ _ fuel (S k) k 0%nat
                  (mkLoop 0 [] []) [t] t _ _
                  eq_refl Hgood eq_refl HNk Hfor) as Hperm.
    simpl in Hin, Hperm. split; [done|].
    by rewrite Hin, app_nil_r in Hperm; rewrite Hperm.
  - right. apply (tabulate_Raise _ _ _ _ _ _ _ Hal) in Htab
      as [[_ [?|?]]|[[_ ?]| ->]]; done.
  - exfalso. revert Htab. unfold tabulate.
    destruct (bind _ _ _) as [[[r' h]|e']|] eqn:H; intros [=].
    apply bind_None in H as [H|(table & h1 & Hnew & H)].
    { by apply new_fuel in H. }
    apply new_Ok in Hnew as (t' & Hinit' & -> & ->). simpl in H.
    assert (t' = t) as -> by congruence.
    unfold instant_runoff in H.
    apply bind_None in H as [H|(self & h1 & Hself & H)]; [done|].
    apply deref_Ok in Hself as [[= <-] ->].
    apply bind_None in H as [H|(? & ? & _ & H)]; [|done].
    rewrite HNk in H.
    eapply (for_rank_fuel _ _ _ _ (S k) k 0%nat) in H;
      [done|lia|done|done|done|lia].
Qed.

(** ** What the operator types *)

Lemma select_loser_input input1 input2 name is_automated table h :
  select_loser input1 name is_automated table h
  = select_loser input2 name is_automated table h.
Proof.
  unfold select_loser. destruct is_automated; simpl; unfold bind.
  - destruct (Ref.check_tied table h) as [[[tied h1]|]|]; try done.
    destruct tied; simpl; [|done].
    unfold Ref.print_table, bind, deref, lift, print_table.
    by destruct (h1 !! table).
  - unfold Ref.print_table, bind, deref, lift, print_table.
    by destruct (h !! table).
Qed.

Lemma while_true_input input1 input2 name is_automated fuel table h :
  while_true input1 name is_automated fuel table h
  = while_true input2 name is_automated fuel table h.
Proof.
  revert table h. induction fuel as [|fuel IH]; intros table h; [done|].
  simpl. unfold bind.
  destruct (Ref.compute_winner table h) as [[[[w|] h1]|]|]; try done.
  destruct (deref table h1) as [[[self h2]|]|]; try done.
  case_decide; [done|].
  rewrite (select_loser_input input1 input2).
  destruct (select_loser input2 _ _ _ h2) as [[[i h3]|]|]; try done.
  destruct ((if negb is_automated
             then lift (loser_name self i) else ret EmptyString) h3)
    as [[[shown h4]|]|]; try done.
  destruct (eliminate_loser _ _ h4) as [[[table1 h5]|]|]; try done.
Qed.

Lemma for_rank_input input1 input2 name is_automated fuel N ranks st h :
  for_rank input1 name is_automated fuel N ranks st h
  = for_rank input2 name is_automated fuel N ranks st h.
Proof.
  revert st h. induction ranks as [|rank ranks IH]; intros st h; [done|].
  simpl. unfold bind, round_body, bind.
  destruct (Ref.copy _ h) as [[[full_table h1]|]|]; try done.
  rewrite (while_true_input input1 input2).
  destruct (while_true input2 _ _ _ _ h1) as [[[te h2]|]|]; try done.
  destruct (if decide _ then _ else _) as [[[st1 h3]|]|]; try done.
Qed.

(** ** Ballots of cells *)

(** On [int] entries these are the definitions of [get_rank_order]. *)
Lemma get_rank_order_cells_int (l : list (option Z)) :
  get_rank_order_cells Py.int_lt l = get_rank_order l.
Proof. reflexivity. Qed.

Lemma VoteTable_init_cells_int votes0 names0 :
  VoteTable_init_cells Py.int_lt votes0 names0 = VoteTable_init votes0 names0.
Proof.
  unfold VoteTable_init_cells, VoteTable_init, maintain, reduce_ranks. simpl.
  assert (res_mapM (get_rank_order_cells Py.int_lt) votes0
          = res_mapM get_rank_order votes0) as -> by done.
  by destruct (res_mapM get_rank_order votes0).
Qed.

Section cells.
Context {V : Type} `{EqDecision V, Lexico V, !StrictOrder (@lexico V _)}.
Context (v_lt : V → V → res bool).
Hypothesis v_lt_total : ∀ x y, ∃ c, v_lt x y = Ok c.
Hypothesis v_lt_true : ∀ x y, v_lt x y = Ok true → lexico x y.
Hypothesis v_lt_false : ∀ x y, x ≠ y → v_lt x y = Ok false → lexico y x.

#[local] Instance cell_le_trans : Transitive (@cell_le V _).
Proof.
  intros a b c [->|Hab] [->|Hbc]; unfold cell_le; auto.
  right. by trans b.
Qed.

Lemma cell_pair_lt_total a b : ∃ c, cell_pair_lt v_lt a b = Ok c.
Proof. unfold cell_pair_lt. repeat case_decide; eauto. Qed.

Lemma cell_pair_lt_true a b : cell_pair_lt v_lt a b = Ok true → cell_le a b.
Proof.
  destruct a as [v i], b as [w j]. unfold cell_pair_lt; simpl.
  intros Hlt. right. unfold lexico, prod_lexico; simpl.
  repeat case_decide; simplify_eq.
  - right. split; [done|]. by apply Nat.ltb_lt.
  - left. by apply v_lt_true.
Qed.

Lemma cell_pair_lt_false a b : cell_pair_lt v_lt a b = Ok false → cell_le b a.
Proof.
  destruct a as [v i], b as [w j]. unfold cell_pair_lt; simpl.
  intros Hlt. unfold cell_le, lexico, prod_lexico; simpl.
  repeat case_decide; simplify_eq; auto.
  right. right. split; [done|]. apply Nat.ltb_ge in Hlt.
  unfold lexico, nat_lexico. lia.
Qed.

Lemma ranked_cells_from off (l : list (option V)) :
  let r := omap slot_of_cell (imap (λ i v, ((off + i)%nat, v)) l) in
  (∀ v i, (v, i) ∈ r ↔ ∃ j, i = (off + j)%nat ∧ l !! j = Some (Some v))
  ∧ NoDup r.*2.
Proof.
  revert off. induction l as [|o l IH]; intros off; simpl.
  - split; [|constructor].
    intros v i. rewrite elem_of_nil. split; [done|]. by intros (j & _ & ?).
  - specialize (IH (S off)).
    assert (imap ((λ i v, ((off + i)%nat, v)) ∘ S) l
            = imap (λ i v, ((S off + i)%nat, v)) l) as ->.
    { apply imap_ext. intros; simpl. f_equal. lia. }
    destruct IH as (IH1 & IH2). unfold slot_of_cell at 1; simpl.
    assert (∀ v i, (∃ j, i = (off + j)%nat ∧ (o :: l) !! j = Some (Some v))
              ↔ (i = off ∧ o = Some v)
                ∨ ∃ j, i = (S off + j)%nat ∧ l !! j = Some (Some v)) as Hsplit.
    { intros v i. split.
      - intros ([|j] & -> & Hj); simpl in Hj.
        + left. split; [lia|congruence].
        + right. exists j. split; [lia|done].
      - intros [[-> ->]|(j & -> & Hj)].
        + exists 0%nat. split; [lia|done].
        + exists (S j). split; [lia|done]. }
    destruct o as [w|]; simpl.
    + split.
      * intros v i. rewrite Hsplit, elem_of_cons, IH1.
        replace (off + 0)%nat with off by lia. naive_solver.
      * constructor; [|done]. rewrite list_elem_of_fmap.
        intros ([v i] & Hi & Hin). simpl in Hi. subst i.
        apply IH1 in Hin as (j & ? & _). lia.
    + split; [|done].
      intros v i. rewrite Hsplit, IH1. naive_solver.
Qed.

Lemma ranked_cells_spec (l : list (option V)) :
  (∀ v i, (v, i) ∈ ranked_cells l ↔ l !! i = Some (Some v))
  ∧ NoDup (ranked_cells l).*2.
Proof.
  destruct (ranked_cells_from 0 l) as (H1 & H2).
  split; [|done].
  intros v i. etrans; [apply H1|]. naive_solver.
Qed.

(** What [get_rank_order] returns on cells, through the sorted pairs. *)
Lemma get_rank_order_cells_sorted (l : list (option V)) :
  ∃ s out,
    get_rank_order_cells v_lt l = Ok out
    ∧ s ≡ₚ ranked_cells l ∧ StronglySorted cell_le s
    ∧ length out = length l
    ∧ (∀ r v j, s !! r = Some (v, j) → out !! j = Some (Some (Z.of_nat r + 1)))
    ∧ (∀ j, l !! j = Some None → out !! j = Some None)
    ∧ normalized out.
Proof.
  destruct (ranked_cells_spec l) as (Hin & Hnd).
  destruct (sorted_total (cell_pair_lt v_lt) (ranked_cells l)) as [s Hs].
  { intros; apply cell_pair_lt_total. }
  pose proof (sorted_Permutation _ _ _ Hs) as Hperm.
  assert (StronglySorted cell_le s) as Hsorted.
  { apply Sorted_StronglySorted; [apply _|].
    eapply sorted_Sorted; [| |exact Hs];
      auto using cell_pair_lt_true, cell_pair_lt_false. }
  destruct (assign_ranks (length l) s.*2) as (out & Hout & Hl & Hset & Hunset & Hr).
  { by rewrite Hperm. }
  { apply Forall_forall. intros j Hj.
    apply list_elem_of_fmap in Hj as ([v j'] & -> & Hj). simpl.
    rewrite Hperm in Hj. apply Hin in Hj. by eapply lookup_lt_Some. }
  exists s, out. unfold get_rank_order_cells. rewrite Hs. simpl.
  split_and!; try done.
  - intros r v j Hsr. apply Hset. by rewrite list_lookup_fmap, Hsr.
  - intros j Hj. apply Hunset; [by eapply lookup_lt_Some|].
    intros Hjs. apply list_elem_of_fmap in Hjs as ([v j'] & -> & Hjs).
    rewrite Hperm in Hjs. apply Hin in Hjs. simpl in *. congruence.
  - unfold normalized. rewrite Hr at 1.
    apply Permutation_length in Hr. rewrite length_fmap, length_seq in Hr.
    rewrite Hr, <-fmap_S_seq, <-list_fmap_compose.
    erewrite list_fmap_ext; [done|]. intros; simpl; lia.
Qed.

Lemma get_rank_order_cells_spec (l : list (option V)) :
  ∃ out,
    get_rank_order_cells v_lt l = Ok out
    ∧ length out = length l
    ∧ normalized out
    ∧ (∀ i, l !! i = Some None ↔ out !! i = Some None)
    ∧ (∀ i j a b, l !! i = Some (Some a) → l !! j = Some (Some b) →
         lexico a b ∨ (a = b ∧ (i < j)%nat) →
         ∃ a' b', out !! i = Some (Some a') ∧ out !! j = Some (Some b')
                  ∧ a' < b').
Proof.
  destruct (get_rank_order_cells_sorted l)
    as (s & out & Hout & Hperm & Hsorted & Hlen & Hset & Hunset & Hnorm).
  destruct (ranked_cells_spec l) as (Hin & _).
  assert (∀ i a, l !! i = Some (Some a) →
            ∃ r, s !! r = Some (a, i) ∧ out !! i = Some (Some (Z.of_nat r + 1)))
    as Hpos.
  { intros i a Hi. apply Hin in Hi. rewrite <-Hperm in Hi.
    apply list_elem_of_lookup in Hi as [r Hr]. eauto. }
  exists out. split_and!; [done..| |].
  - intros i. split; [apply Hunset|]. intros Hi.
    assert (i < length l)%nat as Hlt.
    { rewrite <-Hlen. by eapply lookup_lt_Some. }
    apply lookup_lt_is_Some in Hlt as [[a|] Ha]; [|done].
    destruct (Hpos _ _ Ha) as (r & _ & Hr). congruence.
  - intros i j a b Hi Hj Hab.
    destruct (Hpos _ _ Hi) as (ri & Hri & Hoi).
    destruct (Hpos _ _ Hj) as (rj & Hrj & Hoj).
    eexists _, _. split_and!; [done..|].
    destruct (decide (ri < rj)%nat); [lia|].
    assert (lexico (a, i) (b, j)) as Hlt.
    { unfold lexico, prod_lexico. simpl. destruct Hab as [?|[-> ?]]; auto. }
    destruct (decide (ri = rj)) as [->|].
    { assert ((a, i) = (b, j)) as Heq by congruence.
      rewrite Heq in Hlt. destruct (irreflexivity lexico _ Hlt). }
    pose proof (StronglySorted_lookup _ _ rj ri _ _ Hsorted Hrj Hri) as Hle.
    destruct Hle as [Heq|Hle]; [lia| |].
    + rewrite Heq in Hlt. destruct (irreflexivity lexico _ Hlt).
    + destruct (irreflexivity lexico (a, i)). by trans (b, j).
Qed.

(** Normalizing the normalized ballots again changes nothing: the
    constructor on cells is the constructor on the rank orders. *)
Lemma VoteTable_init_cells_ranks votes0 names0 vs :
  res_mapM (get_rank_order_cells v_lt) votes0 = Ok vs →
  VoteTable_init_cells v_lt votes0 names0 = VoteTable_init vs names0.
Proof.
  intros Hvs. unfold VoteTable_init_cells, VoteTable_init, maintain,
    reduce_ranks. simpl. rewrite Hvs. simpl.
  rewrite res_mapM_fixed.
  - simpl. by rewrite (res_mapM_length _ _ _ Hvs).
  - apply res_mapM_Ok in Hvs. apply Forall_forall. intros out Hout.
    apply list_elem_of_lookup in Hout as [b Hb].
    destruct (Forall2_lookup_r _ _ _ _ _ Hvs Hb) as (l & _ & Hl).
    apply get_rank_order_fixed.
    destruct (get_rank_order_cells_sorted l)
      as (_ & out' & Hout' & _ & _ & _ & _ & _ & Hnorm).
    congruence.
Qed.

End cells.

(** ** filterBallot *)

Section filterBallot.
Context (int : string → res Z).

Lemma places_cons v vals :
  places (v :: vals) = if is_place v then v :: places vals else places vals.
Proof.
  unfold places. rewrite filter_cons. destruct (is_place v); by case_decide.
Qed.

Lemma filterBallot_for_inv cells valid votes out :
  filterBallot_for int cells valid votes = Ok (true, out) →
  ∃ vals,
    Forall2 (λ cell v, int cell = Ok v) cells vals
    ∧ NoDup (places vals)
    ∧ (∀ v, v ∈ places vals → v ∉ votes)
    ∧ (valid = true ∨ places vals ≠ [])
    ∧ out = places_only cells vals.
Proof.
  revert valid votes out. induction cells as [|cell rest IH];
    intros valid votes out H; simpl in H.
  - injection H as -> <-. exists [].
    split_and!; [constructor|constructor|by intros ? ?%elem_of_nil
                |by left|done].
  - apply res_bind_Ok in H as (vote & Hvote & H).
    fold (is_place vote) in H. destruct (is_place vote) eqn:Hplace.
    + case_bool_decide as Hin; [done|].
      apply res_bind_Ok in H as ([valid' out'] & Hrest & H). simpl in H.
      injection H as -> <-.
      apply IH in Hrest as (vals & Hvals & Hnd & Hnot & _ & ->).
      exists (vote :: vals). rewrite places_cons, Hplace.
      split_and!; [by constructor| | |by right|].
      * constructor; [|done]. intros Hv.
        apply (Hnot _ Hv), elem_of_app. right. by left.
      * intros v [->|Hv]%elem_of_cons; [done|].
        intros Hv'. apply (Hnot _ Hv), elem_of_app. by left.
      * unfold places_only. simpl. by rewrite Hplace.
    + apply res_bind_Ok in H as ([valid' out'] & Hrest & H). simpl in H.
      injection H as -> <-.
      apply IH in Hrest as (vals & Hvals & Hnd & Hnot & Hvalid & ->).
      exists (vote :: vals). rewrite places_cons, Hplace.
      split_and!; [by constructor|done|done|done|].
      unfold places_only. simpl. by rewrite Hplace.
Qed.

Lemma filterBallot_for_intro cells vals valid votes :
  Forall2 (λ cell v, int cell = Ok v) cells vals →
  NoDup (places vals) →
  (∀ v, v ∈ places vals → v ∉ votes) →
  filterBallot_for int cells valid votes
  = Ok (valid || bool_decide (places vals ≠ []), places_only cells vals).
Proof.
  intros Hvals. revert valid votes.
  induction Hvals as [|cell vote rest vals Hvote Hvals IH];
    intros valid votes Hnd Hnot; simpl.
  - by rewrite orb_false_r.
  - rewrite Hvote. simpl. fold (is_place vote).
    rewrite places_cons in Hnd, Hnot. rewrite places_cons.
    unfold places_only. simpl. destruct (is_place vote) eqn:Hplace.
    + apply NoDup_cons in Hnd as [Hv Hnd].
      rewrite bool_decide_eq_false_2 by (apply Hnot; by left).
      rewrite (IH true (votes ++ [vote])); [| done |].
      * simpl. by rewrite orb_true_r.
      * intros v Hin [Hv'|Hv']%elem_of_app.
        -- apply (Hnot v); [by right|done].
        -- apply list_elem_of_singleton in Hv' as ->. done.
    + by rewrite (IH valid votes).
Qed.

(** When [filterBallot] accepts. *)
Lemma filterBallot_Some ballot out :
  filterBallot int ballot = Ok (Some out)
  ↔ ∃ vals,
      Forall2 (λ cell v, int cell = Ok v) ballot vals
      ∧ NoDup (places vals)
      ∧ places vals ≠ []
      ∧ out = places_only ballot vals.
Proof.
  unfold filterBallot. split.
  - intros H. apply res_bind_Ok in H as ([valid out'] & Hfor & H).
    simpl in H. destruct valid; [|done]. injection H as <-.
    apply filterBallot_for_inv in Hfor
      as (vals & Hvals & Hnd & _ & [?|Hne] & ->); [done|]. eauto.
  - intros (vals & Hvals & Hnd & Hne & ->).
    rewrite (filterBallot_for_intro _ vals); [|done..|].
    + simpl. by rewrite bool_decide_eq_true_2.
    + intros v _. apply not_elem_of_nil.
Qed.

End filterBallot.

(** ** print_winner *)

Lemma winner_lines_Raise p e :
  winner_lines p = Raise e
  ↔ e = IndexError ∧ ∃ r, p_results p = Some r ∧ ranking r = [].
Proof.
  unfold winner_lines. destruct (p_results p) as [r|].
  - destruct (ranking r) as [|w l] eqn:Hr; simpl.
    + split; [intros [= <-]; eauto|]. by intros [-> _].
    + split; [done|]. intros [_ (r' & [= <-] & Hnil)]. congruence.
  - split; [done|]. by intros [_ (r & ? & _)].
Qed.

Lemma res_mapM_Raise_iff {A B} (f : A → res B) (l : list A) :
  (∃ e, res_mapM f l = Raise e) ↔ ∃ x e, x ∈ l ∧ f x = Raise e.
Proof.
  induction l as [|x l IH]; simpl.
  - split; [by intros [? ?]|]. by intros (? & ? & ?%elem_of_nil & _).
  - destruct (f x) as [y|e] eqn:Hx; simpl.
    + destruct (res_mapM f l) as [ys|e] eqn:Hl; simpl.
      * split; [by intros [? ?]|]. intros (x' & e & Hin & He).
        apply elem_of_cons in Hin as [->|Hin]; [congruence|].
        destruct (proj2 IH) as [? ?]; [eauto|done].
      * split; [|eauto]. intros _.
        destruct (proj1 IH) as (x' & e' & ? & ?); [eauto|].
        exists x', e'. split; [by right|done].
    + split; [|eauto]. intros _. exists x, e. split; [by left|done].
Qed.

(** ** read_votes *)

Lemma getitem_nat {A} (l : list A) (i : nat) x :
  Py.getitem l (Z.of_nat i) = Ok x ↔ l !! i = Some x.
Proof.
  unfold Py.getitem.
  rewrite (proj2 (Z.ltb_ge (Z.of_nat i) 0)) by lia. cbv zeta.
  rewrite (proj2 (Z.ltb_ge (Z.of_nat i) 0)) by lia. rewrite Nat2Z.id.
  destruct (l !! i); split; congruence.
Qed.

Lemma length_slice {A B} (l : list A) (l' : list B) start stop :
  length l = length l' →
  length (Py.slice l start stop) = length (Py.slice l' start stop).
Proof.
  intros Hl. unfold Py.slice, Py.slice_bound.
  rewrite !length_take, !length_drop, Hl. by destruct stop.
Qed.

Lemma length_slice_from {A B} (l : list A) (l' : list B) i :
  length l = length l' →
  length (Py.slice_from l i) = length (Py.slice_from l' i).
Proof.
  intros Hl. unfold Py.slice_from, Py.slice_bound.
  by rewrite !length_drop, Hl.
Qed.

Lemma places_only_length ballot vals :
  length ballot = length vals →
  length (places_only ballot vals) = length ballot.
Proof. intros. unfold places_only. rewrite length_zip_with. lia. Qed.

Lemma places_only_ranked ballot vals :
  length ballot = length vals → places vals ≠ [] →
  ∃ cell, Some cell ∈ places_only ballot vals.
Proof.
  revert vals. induction ballot as [|c ballot IH]; intros [|v vals] Hl Hne;
    try done.
  injection Hl as Hl. rewrite places_cons in Hne. unfold places_only. simpl.
  destruct (is_place v).
  - exists c. by left.
  - destruct (IH vals) as [cell Hcell]; [done..|]. exists cell. by right.
Qed.

Section read_votes.
Context (int : string → res Z).
Context (CANDIDATE_ROW FIRST_CANDIDATE_COL FIRST_BALLOT_ROW : Z).
Context (POSITIONS : list Z) (POSITION_NAMES : list string).


Lemma position_indices_length previous positions :
  length (position_indices previous positions) = length positions.
Proof.
  revert previous. induction positions as [|pos rest IH]; intros previous;
    simpl; [done|]. by rewrite IH.
Qed.

Lemma new_position_Ok candidates positionIndices index p :
  new_position POSITION_NAMES candidates positionIndices index = Ok p →
  positionIndices !! index = Some (p_start p)
  ∧ p_end p = positionIndices !! S index
  ∧ POSITION_NAMES !! index = Some (p_name p)
  ∧ p_names p = Py.slice candidates (p_start p) (p_end p)
  ∧ p_ballots p = [] ∧ p_results p = None.
Proof.
  unfold new_position. intros H.
  apply res_bind_Ok in H as (start & Hstart & H).
  apply res_bind_Ok in H as (stop & Hstop & H).
  apply res_bind_Ok in H as (name & Hname & H). injection H as <-. simpl.
  apply getitem_nat in Hstart, Hname. split_and!; try done.
  case_decide as Hlt.
  - apply res_bind_Ok in Hstop as (e & He & [= <-]).
    replace (index + 1)%nat with (S index) in He by lia.
    by apply getitem_nat in He.
  - injection Hstop as <-. symmetry. apply lookup_ge_None. lia.
Qed.

Lemma add_ballot_Ok ballot p p' :
  add_ballot int FIRST_CANDIDATE_COL ballot p = Ok p' →
  p_name p' = p_name p ∧ p_start p' = p_start p ∧ p_end p' = p_end p
  ∧ p_names p' = p_names p ∧ p_results p' = p_results p
  ∧ (p_ballots p' = p_ballots p
     ∨ ∃ vals,
         let cells := Py.slice (Py.slice_from ballot FIRST_CANDIDATE_COL)
                               (p_start p) (p_end p) in
         Forall2 (λ cell v, int cell = Ok v) cells vals
         ∧ NoDup (places vals) ∧ places vals ≠ []
         ∧ p_ballots p' = p_ballots p ++ [places_only cells vals]).
Proof.
  unfold add_ballot. intros H.
  apply res_bind_Ok in H as (vote & Hvote & H). injection H as <-.
  destruct vote as [v|]; simpl; split_and!; try done; [|by left].
  right. apply filterBallot_Some in Hvote as (vals & ? & ? & ? & ->). eauto.
Qed.

Lemma add_ballot_reading header ballot p p' :
  length ballot = length header →
  reading FIRST_CANDIDATE_COL header p → add_ballot int FIRST_CANDIDATE_COL ballot p = Ok p' →
  reading FIRST_CANDIDATE_COL header p' ∧ p_names p' = p_names p ∧ p_name p' = p_name p.
Proof.
  intros Hlen [Hnames Hballots] H.
  apply add_ballot_Ok in H as (Hn & Hs & He & Hns & _ & Hb).
  split; [|done]. split; [by rewrite Hns, Hs, He|].
  assert (Forall (ballot_of p') (p_ballots p)) as Hold.
  { eapply Forall_impl; [exact Hballots|]. intros b. unfold ballot_of.
    by rewrite Hns. }
  destruct Hb as [->|(vals & Hvals & _ & Hne & ->)]; [done|].
  apply Forall_app. split; [done|]. apply Forall_singleton.
  pose proof (Forall2_length _ _ _ Hvals) as Hl. split.
  - rewrite places_only_length by done. rewrite Hns, Hnames.
    apply length_slice, length_slice_from. done.
  - by apply places_only_ranked.
Qed.

Lemma read_row_reading header ballot ps ps' :
  length ballot = length header →
  Forall (reading FIRST_CANDIDATE_COL header) ps →
  res_mapM (add_ballot int FIRST_CANDIDATE_COL ballot) ps = Ok ps' →
  Forall (reading FIRST_CANDIDATE_COL header) ps' ∧ p_names <$> ps' = p_names <$> ps
  ∧ p_name <$> ps' = p_name <$> ps.
Proof.
  intros Hlen Hps H. apply res_mapM_Ok in H.
  induction H as [|p p' ps ps' Hp H IH]; [done|].
  apply Forall_cons in Hps as [Hr Hps].
  destruct (add_ballot_reading _ _ _ _ Hlen Hr Hp) as (? & ? & ?).
  destruct (IH Hps) as (? & ? & ?). split_and!.
  - by constructor.
  - rewrite !fmap_cons. congruence.
  - rewrite !fmap_cons. congruence.
Qed.

Lemma read_rows_reading header ballots ps ps' :
  Forall (λ ballot, length ballot = length header) ballots →
  Forall (reading FIRST_CANDIDATE_COL header) ps →
  res_foldM (λ results ballot, res_mapM (add_ballot int FIRST_CANDIDATE_COL ballot) results)
            ps ballots = Ok ps' →
  Forall (reading FIRST_CANDIDATE_COL header) ps' ∧ p_names <$> ps' = p_names <$> ps
  ∧ p_name <$> ps' = p_name <$> ps.
Proof.
  intros Hballots. revert ps.
  induction Hballots as [|ballot ballots Hlen Hballots IH]; intros ps Hps H;
    simpl in H.
  - by injection H as <-.
  - apply res_bind_Ok in H as (ps1 & Hrow & H).
    destruct (read_row_reading _ _ _ _ Hlen Hps Hrow) as (? & ? & ?).
    destruct (IH _ ltac:(done) H) as (? & ? & ?).
    split_and!; [done|congruence|congruence].
Qed.

(** The names of the rows are kept whatever the rows hold. *)
Lemma read_rows_names ballots ps ps' :
  res_foldM (λ results ballot, res_mapM (add_ballot int FIRST_CANDIDATE_COL ballot) results)
            ps ballots = Ok ps' →
  p_names <$> ps' = p_names <$> ps ∧ p_name <$> ps' = p_name <$> ps.
Proof.
  revert ps. induction ballots as [|ballot ballots IH]; intros ps H;
    simpl in H.
  - by injection H as <-.
  - apply res_bind_Ok in H as (ps1 & Hrow & H).
    destruct (IH _ H) as [-> ->]. apply res_mapM_Ok in Hrow.
    clear -Hrow. induction Hrow as [|p p' ps ps1 Hp H [IH1 IH2]]; [done|].
    apply add_ballot_Ok in Hp as (? & _ & _ & ? & _). rewrite !fmap_cons.
    split; congruence.
Qed.

(** The slices between consecutive running sums, put together. *)
Lemma concat_slices {A} (cands : list A) (previous : Z) (positions : list Z) :
  0 ≤ previous → Forall (λ pos, 0 ≤ pos) positions → positions ≠ [] →
  let idx := position_indices previous positions in
  concat ((λ i, Py.slice cands (default 0 (idx !! i)) (idx !! S i))
            <$> seq 0 (length idx))
  = drop (Z.to_nat previous) cands.
Proof.
  intros Hp Hpos Hne. revert previous Hp.
  induction Hpos as [|pos rest Hpos0 Hpos IH]; intros previous Hp; [done|].
  simpl. rewrite <-fmap_S_seq, <-list_fmap_compose.
  destruct rest as [|pos' rest].
  - simpl. rewrite app_nil_r. unfold Py.slice, Py.slice_bound.
    rewrite (proj2 (Z.ltb_ge previous 0)) by lia.
    apply take_ge. rewrite length_drop. lia.
  - specialize (IH ltac:(done) (pos + previous) ltac:(lia)).
    cbv zeta in IH.
    erewrite (list_fmap_ext _ (λ i, Py.slice cands
                (default 0 (position_indices (pos + previous) (pos' :: rest) !! i))
                (position_indices (pos + previous) (pos' :: rest) !! S i)));
      [|by intros].
    rewrite IH. simpl. unfold Py.slice, Py.slice_bound.
    rewrite (proj2 (Z.ltb_ge previous 0)) by lia.
    rewrite (proj2 (Z.ltb_ge (pos + previous) 0)) by lia.
    rewrite <-(take_drop (Z.to_nat (pos + previous) - Z.to_nat previous)
                 (drop (Z.to_nat previous) cands)) at 2.
    rewrite drop_drop. do 2 f_equal. lia.
Qed.

Lemma new_positions_from cands idx l ps k :
  Forall2 (λ i p, new_position POSITION_NAMES cands idx i = Ok p) l ps →
  l = seq k (length l) →
  p_names <$> ps
    = (λ i, Py.slice cands (default 0 (idx !! i)) (idx !! S i)) <$> l
  ∧ p_name <$> ps = take (length l) (drop k POSITION_NAMES)
  ∧ Forall (λ p, p_names p = Py.slice cands (p_start p) (p_end p)
                 ∧ p_ballots p = []) ps.
Proof.
  intros H. revert k.
  induction H as [|i p l ps Hp H IH]; intros k Hl; [done|].
  simpl in Hl. injection Hl as -> Hl. destruct (IH _ Hl) as (IH1 & IH2 & IH3).
  apply new_position_Ok in Hp as (Hs & He & Hn & Hns & Hb & _).
  split_and!.
  - rewrite !fmap_cons, IH1. f_equal. by rewrite Hs, Hns, He.
  - rewrite fmap_cons, IH2. simpl. by rewrite (drop_S _ _ _ Hn).
  - by constructor.
Qed.

Lemma read_votes_Ok raw_data ps :
  read_votes int CANDIDATE_ROW FIRST_CANDIDATE_COL FIRST_BALLOT_ROW
             POSITIONS POSITION_NAMES raw_data = Ok ps →
  ∃ header ps0,
    Py.getitem raw_data CANDIDATE_ROW = Ok header
    ∧ Forall2 (λ i p, new_position POSITION_NAMES
                        (Py.slice_from header FIRST_CANDIDATE_COL)
                        (position_indices 0 POSITIONS) i = Ok p)
              (seq 0 (length POSITIONS)) ps0
    ∧ res_foldM (λ results ballot,
                   res_mapM (add_ballot int FIRST_CANDIDATE_COL ballot) results)
                ps0 (Py.slice_from raw_data FIRST_BALLOT_ROW) = Ok ps.
Proof.
  unfold read_votes. intros H.
  apply res_bind_Ok in H as (header & Hheader & H).
  apply res_bind_Ok in H as (ps0 & Hps0 & H).
  apply res_mapM_Ok in Hps0. rewrite position_indices_length in Hps0. eauto.
Qed.

(** X22. When [read_votes] returns, with sizes in [POSITIONS] that are
    not negative and at least one of them, it returns one position per
    entry of [POSITIONS], named by [POSITION_NAMES] in order, and the
    candidates of the positions, put end to end, are the candidates of
    the header row: every candidate stands for one position, the last
    position taking all that are left, whatever its size says. *)
Theorem read_votes_names raw_data header ps :
  Forall (λ pos, 0 ≤ pos) POSITIONS → POSITIONS ≠ [] →
  Py.getitem raw_data CANDIDATE_ROW = Ok header →
  read_votes int CANDIDATE_ROW FIRST_CANDIDATE_COL FIRST_BALLOT_ROW
             POSITIONS POSITION_NAMES raw_data = Ok ps →
  length ps = length POSITIONS
  ∧ p_name <$> ps = take (length POSITIONS) POSITION_NAMES
  ∧ concat (p_names <$> ps) = Py.slice_from header FIRST_CANDIDATE_COL.
Proof.
  intros Hpos Hne Hheader H.
  apply read_votes_Ok in H as (header' & ps0 & Hheader' & Hps0 & H).
  assert (header' = header) as -> by congruence.
  apply read_rows_names in H as [Hnames Hname].
  pose proof (new_positions_from _ _ _ _ 0%nat Hps0) as (H1 & H2 & _).
  { by rewrite length_seq. }
  rewrite length_seq in H2. split_and!.
  - rewrite <-(length_fmap p_name), Hname, length_fmap.
    apply Forall2_length in Hps0. by rewrite length_seq in Hps0.
  - by rewrite Hname, H2.
  - rewrite Hnames, H1.
    pose proof (concat_slices (Py.slice_from header FIRST_CANDIDATE_COL)
                  0 POSITIONS ltac:(lia) Hpos Hne) as Hc.
    cbv zeta in Hc. rewrite position_indices_length in Hc. by rewrite Hc.
Qed.

(** X23. When the ballot rows are as wide as the header row, every
    ballot [read_votes] keeps for a position has one cell per candidate
    of the position, and ranks at least one of them. *)
Theorem read_votes_ballots raw_data header ps :
  Py.getitem raw_data CANDIDATE_ROW = Ok header →
  Forall (λ row, length row = length header)
         (Py.slice_from raw_data FIRST_BALLOT_ROW) →
  read_votes int CANDIDATE_ROW FIRST_CANDIDATE_COL FIRST_BALLOT_ROW
             POSITIONS POSITION_NAMES raw_data = Ok ps →
  Forall (λ p, Forall (ballot_of p) (p_ballots p)) ps.
Proof.
  intros Hheader Hrows H.
  apply read_votes_Ok in H as (header' & ps0 & Hheader' & Hps0 & H).
  assert (header' = header) as -> by congruence.
  pose proof (new_positions_from _ _ _ _ 0%nat Hps0) as (_ & _ & H0).
  { by rewrite length_seq. }
  eapply read_rows_reading in H as (H & _); [|done|].
  - eapply Forall_impl; [exact H|]. by intros p [_ ?].
  - eapply Forall_impl; [exact H0|]. intros p [Hn Hb]. split; [done|].
    rewrite Hb. constructor.
Qed.

End read_votes.

(** ** Manual mode *)

(** In manual mode the [while True] loop returns without an elimination
    or not at all, and automated mode then returns the same. *)
Lemma while_true_manual input name fuel table h x :
  while_true input name false fuel table h = Some (Ok x) →
  while_true input name true fuel table h = Some (Ok x).
Proof.
  destruct fuel as [|fuel]; [done|]. simpl. unfold bind.
  destruct (Ref.compute_winner table h) as [[[[w|] h1]|]|]; try done.
  destruct (deref table h1) as [[[self h2]|]|]; try done.
  case_decide; [done|].
  destruct (select_loser input name false table h2) as [[[i h3]|]|] eqn:Hs;
    try done.
  by apply select_loser_Ok in Hs as [? _].
Qed.

Lemma for_rank_manual input name fuel N ranks st h x :
  for_rank input name false fuel N ranks st h = Some (Ok x) →
  for_rank input name true fuel N ranks st h = Some (Ok x).
Proof.
  revert st h. induction ranks as [|rank ranks IH]; intros st h; [done|].
  simpl. unfold bind, round_body, bind.
  destruct (Ref.copy _ h) as [[[full_table h1]|]|]; try done.
  destruct (while_true input name false _ _ h1) as [[te|]|] eqn:Hw; try done.
  rewrite (while_true_manual _ _ _ _ _ _ Hw). destruct te as [te h2].
  destruct (if decide _ then _ else _) as [[[st1 h3]|]|]; try done.
  apply IH.
Qed.

(** X16. Manual mode adds nothing to automated mode: a contest that
    returns in manual mode has needed no elimination, and returns the
    same in automated mode. *)
Theorem tabulate_manual input fuel name ballots cand r :
  tabulate input fuel name ballots cand false = Some (Ok r) →
  tabulate input fuel name ballots cand true = Some (Ok r).
Proof.
  unfold tabulate, bind.
  destruct (Ref.new ballots cand []) as [[[table h1]|]|]; try done.
  unfold instant_runoff, bind.
  destruct (deref table h1) as [[[self h2]|]|]; try done.
  destruct (for_rank input name false _ _ _ _ h2) as [[x|]|] eqn:Hf; try done.
  by rewrite (for_rank_manual _ _ _ _ _ _ _ _ Hf).
Qed.

(** ** The operator *)

(** X17. What the operator types never reaches the tabulation: the
    contest of a position ends the same way, in either mode, for any
    two operators. *)
Theorem tabulate_input input1 input2 fuel name ballots cand is_automated :
  tabulate input1 fuel name ballots cand is_automated
  = tabulate input2 fuel name ballots cand is_automated.
Proof.
  unfold tabulate, bind.
  destruct (Ref.new ballots cand []) as [[[table h1]|]|]; try done.
  unfold instant_runoff, bind.
  destruct (deref table h1) as [[[self h2]|]|]; try done.
  by rewrite (for_rank_input input1 input2).
Qed.

(** ** Positions *)

Lemma get_rank_order_cells_str (l : list (option string)) :
  ∃ out,
    get_rank_order_cells Py.str_lt l = Ok out
    ∧ length out = length l
    ∧ normalized out
    ∧ (∀ i, l !! i = Some None ↔ out !! i = Some None)
    ∧ (∀ i j a b, l !! i = Some (Some a) → l !! j = Some (Some b) →
         String.ltb a b = true ∨ (a = b ∧ (i < j)%nat) →
         ∃ a' b', out !! i = Some (Some a') ∧ out !! j = Some (Some b')
                  ∧ a' < b').
Proof.
  apply (get_rank_order_cells_spec Py.str_lt).
  - intros x y. unfold Py.str_lt. eauto.
  - intros x y [= H]. exact H.
  - apply str_lt_false.
Qed.

Lemma reduce_ranks_str (votes0 : list (list (option string))) :
  ∃ vs, res_mapM (get_rank_order_cells Py.str_lt) votes0 = Ok vs.
Proof.
  apply res_mapM_total. intros l _.
  destruct (get_rank_order_cells_str l) as (out & ? & _). eauto.
Qed.

Lemma VoteTable_init_cells_str votes0 names0 vs :
  res_mapM (get_rank_order_cells Py.str_lt) votes0 = Ok vs →
  VoteTable_init_cells Py.str_lt votes0 names0 = VoteTable_init vs names0.
Proof.
  apply (VoteTable_init_cells_ranks Py.str_lt).
  - intros x y. unfold Py.str_lt. eauto.
  - intros x y [= H]. exact H.
  - apply str_lt_false.
Qed.

(** X19. [loop_tables] on a position with ballots: tabulating the
    cells [read_votes] kept is tabulating their rank orders, and a
    result is stored under the position without touching its name,
    candidates and ballots. *)
Theorem loop_position_ranks input fuel is_automated p vs :
  p_ballots p ≠ [] →
  res_mapM (get_rank_order_cells Py.str_lt) (p_ballots p) = Ok vs →
  loop_position input fuel is_automated p
  = match tabulate input fuel (p_name p) vs (p_names p) is_automated with
    | Some (Ok r) =>
        Some (Ok (mkPosition (p_name p) (p_start p) (p_end p) (p_names p)
                             (p_ballots p) (Some r)))
    | Some (Raise e) => Some (Raise e)
    | None => None
    end.
Proof.
  intros Hne Hvs. unfold loop_position, tabulate, Ref.new.
  rewrite decide_False by (by destruct (p_ballots p)).
  rewrite (VoteTable_init_cells_str _ _ _ Hvs).
  by destruct (bind _ _ _) as [[[r h]|e]|].
Qed.

(** ** print_winner *)

(** X21. [print_winner] raises exactly when some position has a result
    that ranks no candidate, and then [IndexError]; a position without
    result does not make it raise. *)
Theorem print_winner_Raise positions e :
  print_winner positions = Raise e
  ↔ e = IndexError
    ∧ ∃ p r, p ∈ positions ∧ p_results p = Some r ∧ ranking r = [].
Proof.
  unfold print_winner. split.
  - intros H. destruct (res_mapM winner_lines positions) as [lines|e'] eqn:Hm;
      [done|]. injection H as ->.
    destruct (proj1 (res_mapM_Raise_iff winner_lines positions))
      as (p & e1 & Hp & He1); [eauto|].
    assert (∀ l e0, res_mapM winner_lines l = Raise e0 → e0 = IndexError)
      as Hall.
    { clear. induction l as [|p l IH]; intros e0; simpl; [done|].
      destruct (winner_lines p) as [y|e1] eqn:Hp; simpl.
      - destruct (res_mapM winner_lines l) as [ys|e2]; simpl; [done|].
        intros [= <-]. by apply IH.
      - intros [= <-]. by apply winner_lines_Raise in Hp as [? _]. }
    split; [by eapply Hall|].
    apply winner_lines_Raise in He1 as (_ & r & ? & ?). eauto.
  - intros (-> & p & r & Hp & Hr & Hnil).
    destruct (proj2 (res_mapM_Raise_iff winner_lines positions)) as [e' He'].
    { exists p, IndexError. split; [done|]. apply winner_lines_Raise. eauto. }
    rewrite He'. simpl. f_equal.
    clear -He'. revert e' He'.
    induction positions as [|p l IH]; intros e0; simpl; [done|].
    destruct (winner_lines p) as [y|e1] eqn:Hp; simpl.
    + destruct (res_mapM winner_lines l) as [ys|e2]; simpl; [done|].
      intros [= <-]. by apply IH.
    + intros [= <-]. by apply winner_lines_Raise in Hp as [? _].
Qed.

(** ** The properties *)

(** X3. The constructor raises [ValueError] when it is given no ballot,
    and when it is given no candidate name. *)
Theorem VoteTable_init_empty :
  (∀ names0, VoteTable_init [] names0 = Raise ValueError)
  ∧ (∀ votes0, VoteTable_init votes0 [] = Raise ValueError).
Proof. exact VoteTable_init_nil. Qed.

(** X5. In a constructed table the count vector of every candidate has
    one entry per candidate, entry [r] being the number of ballots that
    give the candidate rank [r + 1], and adds up to the number of
    ballots that rank the candidate: abstentions are not counted, every
    rank is counted once. *)
Theorem count_vectors_sum votes0 names0 t i cnt col x :
  VoteTable_init votes0 names0 = Ok t →
  candidates t !! i = Some (cnt, col, x) →
  Py.sum cnt = Z.of_nat (length (ranks_of col))
  ∧ length cnt = length names0
  ∧ ∀ r, (r < length names0)%nat →
         cnt !! r = Some (tally col (Z.of_nat r + 1)).
Proof. apply candidate_counts. Qed.

(** X6. Along a constructed table the number of first places never
    goes down: the last candidate has the most. *)
Theorem first_places_ascend votes0 names0 t i j cnt1 col1 x1 cnt2 col2 x2 :
  VoteTable_init votes0 names0 = Ok t →
  candidates t !! i = Some (cnt1, col1, x1) →
  candidates t !! j = Some (cnt2, col2, x2) → (i ≤ j)%nat →
  tally col1 1 ≤ tally col2 1.
Proof.
  intros Hinit Hi Hj Hij.
  destruct (VoteTable_init_inv _ _ _ Hinit) as (Hinv & _).
  apply (candidates_first_places t i j _ _ Hinv Hi Hj Hij).
Qed.

(** X7. Rebuilding a table built from aligned ballots changes nothing:
    [maintain] returns the table itself, and so does the constructor on
    the table's own ballots and names, which is what [copy] runs. *)
Theorem rebuild_idempotent votes0 names0 t :
  VoteTable_init votes0 names0 = Ok t → aligned votes0 names0 →
  maintain t = Ok t ∧ VoteTable_init (votes t) (names t) = Ok t.
Proof. apply maintain_fixed. Qed.

(** X8. On aligned ballots the constructor raises nothing but
    [ValueError], when there is no ballot or no candidate, and
    [TypeError], which takes a ballot with an abstention: never a
    [KeyError] from counting or an [IndexError]. *)
Theorem VoteTable_init_raises votes0 names0 e :
  aligned votes0 names0 →
  VoteTable_init votes0 names0 = Raise e →
  (e = ValueError ∧ (votes0 = [] ∨ names0 = []))
  ∨ (e = TypeError ∧ abstaining votes0).
Proof. apply VoteTable_init_Raise. Qed.

(** X9. Aligned ballots without abstention, at least one of them and at
    least one candidate: the constructor returns a table. *)
Theorem VoteTable_init_complete votes0 names0 :
  aligned votes0 names0 → votes0 ≠ [] → names0 ≠ [] →
  ¬ abstaining votes0 →
  ∃ t, VoteTable_init votes0 names0 = Ok t.
Proof.
  intros Hal Hv Hn Hfull. apply VoteTable_init_total; [done..|].
  apply Forall_forall. intros b Hb Hnone. apply Hfull. by exists b.
Qed.

(** X10. [compute_winner] looks at the last candidate only, and that is
    enough: it returns [None] exactly when no candidate of the table has
    rank 1 on more than half of the ballots. *)
Theorem compute_winner_no_majority votes0 names0 t :
  VoteTable_init votes0 names0 = Ok t →
  compute_winner t = Ok None
  ↔ ∀ cnt col x, (cnt, col, x) ∈ candidates t →
      2 * tally col 1 ≤ Z.of_nat (N_votes t).
Proof. apply compute_winner_None_iff. Qed.

(** X14. The contest of one position on aligned ballots raises nothing
    but the [ValueError] of a table without ballots or without
    candidates, the [TypeError] of a sort that meets an abstention, and
    the [AttributeError] of [print_table]. *)
Theorem tabulate_raises input fuel name ballots cand is_automated e :
  aligned ballots cand →
  tabulate input fuel name ballots cand is_automated = Some (Raise e) →
  (e = ValueError ∧ (ballots = [] ∨ cand = []))
  ∨ (e = TypeError ∧ abstaining ballots)
  ∨ e = AttributeError.
Proof. apply tabulate_Raise. Qed.

(** X18. On the cells of a vote file [get_rank_order] raises nothing and
    returns the ranks [1 .. k] over the [k] ranked cells, the blanks
    where they were; the cells are ordered as [str], not as numbers, and
    equal cells by slot. *)
Theorem get_rank_order_str (l : list (option string)) :
  ∃ out,
    get_rank_order_cells Py.str_lt l = Ok out
    ∧ length out = length l
    ∧ normalized out
    ∧ (∀ i, l !! i = Some None ↔ out !! i = Some None)
    ∧ (∀ i j a b, l !! i = Some (Some a) → l !! j = Some (Some b) →
         String.ltb a b = true ∨ (a = b ∧ (i < j)%nat) →
         ∃ a' b', out !! i = Some (Some a') ∧ out !! j = Some (Some b')
                  ∧ a' < b').
Proof. apply get_rank_order_cells_str. Qed.

(** X20. [filterBallot] returns a ballot exactly when every cell is a
    number, no place [1 .. 10] is given twice and some place is given;
    the ballot returned keeps the cells that hold a place and blanks the
    others. *)
Theorem filterBallot_accepts (int : string → res Z) ballot out :
  filterBallot int ballot = Ok (Some out)
  ↔ ∃ vals,
      Forall2 (λ cell v, int cell = Ok v) ballot vals
      ∧ NoDup (places vals)
      ∧ places vals ≠ []
      ∧ out = places_only ballot vals.
Proof. apply filterBallot_Some. Qed.

(** ** The further properties on concrete contests *)

Lemma p3zip_shortest_row_witness :
  [[1; 2; 3]; [4; 5]] ≠ []
  ∧ ((1 < length (p3zip [[1; 2; 3]; [4; 5]]))%nat
     ↔ Forall (λ row, (1 < length row)%nat) [[1; 2; 3]; [4; 5]]).
Proof.
  split; [done|]. apply (p3zip_shortest_row [[1; 2; 3]; [4; 5]] 1). done.
Defined.

Lemma p3zip_twice_witness :
  p3zip (p3zip [[1; 2]; [3; 4]; [5; 6]]) = [[1; 2]; [3; 4]; [5; 6]]
  ∧ length (p3zip [[1; 2]; [3; 4]; [5; 6]]) = 2%nat
  ∧ Forall (λ col, length col = length [[1; 2]; [3; 4]; [5; 6]])
           (p3zip [[1; 2]; [3; 4]; [5; 6]]).
Proof.
  apply (p3zip_twice [[1; 2]; [3; 4]; [5; 6]] 2); [done|lia|].
  repeat constructor.
Defined.

Lemma get_rank_order_idempotent_witness :
  get_rank_order [Some 5; Some 1; None; Some 4]
    = Ok [Some 3; Some 1; None; Some 2]
  ∧ get_rank_order [Some 3; Some 1; None; Some 2]
    = Ok [Some 3; Some 1; None; Some 2].
Proof.
  split; [reflexivity|].
  apply (get_rank_order_idempotent [Some 5; Some 1; None; Some 4]).
  reflexivity.
Defined.

Lemma count_vectors_sum_witness :
  VoteTable_init Examples.majority_ballots Examples.ABC
    = Ok Examples.majority_table
  ∧ Py.sum [1; 1; 3] = 5
  ∧ length [1; 1; 3] = length Examples.ABC
  ∧ ∀ r, (r < length Examples.ABC)%nat →
      [1; 1; 3] !! r
      = Some (tally [Some 3; Some 2; Some 3; Some 3; Some 1]
                    (Z.of_nat r + 1)).
Proof.
  split; [reflexivity|].
  apply (count_vectors_sum Examples.majority_ballots Examples.ABC
           Examples.majority_table 0%nat [1; 1; 3]
           [Some 3; Some 2; Some 3; Some 3; Some 1] "C"%string);
    reflexivity.
Defined.

Lemma first_places_ascend_witness :
  VoteTable_init Examples.majority_ballots Examples.ABC
    = Ok Examples.majority_table
  ∧ tally [Some 3; Some 2; Some 3; Some 3; Some 1] 1
    ≤ tally [Some 1; Some 1; Some 1; Some 2; Some 3] 1.
Proof.
  split; [reflexivity|].
  apply (first_places_ascend Examples.majority_ballots Examples.ABC
           Examples.majority_table 0%nat 2%nat
           [1; 1; 3] [Some 3; Some 2; Some 3; Some 3; Some 1] "C"%string
           [3; 1; 1] [Some 1; Some 1; Some 1; Some 2; Some 3] "A"%string);
    [reflexivity..|lia].
Defined.

Lemma rebuild_idempotent_witness :
  VoteTable_init Examples.majority_ballots Examples.ABC
    = Ok Examples.majority_table
  ∧ maintain Examples.majority_table = Ok Examples.majority_table
  ∧ VoteTable_init (votes Examples.majority_table)
                   (names Examples.majority_table)
    = Ok Examples.majority_table.
Proof.
  split; [reflexivity|].
  apply (rebuild_idempotent Examples.majority_ballots Examples.ABC);
    [reflexivity|]. by apply ABC_aligned.
Defined.

Lemma VoteTable_init_raises_witness :
  VoteTable_init Examples.bullet_ballots ["A"; "B"]%string = Raise TypeError
  ∧ ((TypeError = ValueError
      ∧ (Examples.bullet_ballots = [] ∨ ["A"; "B"]%string = []))
     ∨ (TypeError = TypeError ∧ abstaining Examples.bullet_ballots)).
Proof.
  split; [reflexivity|].
  apply (VoteTable_init_raises Examples.bullet_ballots ["A"; "B"]%string);
    [|reflexivity]. repeat constructor.
Defined.

Lemma VoteTable_init_complete_witness :
  ¬ abstaining Examples.majority_ballots
  ∧ ∃ t, VoteTable_init Examples.majority_ballots Examples.ABC = Ok t.
Proof.
  assert (¬ abstaining Examples.majority_ballots) as Hfull.
  { apply (bool_decide_unpack _). vm_compute. exact I. }
  split; [exact Hfull|].
  apply (VoteTable_init_complete Examples.majority_ballots Examples.ABC);
    [by apply ABC_aligned|done|done|exact Hfull].
Defined.

Lemma compute_winner_no_majority_witness :
  VoteTable_init Examples.weak_tie_ballots Examples.ABC
    = Ok Examples.weak_tie_table
  ∧ (compute_winner Examples.weak_tie_table = Ok None
     ↔ ∀ cnt col x, (cnt, col, x) ∈ candidates Examples.weak_tie_table →
         2 * tally col 1 ≤ Z.of_nat (N_votes Examples.weak_tie_table)).
Proof.
  split; [reflexivity|].
  apply (compute_winner_no_majority Examples.weak_tie_ballots Examples.ABC).
  reflexivity.
Defined.

Lemma majority_wins_witness :
  VoteTable_init Examples.majority_ballots Examples.ABC
    = Ok Examples.majority_table
  ∧ compute_winner Examples.majority_table = Ok (Some "A"%string)
  ∧ 3%nat = length (candidates Examples.majority_table)
  ∧ ∀ j cnt' col' x',
      candidates Examples.majority_table !! j = Some (cnt', col', x') →
      j ≠ 2%nat →
      2 * tally col' 1 ≤ Z.of_nat (N_votes Examples.majority_table).
Proof.
  split; [reflexivity|].
  apply (majority_wins Examples.majority_ballots Examples.ABC
           Examples.majority_table 2%nat [3; 1; 1]
           [Some 1; Some 1; Some 1; Some 2; Some 3] "A"%string);
    [reflexivity|by apply ABC_aligned|reflexivity|].
  vm_compute. reflexivity.
Defined.

Lemma with_candidate_eliminated_out_of_range_witness :
  VoteTable_init Examples.flip_ballots Examples.ABC = Ok Examples.flip_table
  ∧ Ref.with_candidate_eliminated 0%nat 7 [Examples.flip_table]
    = Some (Ok (1%nat, [Examples.flip_table; Examples.flip_table])).
Proof.
  split; [reflexivity|].
  apply (with_candidate_eliminated_out_of_range
           Examples.flip_ballots Examples.ABC Examples.flip_table
           [Examples.flip_table] 0%nat 7);
    [reflexivity|by apply ABC_aligned|reflexivity|].
  left. vm_compute. discriminate.
Defined.

Lemma with_candidate_eliminated_negative_witness :
  VoteTable_init Examples.flip_ballots Examples.ABC = Ok Examples.flip_table
  ∧ (∀ index, - Z.of_nat (N_candidates Examples.flip_table) ≤ index ≤ -2 →
       Ref.with_candidate_eliminated 0%nat index [Examples.flip_table]
       = Ref.with_candidate_eliminated 0%nat
           (Z.of_nat (N_candidates Examples.flip_table) + index)
           [Examples.flip_table])
  ∧ (∀ r h',
       Ref.with_candidate_eliminated 0%nat (-1) [Examples.flip_table]
         = Some (Ok (r, h')) →
       ∃ t', h' !! r = Some t'
         ∧ names t' ≡ₚ take (N_candidates Examples.flip_table - 1)
                            (names Examples.flip_table)
                       ++ names Examples.flip_table
         ∧ N_candidates t'
           = (2 * N_candidates Examples.flip_table - 1)%nat).
Proof.
  split; [reflexivity|].
  apply (with_candidate_eliminated_negative
           Examples.flip_ballots Examples.ABC Examples.flip_table
           [Examples.flip_table] 0%nat);
    [reflexivity|by apply ABC_aligned|reflexivity].
Defined.

Lemma tabulate_raises_witness :
  tabulate (Examples.typing "0") 3 "P" Examples.partial_ballots Examples.ABC
           true
    = Some (Raise TypeError)
  ∧ ((TypeError = ValueError
      ∧ (Examples.partial_ballots = [] ∨ Examples.ABC = []))
     ∨ (TypeError = TypeError ∧ abstaining Examples.partial_ballots)
     ∨ TypeError = AttributeError).
Proof.
  split; [reflexivity|].
  apply (tabulate_raises (Examples.typing "0") 3 "P"
           Examples.partial_ballots Examples.ABC true);
    [by apply ABC_aligned|reflexivity].
Defined.

Lemma tabulate_total_witness :
  ¬ abstaining Examples.majority_ballots
  ∧ ((∃ r, tabulate (Examples.typing "0") 3 "P" Examples.majority_ballots
                    Examples.ABC true = Some (Ok r)
           ∧ ineligible_candidates r = []
           ∧ ranking r ≡ₚ Examples.ABC)
     ∨ tabulate (Examples.typing "0") 3 "P" Examples.majority_ballots
                Examples.ABC true = Some (Raise AttributeError)).
Proof.
  assert (¬ abstaining Examples.majority_ballots) as Hfull.
  { apply (bool_decide_unpack _). vm_compute. exact I. }
  split; [exact Hfull|].
  apply (tabulate_total (Examples.typing "0") 3 "P"
           Examples.majority_ballots Examples.ABC true);
    [by apply ABC_aligned|done|done|exact Hfull|].
  vm_compute. lia.
Defined.

Lemma tabulate_manual_witness :
  tabulate (Examples.typing "0") 3 "P" Examples.majority_ballots Examples.ABC
           false
    = Some (Ok (mkResults ["A"; "B"; "C"]%string []))
  ∧ tabulate (Examples.typing "0") 3 "P" Examples.majority_ballots
             Examples.ABC true
    = Some (Ok (mkResults ["A"; "B"; "C"]%string [])).
Proof.
  split; [reflexivity|].
  apply (tabulate_manual (Examples.typing "0") 3 "P"
           Examples.majority_ballots Examples.ABC).
  reflexivity.
Defined.

Lemma loop_position_ranks_witness :
  p_ballots Examples.president ≠ []
  ∧ res_mapM (get_rank_order_cells Py.str_lt) (p_ballots Examples.president)
    = Ok [[Some 1; Some 2; Some 3]; [Some 2; Some 1; None]]
  ∧ loop_position (Examples.typing "0") 3 true Examples.president
    = match tabulate (Examples.typing "0") 3 "President"
              [[Some 1; Some 2; Some 3]; [Some 2; Some 1; None]]
              ["A"; "B"; "C"]%string true with
      | Some (Ok r) =>
          Some (Ok (mkPosition "President" 0 (Some 3) ["A"; "B"; "C"]%string
                               (p_ballots Examples.president) (Some r)))
      | Some (Raise e) => Some (Raise e)
      | None => None
      end.
Proof.
  split; [done|]. split; [reflexivity|].
  apply (loop_position_ranks (Examples.typing "0") 3 true
           Examples.president
           [[Some 1; Some 2; Some 3]; [Some 2; Some 1; None]]);
    [done|reflexivity].
Defined.

Lemma read_votes_names_witness :
  read_votes Examples.decimal 0 1 1 [3; 2]
             ["President"; "Treasurer"]%string Examples.vote_file
    = Ok [Examples.president; Examples.treasurer]
  ∧ length [Examples.president; Examples.treasurer] = length [3; 2]
  ∧ p_name <$> [Examples.president; Examples.treasurer]
    = take (length [3; 2]) ["President"; "Treasurer"]%string
  ∧ concat (p_names <$> [Examples.president; Examples.treasurer])
    = Py.slice_from
        ["Timestamp"; "A"; "B"; "C"; "D"; "E"]%string 1.
Proof.
  split; [reflexivity|].
  apply (read_votes_names Examples.decimal 0 1 1 [3; 2]
           ["President"; "Treasurer"]%string Examples.vote_file
           ["Timestamp"; "A"; "B"; "C"; "D"; "E"]%string);
    [|done|reflexivity|reflexivity].
  repeat constructor; lia.
Defined.

Lemma read_votes_ballots_witness :
  read_votes Examples.decimal 0 1 1 [3; 2]
             ["President"; "Treasurer"]%string Examples.vote_file
    = Ok [Examples.president; Examples.treasurer]
  ∧ Forall (λ p, Forall (ballot_of p) (p_ballots p))
           [Examples.president; Examples.treasurer].
Proof.
  split; [reflexivity|].
  apply (read_votes_ballots Examples.decimal 0 1 1 [3; 2]
           ["President"; "Treasurer"]%string Examples.vote_file
           ["Timestamp"; "A"; "B"; "C"; "D"; "E"]%string);
    [reflexivity| |reflexivity].
  repeat constructor.
Defined.

(** A ballot whose cells hold 2 and 10: as [str], the cell that holds
    10 comes first. *)
Example get_rank_order_str_ten :
  get_rank_order_cells Py.str_lt [Some "2"; Some "10"; None]%string
  = Ok [Some 2; Some 1; None].
Proof. reflexivity. Qed.

(** Six ballots that each rank one candidate of three: the contest
    returns with every candidate ineligible and none ranked, and
    [print_winner] raises on the result. *)
Example print_winner_unranked :
  loop_tables (Examples.typing "0") 3 true [Examples.bullets]
    = Some (Ok [Examples.bullets_tabulated])
  ∧ p_results Examples.bullets_tabulated
    = Some (mkResults [] ["C"; "A"; "B"]%string)
  ∧ print_winner [Examples.bullets_tabulated] = Raise IndexError.
Proof. split; [|split]; vm_compute; reflexivity. Qed.
